(** * V3CTK: the sample-stream multiplexer, the spatial partitioner and the
    encode job builder, embedded from the Python sources.

    - [src/multiplexer.py]: [parse_v3c_units], [combine_per_segment]
    - [src/src/tile_generator.py]: [_process_frame], [TileGenerator]
    - [src/src/tile_io.py]: [PlyIO.write], [PlyIO.read]
    - [src/src/encoder/tmc2_encoder.py]: [_derive_frame_sequence],
      [_normalize_qp_pairs], [encode_tiles_with_qp_pairs]

    Python [int] is unbounded: offsets, sizes and unit types are [N], signed
    values are [Z].  [bytes] is [list byte].  A [dict] used as a key/value map
    is a [gmap string _]. *)

From Stdlib Require Import ZArith NArith Lia List Ascii String.
From Stdlib.Strings Require Import Byte.
From Stdlib Require Import QArith Qround Qminmax Qabs Lqa.
From Stdlib Require Import DecimalString DecimalNat.
From stdpp Require Import base option list gmap strings.

Local Open Scope N_scope.

(** ** Exceptions and results *)

(** The exceptions the modelled functions raise. *)
Inductive exn : Type :=
| ValueError (msg : string)
| IndexError
| RuntimeError (msg : string)
| FileNotFoundError (msg : string).

(** How a call ends.  [OutOfFuel] is the model's own: a loop ran out of the
    fuel it was given (shown below never to happen for the parser). *)
Inductive outcome (A : Type) : Type :=
| Returned (a : A)
| Raised (e : exn)
| OutOfFuel.
Arguments Returned {A} a.
Arguments Raised {A} e.
Arguments OutOfFuel {A}.

(** ** [parse_v3c_units] (multiplexer.py, lines 6-25) *)

(** [int.from_bytes(bs, "big")]. *)
Definition from_bytes_big (bs : list byte) : N :=
  fold_left (fun acc b => acc * 256 + Byte.to_N b) bs 0.

(** [data[a:b]] for non-negative [a], [b]. *)
Definition slice (data : list byte) (a b : N) : list byte :=
  take (N.to_nat (b - a)) (drop (N.to_nat a) data).

(** A yielded item: [(unit_type, full_unit_bytes)]. *)
Definition v3c_unit : Type := N * list byte.

(** [size_len = (header >> 5) + 1]. *)
Definition size_len_of (header : byte) : N :=
  N.shiftr (Byte.to_N header) 5 + 1.

(** [(payload[0] >> 3) & 0x1F]. *)
Definition unit_type_of (p0 : byte) : N :=
  N.land (N.shiftr (Byte.to_N p0) 3) 31.

(** The [while] loop.  A generator is lazy: the items yielded before an
    exception are delivered, so the result is the items in order together
    with how the iteration ended. *)
Fixpoint parse_loop (fuel : nat) (data : list byte) (size_len offset : N)
  : list v3c_unit * outcome unit :=
  match fuel with
  | O => ([], OutOfFuel)
  | S fuel' =>
    let data_len := N.of_nat (length data) in
    if offset + size_len <=? data_len then
      let size := from_bytes_big (slice data offset (offset + size_len)) in
      let start := offset in
      let offset := offset + size_len in
      let end_ := offset + size in
      if data_len <? end_ then ([], Raised (ValueError "Truncated unit"))
      else
        let payload := slice data offset end_ in
        match payload with
        | [] => ([], Raised IndexError)
        | p0 :: _ =>
          let unit_type := unit_type_of p0 in
          let '(units, e) := parse_loop fuel' data size_len end_ in
          ((unit_type, slice data start end_) :: units, e)
        end
    else ([], Returned tt)
  end.

Definition parse_v3c_units (data : list byte) : list v3c_unit * outcome unit :=
  match data with
  | [] => ([], Returned tt)
  | header :: _ => parse_loop (length data) data (size_len_of header) 1
  end.

(** The sample-stream format (spec section 6): after the header byte, a
    sequence of units, each an [L]-byte big-endian size followed by that many
    payload bytes, the first of which carries the unit type.  [frames L bs us]:
    the bytes [bs] are exactly the units [us], one after the other. *)
Inductive frames (L : N) : list byte -> list v3c_unit -> Prop :=
| frames_nil : frames L [] []
| frames_cons size_field p0 payload rest us :
    N.of_nat (length size_field) = L ->
    from_bytes_big size_field = N.of_nat (length (p0 :: payload)) ->
    frames L rest us ->
    frames L ((size_field ++ p0 :: payload) ++ rest)
      ((unit_type_of p0, size_field ++ p0 :: payload) :: us).

(** The value of [bs] read as a big-endian number, most significant byte
    first. *)
Fixpoint big_endian_value (bs : list byte) : N :=
  match bs with
  | [] => 0
  | b :: bs' => Byte.to_N b * 256 ^ N.of_nat (length bs') + big_endian_value bs'
  end.

(** The shape of a yielded item [(unit_type, full_unit_bytes)]: the bytes
    are an [L]-byte size field holding the payload length, then the payload;
    the type is bits 3..7 of the first payload byte. *)
Definition unit_shape (L : N) (u : v3c_unit) : Prop :=
  exists size_field p0 payload,
    u.2 = size_field ++ p0 :: payload /\
    N.of_nat (length size_field) = L /\
    big_endian_value size_field = N.of_nat (length (p0 :: payload)) /\
    (forall i, N.testbit u.1 i
               = (i <? 5) && N.testbit (Byte.to_N p0) (i + 3)).

(** A well-formed track: a header byte followed by complete units. *)
Definition well_formed_track (data : list byte) : Prop :=
  exists header rest us,
    data = header :: rest /\ frames (size_len_of header) rest us.

(** ** [combine_per_segment] (multiplexer.py, lines 28-77) *)

Inductive track : Type := Atlas | Occp | Geom | Attr.

(** The effects of a run on the file system, in program order ([print]s are
    left out).  A file opened with ["wb"] and written six times in a row is
    one [EvWrite] with the bytes in the order written. *)
Inductive event : Type :=
| EvMkdir
| EvRead (t : track) (i : nat)
| EvWrite (name : string) (content : list byte).

(** A computation: the effects so far and how it ended. *)
Definition M (A : Type) : Type := list event * outcome A.

Definition raise {A} (e : exn) : M A := ([], Raised e).
Definition emit (ev : event) : M unit := ([ev], Returned tt).

#[export] Instance M_ret : MRet M := fun A a => ([], Returned a).

#[export] Instance M_bind : MBind M := fun A B k m =>
  match m with
  | (tr, Returned a) => let '(tr', o) := k a in (tr ++ tr', o)
  | (tr, Raised e) => (tr, Raised e)
  | (tr, OutOfFuel) => (tr, OutOfFuel)
  end.

(** [list(gen)]: runs the generator to its end; an exception raised on the
    way propagates and the items yielded before it are lost. *)
Definition list_of_generator {A} (g : list A * outcome unit) : M (list A) :=
  match g with
  | (items, Returned _) => mret items
  | (_, Raised e) => raise e
  | (_, OutOfFuel) => ([], OutOfFuel)
  end.

(** [l[k]] for [k >= 0]. *)
Definition getitem {A} (l : list A) (k : nat) : M A :=
  match l !! k with
  | Some a => mret a
  | None => raise IndexError
  end.

(** [files[i].read_bytes()]. *)
Definition read_bytes (t : track) (files : list (list byte)) (i : nat)
  : M (list byte) :=
  data ← getitem files i;
  emit (EvRead t i);;
  mret data.

Fixpoint pad0 (n : nat) (s : string) : string :=
  match n with
  | O => s
  | S n' => String "0"%char (pad0 n' s)
  end.

(** [f"{n:04d}"] for [n >= 0]. *)
Definition format_04d (n : nat) : string :=
  let s := NilEmpty.string_of_uint (Nat.to_uint n) in
  pad0 (4 - String.length s) s.

(** [f"segment_{i+1:04d}.bin"]. *)
Definition seg_name (i : nat) : string :=
  ("segment_" +:+ format_04d (i + 1) +:+ ".bin")%string.

(** The four [sorted(... .glob("segment_*.bin"))] lists: per track, the
    contents of its segment files in sorted path order. *)
Record track_files : Type := {
  atlas : list (list byte);
  occp : list (list byte);
  geom : list (list byte);
  attr : list (list byte)
}.

(** The body of [for i in range(n)]. *)
Definition combine_segment (t : track_files) (i : nat) : M unit :=
  atlas_data ← read_bytes Atlas (atlas t) i;
  occp_data ← read_bytes Occp (occp t) i;
  geom_data ← read_bytes Geom (geom t) i;
  attr_data ← read_bytes Attr (attr t) i;
  atlas_units ← list_of_generator (parse_v3c_units atlas_data);
  occp_units ← list_of_generator (parse_v3c_units occp_data);
  geom_units ← list_of_generator (parse_v3c_units geom_data);
  attr_units ← list_of_generator (parse_v3c_units attr_data);
  vps ← getitem atlas_units 0;
  ad ← getitem atlas_units 1;
  ovd ← getitem occp_units 1;
  gvd ← getitem geom_units 1;
  avd ← getitem attr_units 1;
  header_byte ← getitem atlas_data 0;
  emit (EvWrite (seg_name i)
          ([header_byte] ++ vps.2 ++ ad.2 ++ ovd.2 ++ gvd.2 ++ avd.2)).

Fixpoint for_range (idxs : list nat) (body : nat -> M unit) : M unit :=
  match idxs with
  | [] => mret tt
  | i :: rest => body i;; for_range rest body
  end.

Definition same_counts (t : track_files) : bool :=
  (length (atlas t) =? length (occp t))%nat
  && (length (occp t) =? length (geom t))%nat
  && (length (geom t) =? length (attr t))%nat.

Definition combine_per_segment (t : track_files) : M unit :=
  if negb (same_counts t) then
    raise (RuntimeError "Segment count mismatch across tracks")
  else
    emit EvMkdir;;
    let n := length (atlas t) in
    for_range (seq 0 n) (combine_segment t).

(** [list(parse_v3c_units(data))] when it raises nothing: the full bytes
    of the units, by position. *)
Definition parsed_units (data : list byte) : option (list (list byte)) :=
  match parse_v3c_units data with
  | (units, Returned _) => Some (units.*2)
  | _ => None
  end.

(** The combined segment for index [i]: the atlas header byte, atlas units
    0 and 1, then unit 1 of the occupancy, geometry and attribute tracks. *)
Definition segment_bytes (t : track_files) (i : nat) (content : list byte)
  : Prop :=
  exists header atlas_rest occp_data geom_data attr_data
         atlas_units occp_units geom_units attr_units vps ad ovd gvd avd,
    atlas t !! i = Some (header :: atlas_rest) /\
    occp t !! i = Some occp_data /\
    geom t !! i = Some geom_data /\
    attr t !! i = Some attr_data /\
    parsed_units (header :: atlas_rest) = Some atlas_units /\
    parsed_units occp_data = Some occp_units /\
    parsed_units geom_data = Some geom_units /\
    parsed_units attr_data = Some attr_units /\
    atlas_units !! 0%nat = Some vps /\
    atlas_units !! 1%nat = Some ad /\
    occp_units !! 1%nat = Some ovd /\
    geom_units !! 1%nat = Some gvd /\
    attr_units !! 1%nat = Some avd /\
    content = header :: vps ++ ad ++ ovd ++ gvd ++ avd.

(** What the file written for index [i] is: its name and its bytes. *)
Definition written_for (t : track_files) (i : nat) (w : string * list byte)
  : Prop :=
  w.1 = seg_name i /\ segment_bytes t i w.2.

(** The files a run wrote, in the order written. *)
Definition writes (tr : list event) : list (string * list byte) :=
  omap (fun ev => match ev with
                  | EvWrite name content => Some (name, content)
                  | _ => None
                  end) tr.

(** ** Tiling: tile_generator.py and tile_io.py *)

Local Open Scope Z_scope.

(** float64 values and what the code does with them.  The operations are
    kept abstract: rounding, NaN, infinities and the text renderings are
    whatever an instance makes them. *)
Class FloatOps (F : Type) : Type := {
  fsub : F -> F -> F;                 (* a - b *)
  fdiv : F -> F -> F;                 (* a / b *)
  flt : F -> F -> bool;               (* a < b *)
  of_Z : Z -> F;                      (* an int as a float64 *)
  eps9 : F;                           (* the literal 1e-9 *)
  floor_int : F -> option Z;          (* np.floor(v).astype(int); pandas
                                         raises on NaN and infinities *)
  to_uint8 : F -> Z;                  (* astype(np.uint8) *)
  fmt_f : F -> string;                (* "%f" % v *)
  fmt_d : F -> string;                (* "%d" % v *)
  parse_float : string -> option F    (* float(s); None: ValueError *)
}.

(** A value of a DataFrame column: float64, or an integer dtype. *)
Inductive cell (F : Type) : Type :=
| CFloat (f : F)
| CInt (z : Z).
Arguments CFloat {F} f.
Arguments CInt {F} z.

(** A DataFrame, row by row; every row has one cell per column.  Column
    names are taken to be distinct, as in a PLY header. *)
Record DataFrame (F : Type) : Type := {
  columns : list string;
  rows : list (list (cell F))
}.
Arguments columns {F} d.
Arguments rows {F} d.
Arguments Build_DataFrame {F} columns rows.

(** [boundaries_meta], the dict built by [_compute_segment_boundaries]. *)
Record boundaries_meta (F : Type) : Type := {
  x_min : F; y_min : F; z_min : F;
  dx : F; dy : F; dz : F;
  nx : Z; ny : Z; nz : Z
}.
Arguments x_min {F} b.
Arguments y_min {F} b.
Arguments z_min {F} b.
Arguments dx {F} b.
Arguments dy {F} b.
Arguments dz {F} b.
Arguments nx {F} b.
Arguments ny {F} b.
Arguments nz {F} b.

(** [TileGenerator.__init__]: the fields the tiling uses. *)
Record TileGenerator : Type := {
  n_x : Z; n_y : Z; n_z : Z;
  segment_size : Z;
  threads : Z
}.

Definition TileGenerator_init (n_x n_y n_z segment_size threads : Z)
  : TileGenerator :=
  {| n_x := Z.max 1 n_x; n_y := Z.max 1 n_y; n_z := Z.max 1 n_z;
     segment_size := Z.max 1 segment_size; threads := Z.max 1 threads |}.

(** [np.clip(a, lo, hi)] is [np.minimum(hi, np.maximum(a, lo))]. *)
Definition np_clip (a lo hi : Z) : Z := Z.min (Z.max a lo) hi.

(** int64 arithmetic wraps around. *)
Definition wrap64 (z : Z) : Z := (z + 2 ^ 63) mod 2 ^ 64 - 2 ^ 63.

(** [c.lower()] on ASCII. *)
Definition lower_ascii (c : ascii) : ascii :=
  let n := nat_of_ascii c in
  if ((65 <=? n) && (n <=? 90))%nat then ascii_of_nat (n + 32) else c.

Fixpoint lower (s : string) : string :=
  match s with
  | EmptyString => EmptyString
  | String c s' => String (lower_ascii c) (lower s')
  end.

Definition is_rgb_name (c : string) : bool :=
  bool_decide (lower c ∈ ["r"; "g"; "b"; "red"; "green"; "blue"]%string).

(** [str(n)] for [n >= 0]. *)
Definition str_of_nat (n : nat) : string :=
  NilEmpty.string_of_uint (Nat.to_uint n).

(** [int(s)] on a string of decimal digits (signs, blanks and underscores,
    which Python also accepts, are left out: [None]). *)
Definition int_of_str (s : string) : option nat :=
  match s with
  | EmptyString => None
  | _ => Nat.of_uint <$> NilEmpty.uint_of_string s
  end.

(** A text file, as its lines, each one split at white space into tokens
    ([line.split()]; written with single blanks between tokens). *)
Definition text_file : Type := list (list string).

(** How [PlyIO.read] ends. *)
Inductive read_result (F : Type) : Type :=
| ReadOk (df : DataFrame F)
| ReadRaises
| ReadNotModelled.   (* binary formats; rows not as long as the header *)
Arguments ReadOk {F} df.
Arguments ReadRaises {F}.
Arguments ReadNotModelled {F}.

Definition ply_dtypes : list string :=
  ["int8"; "char"; "uint8"; "uchar"; "int16"; "short"; "uint16"; "ushort";
   "int32"; "int"; "uint32"; "uint"; "float32"; "float"; "float64";
   "double"]%string.

(** [b'ply' in line]. *)
Definition contains_ply (line : list string) : bool :=
  existsb (fun tok => match String.index 0 "ply" tok with
                      | Some _ => true
                      | None => false
                      end) line.

(** The header loop of [_parse_header]: [(names, vertex_count, rest)] where
    [rest] is what follows the header; [None] when an exception is raised. *)
Fixpoint parse_header_loop (lines : text_file) (vertex_count : option nat)
  (names : list string) : option (list string * option nat * text_file) :=
  match lines with
  | [] => Some (names, vertex_count, [])
  | tokens :: rest =>
    match tokens with
    | [] => parse_header_loop rest vertex_count names
    | t0 :: ts =>
      if String.eqb t0 "element" then
        match ts with
        | [] => None
        | t1 :: ts' =>
          if String.eqb t1 "vertex" then
            match ts' with
            | [] => None
            | t2 :: _ =>
              match int_of_str t2 with
              | None => None
              | Some n => parse_header_loop rest (Some n) names
              end
            end
          else parse_header_loop rest vertex_count names
        end
      else if String.eqb t0 "property" && bool_decide (is_Some vertex_count)
      then
        match ts with
        | dtype_name :: name :: _ =>
          if bool_decide (dtype_name ∈ ply_dtypes)
          then parse_header_loop rest vertex_count (names ++ [name])
          else None
        | _ => None
        end
      else if String.eqb t0 "end_header" then Some (names, vertex_count, rest)
      else parse_header_loop rest vertex_count names
    end
  end.

Section PlyIO.
Context {F : Type} `{!FloatOps F}.

(** [_parse_header]: [(fmt, names, vertex_count, rest)]. *)
Definition parse_header (file : text_file)
  : option (string * list string * nat * text_file) :=
  match file with
  | line1 :: line2 :: lines =>
    if contains_ply line1 then
      match line2 with
      | _ :: fmt :: _ =>
        if bool_decide (fmt ∈ ["ascii"; "binary_big_endian";
                               "binary_little_endian"]%string)
        then
          match parse_header_loop lines None [] with
          | Some (names, Some vertex_count, rest) =>
            Some (fmt, names, vertex_count, rest)
          | _ => None
          end
        else None
      | _ => None
      end
    else None
  | _ => None
  end.

(** The ASCII branch of [read]: [vertex_count] times, read a line; skip it
    when blank (or past the end), else turn its tokens into floats.  [None]
    when [float(v)] raises. *)
Fixpoint read_rows (count : nat) (lines : text_file)
  : option (list (list (cell F))) :=
  match count with
  | O => Some []
  | S count' =>
    match lines with
    | [] => Some []
    | [] :: rest => read_rows count' rest
    | tokens :: rest =>
      vals ← mapM parse_float tokens;
      arr ← read_rows count' rest;
      Some ((CFloat <$> vals) :: arr)
    end
  end.

(** [PlyIO.read], ASCII files. *)
Definition PlyIO_read (file : text_file) : read_result F :=
  match parse_header file with
  | None => ReadRaises
  | Some (fmt, names, vertex_count, rest) =>
    if String.eqb fmt "ascii" then
      match read_rows vertex_count rest with
      | None => ReadRaises
      | Some arr =>
        if forallb (fun r => (length r =? length names)%nat) arr
        then ReadOk (Build_DataFrame names arr)
        else ReadNotModelled
      end
    else ReadNotModelled
  end.

(** [df.empty]: some axis has length 0. *)
Definition df_empty (df : DataFrame F) : bool :=
  match columns df, rows df with
  | [], _ | _, [] => true
  | _, _ => false
  end.

(** A cell as the float64 that [df.values] holds. *)
Definition to_float (c : cell F) : F :=
  match c with
  | CFloat f => f
  | CInt z => of_Z z
  end.

(** [series.astype(np.uint8)]. *)
Definition astype_uint8 (c : cell F) : cell F :=
  match c with
  | CFloat f => CInt (to_uint8 f)
  | CInt z => CInt (z mod 256)
  end.

(** One line of [np.savetxt(f, df.values, fmt=fmt)]. *)
Definition savetxt_row (cols : list string) (row : list (cell F))
  : list string :=
  zip_with (fun col c =>
              if is_rgb_name col then fmt_d (to_float (astype_uint8 c))
              else fmt_f (to_float c)) cols row.

(** ["property uchar " + col], ["property float " + col]. *)
Definition property_line (col : string) : list string :=
  ["property"; if is_rgb_name col then "uchar" else "float"; col]%string.

(** [PlyIO.write]: the file written for [df]. *)
Definition PlyIO_write (df : DataFrame F) : text_file :=
  let df :=
    if df_empty df then
      Build_DataFrame ["x"; "y"; "z"; "r"; "g"; "b"]%string
        [[CInt (-1); CInt (-1); CInt (-1); CInt 0; CInt 0; CInt 0]]
    else df in
  let header :=
    [["ply"]; ["format"; "ascii"; "1.0"];
     ["element"; "vertex"; str_of_nat (length (rows df))]]%string
    ++ (property_line <$> columns df)
    ++ [["end_header"]%string] in
  header ++ (savetxt_row (columns df) <$> rows df).

(** ** [_process_frame] (tile_generator.py, lines 32-73) *)

(** [row[name]]: the cell of column [name]; [None] is a [KeyError]. *)
Fixpoint row_get (cols : list string) (row : list (cell F)) (name : string)
  : option (cell F) :=
  match cols, row with
  | c :: cols', v :: row' =>
    if String.eqb c name then Some v else row_get cols' row' name
  | _, _ => None
  end.

(** [np.clip(np.floor((v - v_min) / d).astype(int), 0, n - 1)]. *)
Definition cell_index (v v_min d : F) (n : Z) : option Z :=
  i ← floor_int (fdiv (fsub v v_min) d);
  Some (np_clip i 0 (n - 1)).

(** [ix * (ny * nz) + iy * nz + iz] on int64 arrays. *)
Definition tile_id_of (b : boundaries_meta F) (ix iy iz : Z) : Z :=
  wrap64 (wrap64 (wrap64 (ix * (ny b * nz b)) + wrap64 (iy * nz b)) + iz).

(** The tile id of one point. *)
Definition tile_id (b : boundaries_meta F) (x y z : F) : option Z :=
  ix ← cell_index x (x_min b) (dx b) (nx b);
  iy ← cell_index y (y_min b) (dy b) (ny b);
  iz ← cell_index z (z_min b) (dz b) (nz b);
  Some (tile_id_of b ix iy iz).

Definition row_tile_id (b : boundaries_meta F) (cols : list string)
  (row : list (cell F)) : option Z :=
  x ← row_get cols row "x";
  y ← row_get cols row "y";
  z ← row_get cols row "z";
  tile_id b (to_float x) (to_float y) (to_float z).

(** The one-row frame substituted for an empty tile. *)
Definition dummy_frame (cols : list string) (cx cy cz : F) : DataFrame F :=
  Build_DataFrame cols
    [(fun c => if String.eqb c "x" then CFloat cx
               else if String.eqb c "y" then CFloat cy
               else if String.eqb c "z" then CFloat cz
               else CInt 0) <$> cols].

(** The substituted frame as it is read back from its file: every value
    has gone through its text rendering, [rx], [ry], [rz] for the centroid
    and [zero_d], [zero_f] for the other columns. *)
Definition placeholder_read_back (cols : list string)
  (rx ry rz zero_f zero_d : F) : DataFrame F :=
  Build_DataFrame cols
    [(fun c => CFloat (if String.eqb c "x" then rx
                       else if String.eqb c "y" then ry
                       else if String.eqb c "z" then rz
                       else if is_rgb_name c then zero_d
                       else zero_f)) <$> cols].

(** [df[tile_ids == t]], with the substitution when it is empty. *)
Definition tile_frame (df : DataFrame F) (tile_ids : list Z)
  (cols : list string) (cx cy cz : F) (t : Z) : DataFrame F :=
  let tile_df :=
    Build_DataFrame (columns df)
      (fst <$> filter (fun p => p.2 = t) (zip (rows df) tile_ids)) in
  if df_empty tile_df then dummy_frame cols cx cy cz else tile_df.

(** [_process_frame] once the frame is read: for each tile [t] of
    [range(total_tiles)], the frame handed to [PlyIO().write] and the file it
    writes under [tile_{t}].  [None]: an exception leaves the worker (a
    missing coordinate column, a non-finite coordinate). *)
Definition process_frame (df : DataFrame F) (b : boundaries_meta F)
  (cols : list string) (cx cy cz : F) (total_tiles : Z)
  : option (list (Z * DataFrame F * text_file)) :=
  tile_ids ← mapM (row_tile_id b (columns df)) (rows df);
  Some ((fun t : nat =>
           let tile_df := tile_frame df tile_ids cols cx cy cz (Z.of_nat t) in
           (Z.of_nat t, tile_df, PlyIO_write tile_df))
          <$> seq 0 (Z.to_nat total_tiles)).

(** [max(a, b)] on floats: [b] when [a < b], else [a]. *)
Definition py_max (a b : F) : F := if flt a b then b else a.

(** The end of [_compute_segment_boundaries] (lines 128-138): cell sizes and
    [boundaries_meta] from the accumulated extent. *)
Definition make_boundaries_meta (tg : TileGenerator)
  (x_min y_min z_min x_max y_max z_max : F) : boundaries_meta F :=
  {| x_min := x_min; y_min := y_min; z_min := z_min;
     dx := py_max (fdiv (fsub x_max x_min) (of_Z (n_x tg))) eps9;
     dy := py_max (fdiv (fsub y_max y_min) (of_Z (n_y tg))) eps9;
     dz := py_max (fdiv (fsub z_max z_min) (of_Z (n_z tg))) eps9;
     nx := n_x tg; ny := n_y tg; nz := n_z tg |}.

Definition total_tiles_of (tg : TileGenerator) : Z :=
  n_x tg * n_y tg * n_z tg.

End PlyIO.

(** ** The job list: encoder/tmc2_encoder.py *)

Definition newline : ascii := ascii_of_nat 10.

Definition is_digit (c : ascii) : bool :=
  let n := nat_of_ascii c in ((48 <=? n) && (n <=? 57))%nat.

Fixpoint take_while {A} (p : A -> bool) (l : list A) : list A :=
  match l with
  | x :: l' => if p x then x :: take_while p l' else []
  | [] => []
  end.

Fixpoint drop_while {A} (p : A -> bool) (l : list A) : list A :=
  match l with
  | x :: l' => if p x then drop_while p l' else l
  | [] => []
  end.

(** [Path(name).stem]: the name up to its last dot, when that dot is neither
    the first nor the last character. *)
Definition stem (name : string) : string :=
  let cs := list_ascii_of_string name in
  match list_find (fun c => c = "."%char) (reverse cs) with
  | Some (j, _) =>
    let i := (length cs - 1 - j)%nat in
    if ((0 <? i) && (0 <? j))%nat
    then string_of_list_ascii (take i cs)
    else name
  | None => name
  end.

(** [re.search(r"(.*?)(\d+)$", s)]: [(group(1), group(2))].  The digits are
    the longest run of decimal digits at the end of [s] ([$] also matches
    just before a final newline); the lazy prefix starts at the leftmost
    position from which [.], which matches no newline, reaches them.
    Strings are 8-bit: [\d] is ['0'..'9']. *)
Definition search_trailing_digits (s : string) : option (string * string) :=
  let cs := reverse (list_ascii_of_string s) in
  let body := match cs with
              | c :: cs' => if bool_decide (c = newline) then cs' else cs
              | [] => cs
              end in
  let digits := take_while is_digit body in
  let before := drop_while is_digit body in
  match digits with
  | [] => None
  | _ =>
    let prefix :=
      take_while (fun c => negb (bool_decide (c = newline))) before in
    Some (string_of_list_ascii (reverse prefix),
          string_of_list_ascii (reverse digits))
  end.

(** [int(digits)]. *)
Definition int_of_digits (digits : string) : N :=
  fold_left (fun acc c => (acc * 10 + (N.of_nat (nat_of_ascii c) - 48))%N)
    (list_ascii_of_string digits) 0%N.

(** The loop over [frame_files] of [_derive_frame_sequence]. *)
Definition scan_frames (frame_files : list string) (width : nat)
  : nat * list N :=
  fold_left (fun '(width, frame_indices) fp =>
               match search_trailing_digits (stem fp) with
               | Some (_, digits) =>
                 (Nat.max width (String.length digits),
                  frame_indices ++ [int_of_digits digits])
               | None => (width, frame_indices)
               end) frame_files (width, []).

(** [_derive_frame_sequence]; [frame_files] are the names of
    [sorted(tile_dir.glob("*.ply"))]. *)
Definition derive_frame_sequence (tile_dir : string)
  (frame_files : list string) : outcome (string * N * nat) :=
  match frame_files with
  | [] => Raised (ValueError (tile_dir +:+ ": no .ply frames found"))
  | first :: _ =>
    match search_trailing_digits (stem first) with
    | None =>
      Raised (ValueError (tile_dir +:+ ": unable to infer numbering pattern from "
                          +:+ stem first))
    | Some (prefix, digits) =>
      let '(width, frame_indices) :=
        scan_frames frame_files (String.length digits) in
      match frame_indices with
      | [] =>
        Raised (ValueError
                  (tile_dir +:+ ": no numbered frames found in tile directory"))
      | i0 :: is_ =>
        let pattern := prefix +:+ "%0" +:+ str_of_nat width +:+ "d.ply" in
        let start_frame := fold_left N.min is_ i0 in
        let frame_count := length frame_indices in
        Returned (pattern, start_frame, frame_count)
      end
    end
  end.

(** An element of [qp_pairs]: a dict, a list or tuple, or something else (of
    the named type).  The entries are ints. *)
Inductive qp_pair : Type :=
| QpDict (d : gmap string Z)
| QpSeq (l : list Z)
| QpOther (type_name : string).

Definition QPConfig : Type := Z * Z * Z.

Definition normalize_pair (idx : nat) (entry : qp_pair) : outcome QPConfig :=
  match entry with
  | QpDict d =>
    match d !! "occupancyMapQP"%string, d !! "geometryQP"%string,
          d !! "attributeQP"%string with
    | Some occ, Some geo, Some attr => Returned (occ, geo, attr)
    | _, _, _ =>
      Raised (ValueError
                ("qp_pairs[" +:+ str_of_nat idx
                 +:+ "] missing occupancyMapQP and/or geometryQP and/or attributeQP"))
    end
  | QpSeq l =>
    match l with
    | [occ; geo; attr] => Returned (occ, geo, attr)
    | _ =>
      Raised (ValueError
                ("qp_pairs[" +:+ str_of_nat idx
                 +:+ "] must have exactly three entries (occ, geo, attr)"))
    end
  | QpOther type_name =>
    Raised (ValueError
              ("qp_pairs[" +:+ str_of_nat idx
               +:+ "] must be dict or (occ, geo, attr) tuple/list, got "
               +:+ type_name))
  end.

Fixpoint normalize_from (idx : nat) (qp_pairs : list qp_pair)
  : outcome (list QPConfig) :=
  match qp_pairs with
  | [] => Returned []
  | entry :: rest =>
    match normalize_pair idx entry with
    | Returned qp =>
      match normalize_from (S idx) rest with
      | Returned normalized => Returned (qp :: normalized)
      | o => o
      end
    | Raised e => Raised e
    | OutOfFuel => OutOfFuel
    end
  end.

(** [_normalize_qp_pairs]. *)
Definition normalize_qp_pairs (qp_pairs : list qp_pair)
  : outcome (list QPConfig) :=
  match qp_pairs with
  | [] => Raised (ValueError "qp_pairs cannot be empty")
  | _ => normalize_from 0 qp_pairs
  end.

(** Parameter values. *)
Inductive pyval : Type :=
| VInt (z : Z)
| VStr (s : string)
| VList (items : list string).

(** [d.setdefault(k, v)]. *)
Definition setdefault (k : string) (v : pyval) (d : gmap string pyval)
  : gmap string pyval :=
  match d !! k with
  | Some _ => d
  | None => <[k := v]> d
  end.

(** Lines 614-619: the parameters of one tile. *)
Definition tile_params_of (base_params : gmap string pyval)
  (threads_per_instance : option Z) (pattern : string) (start_frame : N)
  (frame_count : nat) : gmap string pyval :=
  let tile_params := base_params in
  let tile_params :=
    match threads_per_instance with
    | Some n => if n =? 0 then tile_params
                else <["nbThread"%string := VInt n]> tile_params
    | None => tile_params
    end in
  let tile_params :=
    setdefault "uncompressedDataPath" (VStr pattern) tile_params in
  let tile_params :=
    setdefault "startFrameNumber" (VInt (Z.of_N start_frame)) tile_params in
  setdefault "frameCount" (VInt (Z.of_nat frame_count)) tile_params.

Record tile_info : Type := {
  dir : string;
  params : gmap string pyval
}.

(** A tile directory: its path and the sorted names of its [*.ply] files. *)
Definition tile_dir : Type := string * list string.

Fixpoint build_tile_infos (base_params : gmap string pyval)
  (threads_per_instance : option Z) (tile_dirs : list tile_dir)
  : outcome (list tile_info) :=
  match tile_dirs with
  | [] => Returned []
  | (d, frame_files) :: rest =>
    match derive_frame_sequence d frame_files with
    | Returned (pattern, start_frame, frame_count) =>
      let tile_params :=
        tile_params_of base_params threads_per_instance pattern start_frame
          frame_count in
      match build_tile_infos base_params threads_per_instance rest with
      | Returned infos => Returned ({| dir := d; params := tile_params |} :: infos)
      | o => o
      end
    | Raised (ValueError msg) =>
      Raised (ValueError ("Tile " +:+ d +:+ " is invalid: " +:+ msg))
    | Raised e => Raised e
    | OutOfFuel => OutOfFuel
    end
  end.

(** [(qp_idx, tile_dir, tile_params, (occ_qp, geo_qp, attr_qp))]. *)
Definition task : Type := nat * string * gmap string pyval * QPConfig.

(** Lines 622-625. *)
Definition build_tasks (normalized_pairs : list QPConfig)
  (tile_infos : list tile_info) : list task :=
  mjoin (imap (fun qp_idx qp =>
                 (fun info => (qp_idx, dir info, params info, qp))
                   <$> tile_infos) normalized_pairs).

Inductive build_result : Type :=
| CancelledBeforeStart
| Tasks (tasks : list task).

(** [encode_tiles_with_qp_pairs] up to the task list (lines 586-625).
    [tiles_root_exists] and [cancel_requested] are the answers of
    [tiles_dir.exists()] and [self._cancel_requested(stop_event)];
    [tile_dirs] is the sorted list of the sub-directories. *)
Definition encode_tiles_tasks (tiles_root : string) (tiles_root_exists : bool)
  (cancel_requested : bool) (tile_dirs : list tile_dir)
  (qp_pairs : list qp_pair) (base_params : gmap string pyval)
  (threads_per_instance : option Z) : outcome build_result :=
  match normalize_qp_pairs qp_pairs with
  | Returned normalized_pairs =>
    if negb tiles_root_exists then
      Raised (FileNotFoundError ("tiles_root does not exist: " +:+ tiles_root))
    else if cancel_requested then Returned CancelledBeforeStart
    else
      match tile_dirs with
      | [] => Raised (ValueError ("No tile directories found in " +:+ tiles_root))
      | _ =>
        match build_tile_infos base_params threads_per_instance tile_dirs with
        | Returned tile_infos =>
          Returned (Tasks (build_tasks normalized_pairs tile_infos))
        | Raised e => Raised e
        | OutOfFuel => OutOfFuel
        end
      end
  | Raised e => Raised e
  | OutOfFuel => OutOfFuel
  end.

(** [params_with_qp] of [encode_task] (lines 638-642): what is handed to
    [self.run]. *)
Definition params_with_qp (t : task) : gmap string pyval :=
  let '(_, _, tile_params, (occ_qp, geo_qp, attr_qp)) := t in
  <["attributeQP"%string := VInt attr_qp]>
    (<["geometryQP"%string := VInt geo_qp]>
       (<["occupancyMapQP"%string := VInt occ_qp]> tile_params)).

(** ** Vocabulary for statements about the job list *)

(** A [qp_pairs] entry given as an [(occ, geo, attr)] tuple. *)
Definition triple_entry (qp : QPConfig) : qp_pair :=
  let '(occ, geo, attr) := qp in QpSeq [occ; geo; attr].

(** A tile directory whose first file (in sorted order) ends in digits. *)
Definition first_frame_numbered (td : tile_dir) : Prop :=
  exists first rest prefix digits,
    td.2 = first :: rest /\
    search_trailing_digits (stem first) = Some (prefix, digits).

(** How a tile's parameters come from its directory. *)
Definition info_of (base_params : gmap string pyval)
  (threads_per_instance : option Z) (td : tile_dir) (info : tile_info)
  : Prop :=
  dir info = td.1 /\
  exists pattern start_frame frame_count,
    derive_frame_sequence td.1 td.2
    = Returned (pattern, start_frame, frame_count) /\
    params info
    = tile_params_of base_params threads_per_instance pattern start_frame
        frame_count.

(** [if threads_per_instance:]. *)
Definition truthy (threads_per_instance : option Z) : bool :=
  match threads_per_instance with
  | Some n => negb (n =? 0)%Z
  | None => false
  end.

Definition qp_keys : list string :=
  ["occupancyMapQP"; "geometryQP"; "attributeQP"]%string.

Definition inferred_keys : list string :=
  ["uncompressedDataPath"; "startFrameNumber"; "frameCount"]%string.

(** The parameters handed to [self.run] for one job, key by key: the
    QPConfig, then the base parameters (and [nbThread] from
    [threads_per_instance] when it is set), then the values inferred from the
    tile directory for the keys the base parameters leave out. *)
Definition job_parameters (base_params : gmap string pyval)
  (threads_per_instance : option Z) (pattern : string) (start_frame : N)
  (frame_count : nat) (qp : QPConfig) (p : gmap string pyval) : Prop :=
  let '(occ, geo, attr) := qp in
  p !! "occupancyMapQP"%string = Some (VInt occ) /\
  p !! "geometryQP"%string = Some (VInt geo) /\
  p !! "attributeQP"%string = Some (VInt attr) /\
  (forall k v,
     k ∉ qp_keys ->
     k <> "nbThread"%string \/ truthy threads_per_instance = false ->
     base_params !! k = Some v -> p !! k = Some v) /\
  (forall n,
     threads_per_instance = Some n -> n <> 0%Z ->
     p !! "nbThread"%string = Some (VInt n)) /\
  (base_params !! "uncompressedDataPath"%string = None ->
   p !! "uncompressedDataPath"%string = Some (VStr pattern)) /\
  (base_params !! "startFrameNumber"%string = None ->
   p !! "startFrameNumber"%string = Some (VInt (Z.of_N start_frame))) /\
  (base_params !! "frameCount"%string = None ->
   p !! "frameCount"%string = Some (VInt (Z.of_nat frame_count))) /\
  (forall k,
     k ∉ qp_keys -> k ∉ inferred_keys -> k <> "nbThread"%string ->
     p !! k = base_params !! k).

(** The frames [f0000.ply] .. [f0009.ply] of the spec's scenario. *)
Definition frames10 : list string :=
  ["f0000.ply"; "f0001.ply"; "f0002.ply"; "f0003.ply"; "f0004.ply";
   "f0005.ply"; "f0006.ply"; "f0007.ply"; "f0008.ply"; "f0009.ply"]%string.

(** ** Exact arithmetic as an instance of [FloatOps]

    Rationals, with the text renderings of C's [printf]: ["%f"] rounds to six
    decimals (ties to even), ["%d"] truncates toward zero.  On values that
    binary64 holds exactly and whose results it holds exactly, the operations
    agree with the float64 ones. *)

Definition Q_round_half_even (q : Q) : Z :=
  let f := Qfloor q in
  match Qcompare (q - inject_Z f) (1 # 2) with
  | Lt => f
  | Gt => f + 1
  | Eq => if Z.even f then f else f + 1
  end.

Definition Q_trunc (q : Q) : Z :=
  if Qle_bool 0 q then Qfloor q else Qceiling q.

Definition str_of_Z_abs (z : Z) : string := str_of_nat (Z.abs_nat z).

Definition Q_fmt_f (q : Q) : string :=
  let m := Q_round_half_even (Qabs q * inject_Z 1000000) in
  let frac := str_of_Z_abs (m mod 1000000) in
  ((if Qle_bool 0 q then "" else "-")
   +:+ str_of_Z_abs (m / 1000000) +:+ "."
   +:+ pad0 (6 - String.length frac) frac)%string.

Definition Q_fmt_d (q : Q) : string :=
  let z := Q_trunc q in
  ((if (z <? 0)%Z then "-" else "") +:+ str_of_Z_abs z)%string.

(** [float(s)] on [-]digits[.digits]; the other spellings that Python
    accepts (exponents, [inf], [nan], blanks) are left out: [None]. *)
Definition Q_parse_float (s : string) : option Q :=
  let '(neg, body) :=
    match s with
    | String "-"%char s' => (true, s')
    | _ => (false, s)
    end in
  let cs := list_ascii_of_string body in
  let ip := take_while (fun c => negb (bool_decide (c = "."%char))) cs in
  let fp := match drop_while (fun c => negb (bool_decide (c = "."%char))) cs with
            | [] => []
            | _ :: fp => fp
            end in
  if forallb is_digit ip && forallb is_digit fp
     && negb (bool_decide (ip = []))
  then
    let digits := string_of_list_ascii (ip ++ fp) in
    let num := Z.of_N (int_of_digits digits) in
    let den := Z.to_pos (10 ^ Z.of_nat (length fp)) in
    let q := Qred (Qmake num den) in
    Some (if neg then Qred (Qopp q) else q)
  else None.

#[export] Instance Q_ops : FloatOps Q := {|
  fsub := Qminus;
  fdiv := Qdiv;
  flt := fun a b => negb (Qle_bool b a);
  of_Z := inject_Z;
  eps9 := 1 # 1000000000;
  floor_int := fun q => Some (Qfloor q);
  to_uint8 := fun q => Q_trunc q mod 256;
  fmt_f := Q_fmt_f;
  fmt_d := Q_fmt_d;
  parse_float := Q_parse_float
|}.

(** ** Example inputs *)

(** A track file of two units, of types 1 and 1. *)
Definition example_track (last : byte) : list byte :=
  [x00; x02; x08; xff; x01; last]%byte.

(** One segment per track; the unit types are not VPS/AD/OVD/GVD/AVD. *)
Definition example_tracks : track_files :=
  {| atlas := [example_track x0a]; occp := [example_track x0b];
     geom := [example_track x0c]; attr := [example_track x0d] |}.

(** Track lists of lengths (3, 3, 3, 2). *)
Definition mismatched_tracks : track_files :=
  {| atlas := [[]; []; []]; occp := [[]; []; []];
     geom := [[]; []; []]; attr := [[]; []] |}.

(** A frame of one point, and the boundaries of a 2x1x1 grid around it. *)
Definition one_point_frame : DataFrame Q :=
  Build_DataFrame ["x"; "y"; "z"]%string
    [[CFloat (1 # 1024)%Q; CFloat 0%Q; CFloat 0%Q]].

Definition one_point_boundaries : boundaries_meta Q :=
  make_boundaries_meta (TileGenerator_init 2 1 1 1 1)
    (1 # 1024)%Q 0%Q 0%Q (1 # 1024)%Q 0%Q 0%Q.

Definition example_tile_dirs : list tile_dir :=
  [("tiles/tile_0"%string, frames10); ("tiles/tile_1"%string, frames10)].

Definition example_base_params : gmap string pyval :=
  {["frameCount"%string := VInt 250]}.

Definition example_tasks : list task :=
  match encode_tiles_tasks "tiles" true false example_tile_dirs
          [QpSeq [24; 32; 43]%Z] example_base_params None with
  | Returned (Tasks tasks) => tasks
  | _ => []
  end.

(** The size-field width the header byte of file [i] of a track declares. *)
Definition size_len_at (files : list (list byte)) (i : nat) : option N :=
  data ← files !! i; header ← head data; Some (size_len_of header).

(** The events of one complete pass of the loop body for index [i]. *)
Definition segment_events (i : nat) (content : list byte) : list event :=
  [EvRead Atlas i; EvRead Occp i; EvRead Geom i; EvRead Attr i;
   EvWrite (seg_name i) content].

(** The four reads of index [i], without the write. *)
Definition segment_reads (i : nat) : list event :=
  [EvRead Atlas i; EvRead Occp i; EvRead Geom i; EvRead Attr i].

(** ** [generate_tiles_from_frames] (tile_generator.py, lines 141-259) *)

(** The segment loop (lines 174-181): for [i] in
    [range(0, len(frame_paths), segment_size)], the segment number
    [i // segment_size + 1] and the frames [frame_paths[i:i + segment_size]].
    The fuel bounds the number of iterations. *)
Fixpoint segments_from {A} (fuel : nat) (frame_paths : list A)
  (segment_size i : nat) : list (nat * list A) :=
  match fuel with
  | O => []
  | S fuel' =>
    if (i <? length frame_paths)%nat then
      ((i / segment_size + 1)%nat, take segment_size (drop i frame_paths))
      :: segments_from fuel' frame_paths segment_size (i + segment_size)
    else []
  end.

Definition segments_of {A} (tg : TileGenerator) (frame_paths : list A)
  : list (nat * list A) :=
  segments_from (length frame_paths) frame_paths
    (Z.to_nat (segment_size tg)) 0.

(** [total_segments = (total_frames + segment_size - 1) // segment_size]
    (line 170). *)
Definition total_segments {A} (tg : TileGenerator) (frame_paths : list A)
  : Z :=
  (Z.of_nat (length frame_paths) + segment_size tg - 1) / segment_size tg.

(** Float operations the tile bounds need beyond [FloatOps]. *)
Class FloatArith (F : Type) : Type := {
  fadd : F -> F -> F;                 (* a + b *)
  fmul : F -> F -> F                  (* a * b *)
}.

(** One entry of [tile_bounds] (lines 206-214). *)
Record tile_bound (F : Type) : Type := {
  tb_id : Z;
  xmin : F; xmax : F;
  ymin : F; ymax : F;
  zmin : F; zmax : F
}.
Arguments tb_id {F} t.
Arguments xmin {F} t.
Arguments xmax {F} t.
Arguments ymin {F} t.
Arguments ymax {F} t.
Arguments zmin {F} t.
Arguments zmax {F} t.

Section TileBounds.
Context {F : Type} `{!FloatOps F} `{!FloatArith F}.

(** The body of the triple loop for one cell [(xi, yi, zi)]. *)
Definition tile_bound_of (tg : TileGenerator) (b : boundaries_meta F)
  (xi yi zi : Z) : tile_bound F :=
  let tid := xi * (n_y tg * n_z tg) + yi * n_z tg + zi in
  let xmin := fadd (x_min b) (fmul (of_Z xi) (dx b)) in
  let xmax := fadd xmin (dx b) in
  let ymin := fadd (y_min b) (fmul (of_Z yi) (dy b)) in
  let ymax := fadd ymin (dy b) in
  let zmin := fadd (z_min b) (fmul (of_Z zi) (dz b)) in
  let zmax := fadd zmin (dz b) in
  {| tb_id := tid; xmin := xmin; xmax := xmax; ymin := ymin; ymax := ymax;
     zmin := zmin; zmax := zmax |}.

(** [tile_bounds] (lines 195-214): the three nested [for ... in range(n)]
    loops, appending in loop order. *)
Definition tile_bounds (tg : TileGenerator) (b : boundaries_meta F)
  : list (tile_bound F) :=
  xi ← seqZ 0 (n_x tg);
  yi ← seqZ 0 (n_y tg);
  zi ← seqZ 0 (n_z tg);
  [tile_bound_of tg b xi yi zi].

(** [df[tile_ids == t]]: the rows whose tile id is [t], in frame order. *)
Definition rows_of_tile (df : DataFrame F) (tile_ids : list Z) (t : Z)
  : list (list (cell F)) :=
  fst <$> filter (fun p => p.2 = t) (zip (rows df) tile_ids).

End TileBounds.

#[export] Instance Q_arith : FloatArith Q := {|
  fadd := Qplus;
  fmul := Qmult
|}.

Section PlyText.
Context {F : Type} `{!FloatOps F}.

(** The values of one row as [read] gets them back from the line [write]
    made of it: each cell rendered, then parsed by [float].  [None]: some
    rendering does not parse. *)
Definition reread_row (cols : list string) (row : list (cell F))
  : option (list (cell F)) :=
  fmap CFloat <$> mapM parse_float (savetxt_row cols row).

End PlyText.

(** ** Vocabulary for statements about [_normalize_qp_pairs] and
    [_derive_frame_sequence] *)

(** The QPConfig a well-formed [qp_pairs] entry stands for: a dict with the
    three keys, or a sequence of exactly three values. *)
Definition entry_triple (entry : qp_pair) : option QPConfig :=
  match entry with
  | QpDict d =>
    occ ← d !! "occupancyMapQP"%string;
    geo ← d !! "geometryQP"%string;
    attr ← d !! "attributeQP"%string;
    Some (occ, geo, attr)
  | QpSeq [occ; geo; attr] => Some (occ, geo, attr)
  | _ => None
  end.

(** The digits a frame file name ends in (before its suffix), if any. *)
Definition frame_digits (fp : string) : option string :=
  snd <$> search_trailing_digits (stem fp).

(** The frame numbers of the numbered files, in file order. *)
Definition numbered_indices (frame_files : list string) : list N :=
  omap (fun fp => int_of_digits <$> frame_digits fp) frame_files.

(** The number of digits of each numbered file, in file order. *)
Definition digit_widths (frame_files : list string) : list nat :=
  omap (fun fp => String.length <$> frame_digits fp) frame_files.

(** ** [TMC2EncoderRunner.run]: the encoder command (tmc2_encoder.py,
    lines 341-378) *)

(** A [dict] with its insertion order, which [items()] follows: the keys
    are distinct. *)
Definition odict : Type := list (string * pyval).

(** [d[k] = v]: the value is replaced in place when the key is there, else
    the pair is added at the end. *)
Fixpoint odict_set (k : string) (v : pyval) (d : odict) : odict :=
  match d with
  | [] => [(k, v)]
  | (k', v') :: d' =>
    if String.eqb k' k then (k, v) :: d' else (k', v') :: odict_set k v d'
  end.

(** The two-character string of two double quotes. *)
Definition two_quotes : string :=
  String (ascii_of_nat 34) (String (ascii_of_nat 34) EmptyString).

(** [DEFAULT_PARAMS] (lines 16-51).  The three float values are given by
    their [str()] text, which is all that [run] does with a value. *)
Definition DEFAULT_PARAMS : odict :=
  [("configurationFolder", VStr "/workspace/TMC2/cfg/");
   ("config", VList ["/workspace/TMC2/cfg/common/ctc-common.cfg";
                     "/workspace/TMC2/cfg/condition/ctc-all-intra.cfg";
                     "/workspace/TMC2/cfg/rate/ctc-r1.cfg"]);
   ("uncompressedDataFolder", VStr "/data/input/");
   ("uncompressedDataPath", VStr "BlueBackpack_UVG_vox9_25_0_250_%04d.ply");
   ("frameCount", VInt 250);
   ("resolution", VInt 2047);
   ("keepIntermediateFiles", VInt 0);
   ("mapCountMinus1", VInt 0);
   ("videoEncoderInternalBitdepth", VInt 8);
   ("compressedStreamPath", VStr "/data/output/bluebackpack.bin");
   ("nbThread", VInt 8);
   ("computeMetrics", VInt 0);
   ("computeChecksum", VInt 0);
   ("reconstructedDataPath", VStr two_quotes);
   ("geometry3dCoordinatesBitdepth", VInt 9);
   ("geometryNominal2dBitdepth", VInt 8);
   ("occupancyMapQP", VInt 24);
   ("geometryQP", VInt 32);
   ("attributeQP", VInt 43);
   ("startFrameNumber", VInt 0);
   ("groupOfFramesSize", VInt 16);
   ("voxelDimensionRefineSegmentation", VInt 2);
   ("minNormSumOfInvDist4MPSelection", VStr "0.36");
   ("partialAdditionalProjectionPlane", VStr "0.15");
   ("minPointCountPerCCPatchSegmentation", VInt 16);
   ("maxNNCountRefineSegmentation", VInt 32);
   ("nnNormalEstimation", VInt 6);
   ("iterationCountRefineSegmentation", VInt 3);
   ("lambdaRefineSegmentation", VStr "3.5");
   ("minimumImageWidth", VInt 1024);
   ("minimumImageHeight", VInt 1024)]%string.

(** The keys [run] does not let [params] overwrite. *)
Definition protected_keys : list string :=
  ["uncompressedDataFolder"; "compressedStreamPath"]%string.

(** The loop over [params.items()] (lines 364-366). *)
Definition apply_params (params encoder_params : odict) : odict :=
  fold_left (fun ep '(k, v) =>
               if bool_decide (k ∈ protected_keys) then ep
               else odict_set k v ep) params encoder_params.

(** [encoder_params] (lines 360-368).  [compressed_stream_filename] is
    [None] for [None] and for the empty string, both falsy. *)
Definition run_encoder_params (params : odict)
  (compressed_stream_filename : option string) : odict :=
  let encoder_params := apply_params params DEFAULT_PARAMS in
  match compressed_stream_filename with
  | Some name =>
    odict_set "compressedStreamPath" (VStr ("/data/output/" +:+ name))
      encoder_params
  | None => encoder_params
  end.

(** [str(z)] for an int. *)
Definition py_str_int (z : Z) : string :=
  ((if (z <? 0)%Z then "-" else "") +:+ str_of_Z_abs z)%string.

(** The flags one entry of [encoder_params] adds to the command
    (lines 373-378). *)
Definition flags_of (entry : string * pyval) : list string :=
  let '(k, v) := entry in
  match v with
  | VList items => (fun item => "--" +:+ k +:+ "=" +:+ item)%string <$> items
  | VInt z => ["--" +:+ k +:+ "=" +:+ py_str_int z]%string
  | VStr s => ["--" +:+ k +:+ "=" +:+ s]%string
  end.

(** [cmd] (lines 370-378): [None] when cancellation is seen on entry and
    nothing is run. *)
Definition run_cmd (cancel_requested : bool) (params : odict)
  (compressed_stream_filename : option string) : option (list string) :=
  if cancel_requested then None
  else
    Some ("/workspace/TMC2/bin/PccAppEncoder"%string
          :: mjoin (flags_of
                      <$> run_encoder_params params
                            compressed_stream_filename)).

(** [bitstream_name] of [encode_task] (line 644), from the names of the
    tiles root and of the tile directory. *)
Definition bitstream_name (tiles_name tile_name : string) (qp : QPConfig)
  : string :=
  let '(occ_qp, geo_qp, attr_qp) := qp in
  (tiles_name +:+ "_" +:+ tile_name +:+ "_occ" +:+ py_str_int occ_qp
   +:+ "_geo" +:+ py_str_int geo_qp +:+ "_attr" +:+ py_str_int attr_qp
   +:+ ".bin")%string.

(** The filename as [run] sees it: falsy when empty. *)
Definition truthy_name (name : string) : option string :=
  match name with
  | EmptyString => None
  | _ => Some name
  end.

(** ** The dispatch loop of [encode_tiles_with_qp_pairs] (tmc2_encoder.py,
    lines 679-712), taken when [max_parallel_encodes > 1]

    The dispatcher runs in one thread; what it sees of the rest of the
    world is the answer of each of its calls of [_cancel_requested] and of
    [concurrent.futures.wait].  [cancel c] is the answer of its call number
    [c] (from 0) of [_cancel_requested]; [waits] are the answers of its
    successive calls of [wait]: the futures reported done, named by the
    index of their task.  A run is followed for as many calls of [wait] as
    [waits] has answers. *)

(** What the dispatcher does, in order: it submits task [i], allowed by its
    check number [c]; it takes future [i] out of [in_flight]. *)
Inductive dispatch_event : Type :=
| EvSubmit (i : nat) (c : nat)
| EvDone (i : nat).

Record dispatcher : Type := {
  next_task_idx : nat;
  in_flight : list nat;
  checks : nat;                       (* calls of _cancel_requested so far *)
  dispatch_log : list dispatch_event
}.

Definition dispatcher_init : dispatcher :=
  {| next_task_idx := 0; in_flight := []; checks := 0; dispatch_log := [] |}.

(** One more call of [_cancel_requested] has been made. *)
Definition tick (s : dispatcher) : dispatcher :=
  {| next_task_idx := next_task_idx s; in_flight := in_flight s;
     checks := S (checks s); dispatch_log := dispatch_log s |}.

(** The body of the loop of [launch_available], after the test made by
    check number [c]. *)
Definition submit_next (c : nat) (s : dispatcher) : dispatcher :=
  {| next_task_idx := S (next_task_idx s);
     in_flight := in_flight s ++ [next_task_idx s];
     checks := checks s;
     dispatch_log := dispatch_log s ++ [EvSubmit (next_task_idx s) c] |}.

(** [launch_available], for [remaining = len(tasks) - next_task_idx]: the
    test reads cancellation first, then the room left, then whether a task
    is left. *)
Fixpoint launch_available (cancel : nat -> bool) (max_parallel_encodes : nat)
  (remaining : nat) (s : dispatcher) : dispatcher :=
  if cancel (checks s) then tick s
  else if (length (in_flight s) <? max_parallel_encodes)%nat then
    match remaining with
    | O => tick s
    | S remaining' =>
      launch_available cancel max_parallel_encodes remaining'
        (submit_next (checks s) (tick s))
    end
  else tick s.

(** [in_flight.difference_update(done)]. *)
Definition difference_update (done : list nat) (s : dispatcher)
  : dispatcher :=
  {| next_task_idx := next_task_idx s;
     in_flight := filter (fun i => i ∉ done) (in_flight s);
     checks := checks s;
     dispatch_log :=
       dispatch_log s ++ (EvDone <$> filter (fun i => i ∈ done) (in_flight s)) |}.

(** How the followed part of a run ends: [in_flight] became empty; the
    dispatcher saw cancellation and left the loop; or the answers of [wait]
    ran out with futures still in flight. *)
Inductive dispatch_end : Type :=
| AllDone
| CancelSeen
| StillWaiting.

(** The [while in_flight:] loop. *)
Fixpoint dispatch_loop (cancel : nat -> bool) (max_parallel_encodes : nat)
  (n_tasks : nat) (waits : list (list nat)) (s : dispatcher)
  : dispatcher * dispatch_end :=
  match in_flight s with
  | [] => (s, AllDone)
  | _ :: _ =>
    if cancel (checks s) then (tick s, CancelSeen)
    else
      match waits with
      | [] => (tick s, StillWaiting)
      | done :: waits' =>
        let s := difference_update done (tick s) in
        let s := launch_available cancel max_parallel_encodes
                   (n_tasks - next_task_idx s) s in
        dispatch_loop cancel max_parallel_encodes n_tasks waits' s
      end
  end.

(** Lines 701-712: [launch_available()], then the loop. *)
Definition dispatch (cancel : nat -> bool) (max_parallel_encodes : nat)
  (n_tasks : nat) (waits : list (list nat)) : dispatcher * dispatch_end :=
  dispatch_loop cancel max_parallel_encodes n_tasks waits
    (launch_available cancel max_parallel_encodes n_tasks dispatcher_init).

(** The tasks submitted, in the order of submission. *)
Definition submitted (log : list dispatch_event) : list nat :=
  omap (fun ev => match ev with
                  | EvSubmit i _ => Some i
                  | EvDone _ => None
                  end) log.

(** The futures taken out of [in_flight], in that order. *)
Definition completed (log : list dispatch_event) : list nat :=
  omap (fun ev => match ev with
                  | EvDone i => Some i
                  | EvSubmit _ _ => None
                  end) log.

(** The number of futures in flight after the events of [log]. *)
Definition running (log : list dispatch_event) : Z :=
  Z.of_nat (length (submitted log)) - Z.of_nat (length (completed log)).

(** What the dispatcher keeps true. *)
Record dispatcher_ok (cancel : nat -> bool) (max_parallel_encodes : nat)
  (n_tasks : nat) (s : dispatcher) : Prop := {
  ok_next : (next_task_idx s <= n_tasks)%nat;
  ok_submitted : submitted (dispatch_log s) = seq 0 (next_task_idx s);
  ok_in_flight : in_flight s ⊆+ seq 0 (next_task_idx s);
  ok_room : (length (in_flight s) <= max_parallel_encodes)%nat;
  ok_running : running (dispatch_log s) = Z.of_nat (length (in_flight s));
  ok_completed : completed (dispatch_log s) ++ in_flight s
                 ≡ₚ seq 0 (next_task_idx s);
  ok_prefixes : forall p, p `prefix_of` dispatch_log s ->
                          0 <= running p <= Z.of_nat max_parallel_encodes;
  ok_stamps : forall i c, EvSubmit i c ∈ dispatch_log s ->
                          (c < checks s)%nat /\ cancel c = false
}.

(** ** The settings of a pipeline run: main.py *)

(** [log_and_raise(message, log_file)]: the message goes to the log and a
    [RuntimeError] carries it. *)
Definition log_and_raise {A} (message : string) : outcome A :=
  Raised (RuntimeError message).

(** [validate_tiling_settings] (lines 205-207). *)
Definition validate_tiling_settings (n_x n_y n_z : Z) : outcome unit :=
  if (n_x <=? 0) || (n_y <=? 0) || (n_z <=? 0)
  then log_and_raise "n-x, n-y, and n-z must all be positive integers."
  else Returned tt.

(** [validate_segment_settings] (lines 183-202); the text of the third
    message depends on the two numbers and is left out. *)
Definition validate_segment_settings (segment_size encoder_gof : Z)
  (multiple_message : string) : outcome unit :=
  if segment_size <=? 0 then log_and_raise "segment-size must be positive."
  else if encoder_gof <=? 0 then log_and_raise "encoder-gof must be positive."
  else if negb (segment_size mod encoder_gof =? 0)
       then log_and_raise multiple_message
  else Returned tt.

(** [validate_runtime_settings] (lines 210-224).  [frame_rate_nonpositive]
    is the answer of the float comparison [frame_rate <= 0]. *)
Definition validate_runtime_settings (frame_rate_nonpositive : bool)
  (frame_count start_frame_number vox : option Z) : outcome unit :=
  if frame_rate_nonpositive then log_and_raise "frame-rate must be positive."
  else if match frame_count with Some c => c <=? 0 | None => false end
       then log_and_raise "frame-count must be positive when provided."
  else if match start_frame_number with Some n => n <? 0 | None => false end
       then log_and_raise "start-frame-number must be >= 0 when provided."
  else if match vox with Some v => v <=? 0 | None => false end
       then log_and_raise "vox must be positive when provided."
  else Returned tt.

(** [validate_parallel_settings] (lines 227-229). *)
Definition validate_parallel_settings (encoding_parallelism : Z)
  : outcome unit :=
  if encoding_parallelism <=? 0
  then log_and_raise "encoding-parallelism must be positive."
  else Returned tt.

(** [resolve_threads_per_instance] (lines 232-248). *)
Definition resolve_threads_per_instance (encoding_parallelism : Z)
  (encoding_threads_per_instance : option Z) : outcome Z :=
  match encoding_threads_per_instance with
  | None => Returned 1
  | Some requested =>
    if requested <=? 0
    then log_and_raise "encoding-threads-per-instance must be positive."
    else if encoding_parallelism <? requested then Returned encoding_parallelism
    else Returned requested
  end.

(** [max(1, args.encoding_parallelism // threads_per_instance)]
    (line 304). *)
Definition max_parallel_encodes_of (encoding_parallelism threads_per_instance : Z)
  : Z :=
  Z.max 1 (encoding_parallelism / threads_per_instance).

(** The settings [main] checks before any work, in the order it checks
    them (lines 289-304), and what it derives from them: the tiler, the
    threads per encoder instance and the number of concurrent encoders. *)
Definition checked_settings (n_x n_y n_z segment_size encoder_gof : Z)
  (multiple_message : string) (frame_rate_nonpositive : bool)
  (frame_count start_frame_number vox : option Z)
  (encoding_parallelism : Z) (encoding_threads_per_instance : option Z)
  : outcome (TileGenerator * Z * Z) :=
  match validate_segment_settings segment_size encoder_gof multiple_message
  with
  | Returned _ =>
    match validate_tiling_settings n_x n_y n_z with
    | Returned _ =>
      match validate_runtime_settings frame_rate_nonpositive frame_count
              start_frame_number vox with
      | Returned _ =>
        match validate_parallel_settings encoding_parallelism with
        | Returned _ =>
          match resolve_threads_per_instance encoding_parallelism
                  encoding_threads_per_instance with
          | Returned threads_per_instance =>
            Returned (TileGenerator_init n_x n_y n_z segment_size
                        encoding_parallelism,
                      threads_per_instance,
                      max_parallel_encodes_of encoding_parallelism
                        threads_per_instance)
          | Raised e => Raised e
          | OutOfFuel => OutOfFuel
          end
        | Raised e => Raised e
        | OutOfFuel => OutOfFuel
        end
      | Raised e => Raised e
      | OutOfFuel => OutOfFuel
      end
    | Raised e => Raised e
    | OutOfFuel => OutOfFuel
    end
  | Raised e => Raised e
  | OutOfFuel => OutOfFuel
  end.

(** ** Frame numbers in file names: server.py, main.py, utils.py *)

Definition ply_suffix : list ascii := list_ascii_of_string ".ply".

(** The lookahead [(?=\.ply$)]: what follows is [.ply] and the end of the
    string, or [.ply] and a final newline. *)
Definition at_ply_end (rest : list ascii) : bool :=
  bool_decide (rest = ply_suffix) ||
  bool_decide (rest = ply_suffix ++ [newline]).

(** [_FRAME_NUM_RE.search(s)] for [(\d+)(?=\.ply$)], the pattern of main.py
    and of server.py: [(match.start(1), match.end(1))].  The search tries the
    start positions from the left; at each one [\d+] takes the whole run of
    digits (giving digits back would leave a digit, not a dot, in front of
    the lookahead).  As for the encoder's pattern, strings are 8-bit and
    [\d] is ['0'..'9']. *)
Fixpoint frame_num_search_from (start : nat) (cs : list ascii)
  : option (nat * nat) :=
  match cs with
  | [] => None
  | _ :: cs' =>
    let digits := take_while is_digit cs in
    if negb (bool_decide (digits = [])) &&
       at_ply_end (drop_while is_digit cs)
    then Some (start, (start + length digits)%nat)
    else frame_num_search_from (S start) cs'
  end.

Definition frame_num_search (s : string) : option (nat * nat) :=
  frame_num_search_from 0 (list_ascii_of_string s).

(** [s[a:b]] for [0 <= a <= b]. *)
Definition str_slice (s : string) (a b : nat) : string :=
  string_of_list_ascii (take (b - a) (drop a (list_ascii_of_string s))).

(** [s[b:]]. *)
Definition str_from (s : string) (b : nat) : string :=
  string_of_list_ascii (drop b (list_ascii_of_string s)).

(** [match.group(1)] of [_FRAME_NUM_RE.search(name)]. *)
Definition frame_num_group1 (name : string) : option string :=
  match frame_num_search name with
  | Some (a, b) => Some (str_slice name a b)
  | None => None
  end.

(** [derive_uncompressed_pattern] (main.py, lines 133-138) and
    [_derive_uncompressed_pattern] (server.py, lines 34-39). *)
Definition derive_uncompressed_pattern (frame_name : string) : string :=
  match frame_num_search frame_name with
  | None => frame_name
  | Some (a, b) =>
    let digits := (b - a)%nat in
    str_slice frame_name 0 a +:+ "%0" +:+ str_of_nat digits +:+ "d"
      +:+ str_from frame_name b
  end.

(** [extract_frame_number] (main.py, lines 141-143) on the name of the
    path. *)
Definition extract_frame_number (name : string) : option N :=
  int_of_digits <$> frame_num_group1 name.

(** [re.search(r"vox(?P<vox>\d+)", stem)]: the digits after the leftmost
    [vox] that a digit follows. *)
Fixpoint vox_search (cs : list ascii) : option string :=
  match cs with
  | [] => None
  | _ :: cs' =>
    let digits := take_while is_digit (drop 3 cs) in
    if bool_decide (take 3 cs = list_ascii_of_string "vox") &&
       negb (bool_decide (digits = []))
    then Some (string_of_list_ascii digits)
    else vox_search cs'
  end.

(** [extract_metadata_from_filename(file_path)["vox"]] (utils.py). *)
Definition extract_metadata_vox (name : string) : option N :=
  int_of_digits <$> vox_search (list_ascii_of_string (stem name)).

(** The loop of [inspect] over the frames (server.py, lines 112-117). *)
Definition inspect_start_frame (frame_names : list string) : option N :=
  fold_left (fun start_frame name =>
               match frame_num_group1 name with
               | Some digits =>
                 let num := int_of_digits digits in
                 Some (match start_frame with
                       | None => num
                       | Some s => N.min s num
                       end)
               | None => start_frame
               end) frame_names None.

(** The answer of [/api/inspect]: an error with its status code, or the four
    fields of the JSON object. *)
Inductive inspect_result : Type :=
| InspectError (status : nat) (message : string)
| InspectOk (vox : option N) (frameCount : nat) (startFrameNumber : option N)
    (uncompressedDataPath : string).

(** [inspect] (server.py, lines 95-127).  [folder] is the request parameter,
    [is_dir] the answer of [p.exists() and p.is_dir()], [frame_names] the
    names of [sorted(p.glob("*.ply"))]. *)
Definition inspect (folder : option string) (is_dir : bool)
  (frame_names : list string) : inspect_result :=
  match folder with
  | None => InspectError 400 "folder parameter is required"
  | Some folder =>
    if bool_decide (folder = ""%string)
    then InspectError 400 "folder parameter is required"
    else if negb is_dir
    then InspectError 404 ("folder not found: " +:+ folder)
    else
      match frame_names with
      | [] => InspectError 404 "no PLY frames found"
      | first_frame :: _ =>
        InspectOk (extract_metadata_vox first_frame) (length frame_names)
          (inspect_start_frame frame_names)
          (derive_uncompressed_pattern first_frame)
      end
  end.

(** The name [_process_frame] gives the file of a frame in every tile folder
    (tile_generator.py, lines 50 and 55). *)
Definition tile_file_name (frame_path_name : string) : string :=
  stem frame_path_name +:+ ".ply".

(** *** Vocabulary for statements about frame names *)

Definition ends_digit (cs : list ascii) : bool :=
  match reverse cs with
  | c :: _ => is_digit c
  | [] => false
  end.

Definition ends_in_digit (s : string) : bool :=
  ends_digit (list_ascii_of_string s).

Definition all_digits (s : string) : bool :=
  forallb is_digit (list_ascii_of_string s).

(** A name [<stem>.ply] with a stem that is not empty and no newline in
    it. *)
Definition ply_frame_name (name : string) : bool :=
  let cs := list_ascii_of_string name in
  bool_decide (drop (length cs - 4) cs = ply_suffix) &&
  (4 <? length cs)%nat &&
  forallb (fun c => negb (bool_decide (c = newline))) cs.

(** The number of digits of the frame number of a name; 0 without one. *)
Definition digit_count (name : string) : nat :=
  match frame_num_group1 name with
  | Some digits => String.length digits
  | None => 0%nat
  end.

(** ** The QP groups of a run: server.py, main.py *)

(** [c.isspace()] for an 8-bit character. *)
Definition is_space (c : ascii) : bool :=
  let n := nat_of_ascii c in
  ((9 <=? n) && (n <=? 13) || (28 <=? n) && (n <=? 32) ||
   (n =? 133) || (n =? 160))%nat.

(** [s.strip()]. *)
Definition strip (cs : list ascii) : list ascii :=
  reverse (drop_while is_space (reverse (drop_while is_space cs))).

(** [s.split(sep)] for a separator of one character. *)
Fixpoint split_on (sep : ascii) (cs : list ascii) : list (list ascii) :=
  match cs with
  | [] => [[]]
  | c :: cs' =>
    if bool_decide (c = sep) then [] :: split_on sep cs'
    else match split_on sep cs' with
         | h :: t => (c :: h) :: t
         | [] => [[c]]
         end
  end.

(** [s.replace(old, new)] for [old] and [new] of one character. *)
Definition replace_char (old new : ascii) (cs : list ascii) : list ascii :=
  (fun c => if bool_decide (c = old) then new else c) <$> cs.

(** [qp_raw] of [run_pipeline] (server.py, line 179); [qpPairs] is the
    entry of the request's [args], a string when present. *)
Definition qp_raw (qpPairs : option string) : string :=
  string_of_list_ascii
    (replace_char " " ","
       (list_ascii_of_string (default "24:32:43"%string qpPairs))).

(** [add(flag, val)] of [run_pipeline] (server.py, lines 155-160) for a
    value that is a string or [None]. *)
Definition add (flag : string) (val : option string) (cli : list string)
  : list string :=
  match val with
  | None => cli
  | Some v => if bool_decide (v = ""%string) then cli else cli ++ [flag; v]
  end.

Section QpPairs.

(** [int(s)] of a string, [None] when it raises [ValueError], and the
    message of that error. *)
Variable py_int : string -> option Z.
Variable int_error : string -> string.

(** One group [occ:geo:attr] (main.py, lines 152-156). *)
Definition parse_qp_group (item : list ascii) : outcome QPConfig :=
  match split_on ":" item with
  | [occ; geo; attr] =>
    match py_int (string_of_list_ascii occ) with
    | None => Raised (ValueError (int_error (string_of_list_ascii occ)))
    | Some occ =>
      match py_int (string_of_list_ascii geo) with
      | None => Raised (ValueError (int_error (string_of_list_ascii geo)))
      | Some geo =>
        match py_int (string_of_list_ascii attr) with
        | None => Raised (ValueError (int_error (string_of_list_ascii attr)))
        | Some attr => Returned (occ, geo, attr)
        end
      end
    end
  | _ =>
    Raised (ValueError ("Invalid qp group '" +:+ string_of_list_ascii item
                        +:+ "', expected occ:geo:attr"))
  end.

(** The loop of [parse_qp_pairs] (main.py, lines 148-156). *)
Fixpoint parse_qp_items (items : list (list ascii)) (pairs : list QPConfig)
  : outcome (list QPConfig) :=
  match items with
  | [] => Returned pairs
  | item :: items' =>
    let item := strip item in
    match item with
    | [] => parse_qp_items items' pairs
    | _ =>
      match parse_qp_group item with
      | Returned qp => parse_qp_items items' (pairs ++ [qp])
      | Raised e => Raised e
      | OutOfFuel => OutOfFuel
      end
    end
  end.

(** [parse_qp_pairs] (main.py, lines 146-159). *)
Definition parse_qp_pairs (value : string) : outcome (list QPConfig) :=
  match parse_qp_items (split_on "," (list_ascii_of_string value)) [] with
  | Returned [] => Raised (ValueError "qp_pairs cannot be empty")
  | o => o
  end.

(** The loop of [validate_qp_pairs] (main.py, lines 165-170). *)
Fixpoint validate_qp_triplets (pairs : list QPConfig) : outcome unit :=
  match pairs with
  | [] => Returned tt
  | (occ, geo, attr) :: pairs' =>
    if (occ <? 0) || (geo <? 0) || (attr <? 0)
    then log_and_raise
           ("Invalid qp triplet (" +:+ py_str_int occ +:+ ":"
            +:+ py_str_int geo +:+ ":" +:+ py_str_int attr
            +:+ "); QP values must be non-negative.")
    else validate_qp_triplets pairs'
  end.

(** [validate_qp_pairs] (main.py, lines 162-170). *)
Definition validate_qp_pairs (pairs : list QPConfig) : outcome unit :=
  match pairs with
  | [] => log_and_raise "qp_pairs cannot be empty."
  | _ => validate_qp_triplets pairs
  end.

(** The QP groups [main] works with (main.py, lines 306-310), from the value
    of [--qp-pairs]. *)
Definition main_qp_pairs (value : string) : outcome (list QPConfig) :=
  match parse_qp_pairs value with
  | Returned qp_pairs =>
    match validate_qp_pairs qp_pairs with
    | Returned _ => Returned qp_pairs
    | Raised e => Raised e
    | OutOfFuel => OutOfFuel
    end
  | Raised (ValueError msg) => log_and_raise msg
  | o => o
  end.

End QpPairs.

(** *** Vocabulary for statements about the QP field of the UI *)

(** A piece of the text typed into the QP field: a group of three numbers,
    or one separator, a comma or a blank. *)
Inductive ui_piece : Type :=
| Group (occ geo attr : nat)
| Sep (comma : bool).

Definition render_piece (p : ui_piece) : list ascii :=
  match p with
  | Group occ geo attr =>
    list_ascii_of_string
      (str_of_nat occ +:+ ":" +:+ str_of_nat geo +:+ ":" +:+ str_of_nat attr)
  | Sep true => [","%char]
  | Sep false => [" "%char]
  end.

Definition render (pieces : list ui_piece) : string :=
  string_of_list_ascii (mjoin (render_piece <$> pieces)).

(** No two groups without a separator between them. *)
Fixpoint well_separated (pieces : list ui_piece) : bool :=
  match pieces with
  | Group _ _ _ :: ((Group _ _ _ :: _) as rest) => false
  | _ :: rest => well_separated rest
  | [] => true
  end.

Fixpoint groups_of (pieces : list ui_piece) : list QPConfig :=
  match pieces with
  | Group occ geo attr :: rest =>
    (Z.of_nat occ, Z.of_nat geo, Z.of_nat attr) :: groups_of rest
  | Sep _ :: rest => groups_of rest
  | [] => []
  end.

(** *** Vocabulary for statements about the bitstream files of a run *)

(** [bitstream_name] in the job of a task (tmc2_encoder.py, lines 637 and
    644); [name_of] is [Path.name], from the path of the tile directory to
    its last component. *)
Definition task_bitstream_name (tiles_name : string)
  (name_of : string -> string) (t : task) : string :=
  let '(_, tile_dir, _, qp) := t in
  bitstream_name tiles_name (name_of tile_dir) qp.

(** A character of the decimal text of an int. *)
Definition num_char (c : ascii) : bool :=
  is_digit c || bool_decide (c = "-"%char).

(** * Theorems *)

(** ** The unit parser *)

Section Parser.
Local Open Scope N_scope.

Lemma from_bytes_big_acc (bs : list byte) (acc : N) :
  fold_left (fun acc b => acc * 256 + Byte.to_N b) bs acc
  = acc * 256 ^ N.of_nat (length bs) + from_bytes_big bs.
Proof.
  unfold from_bytes_big. revert acc.
  induction bs as [|b bs IH]; intros acc.
  - simpl. lia.
  - cbn [fold_left length]. rewrite IH, (IH (0 * 256 + _)).
    rewrite Nat2N.inj_succ, N.pow_succ_r'. lia.
Qed.

Lemma from_bytes_big_cons (b : byte) (bs : list byte) :
  from_bytes_big (b :: bs)
  = Byte.to_N b * 256 ^ N.of_nat (length bs) + from_bytes_big bs.
Proof.
  unfold from_bytes_big at 1. cbn [fold_left].
  rewrite from_bytes_big_acc. lia.
Qed.

Lemma slice_middle (pre a b : list byte) :
  slice (pre ++ a ++ b) (N.of_nat (length pre))
    (N.of_nat (length pre) + N.of_nat (length a)) = a.
Proof.
  unfold slice.
  replace (N.of_nat (length pre) + N.of_nat (length a) - N.of_nat (length pre))
    with (N.of_nat (length a)) by lia.
  rewrite !Nat2N.id, drop_app_length, take_app_length. reflexivity.
Qed.

Lemma parse_loop_S fuel data L offset :
  parse_loop (S fuel) data L offset =
  let data_len := N.of_nat (length data) in
  if offset + L <=? data_len then
    let size := from_bytes_big (slice data offset (offset + L)) in
    let end_ := offset + L + size in
    if data_len <? end_ then ([], Raised (ValueError "Truncated unit"))
    else
      match slice data (offset + L) end_ with
      | [] => ([], Raised IndexError)
      | p0 :: _ =>
        let '(units, e) := parse_loop fuel data L end_ in
        ((unit_type_of p0, slice data offset end_) :: units, e)
      end
  else ([], Returned tt).
Proof. reflexivity. Qed.

Lemma parse_loop_unit fuel L pre size_field p0 payload rest :
  N.of_nat (length size_field) = L ->
  from_bytes_big size_field = N.of_nat (length (p0 :: payload)) ->
  let data := pre ++ (size_field ++ p0 :: payload) ++ rest in
  parse_loop (S fuel) data L (N.of_nat (length pre)) =
  let '(units, e) :=
    parse_loop fuel data L
      (N.of_nat (length (pre ++ size_field ++ p0 :: payload))) in
  ((unit_type_of p0, size_field ++ p0 :: payload) :: units, e).
Proof.
  intros HL Hsize data. rewrite parse_loop_S. cbv zeta.
  assert (Hlen : N.of_nat (length data)
                 = N.of_nat (length pre) + L + N.of_nat (length (p0 :: payload))
                   + N.of_nat (length rest)).
  { subst data. rewrite !length_app. cbn [length]. lia. }
  assert (Hsf : slice data (N.of_nat (length pre)) (N.of_nat (length pre) + L)
                = size_field).
  { subst data. rewrite <- HL, <- (assoc_L (++) size_field).
    apply slice_middle. }
  rewrite Hsf, Hsize.
  destruct (N.leb_spec (N.of_nat (length pre) + L) (N.of_nat (length data)));
    [|lia].
  destruct (N.ltb_spec (N.of_nat (length data))
              (N.of_nat (length pre) + L + N.of_nat (length (p0 :: payload))));
    [lia|].
  assert (Hpl : slice data (N.of_nat (length pre) + L)
                  (N.of_nat (length pre) + L + N.of_nat (length (p0 :: payload)))
                = p0 :: payload).
  { subst data. rewrite <- HL, <- Nat2N.inj_add, <- length_app.
    rewrite <- (assoc_L (++) size_field), (assoc_L (++) pre).
    apply slice_middle. }
  rewrite Hpl.
  assert (Hfull : slice data (N.of_nat (length pre))
                    (N.of_nat (length pre) + L + N.of_nat (length (p0 :: payload)))
                  = size_field ++ p0 :: payload).
  { subst data. rewrite <- HL, <- N.add_assoc, <- Nat2N.inj_add, <- length_app.
    apply slice_middle. }
  rewrite Hfull.
  replace (N.of_nat (length (pre ++ size_field ++ p0 :: payload)))
    with (N.of_nat (length pre) + L + N.of_nat (length (p0 :: payload))).
  - reflexivity.
  - rewrite !length_app. lia.
Qed.

Lemma parse_loop_frames L mid us :
  frames L mid us ->
  forall pre tail fuel,
    parse_loop (length us + fuel) (pre ++ mid ++ tail) L (N.of_nat (length pre))
    = let '(us', o) :=
        parse_loop fuel (pre ++ mid ++ tail) L (N.of_nat (length (pre ++ mid))) in
      (us ++ us', o).
Proof.
  induction 1 as [|sf p0 payload rest us HL Hsize Hfr IH]; intros pre tail fuel.
  - rewrite app_nil_r. cbn [length Nat.add app].
    destruct (parse_loop fuel _ _ _); reflexivity.
  - cbn [length Nat.add].
    pose proof (parse_loop_unit (length us + fuel) L pre sf p0 payload
                  (rest ++ tail) HL Hsize) as Hstep.
    cbv zeta in Hstep.
    specialize (IH (pre ++ sf ++ p0 :: payload) tail fuel).
    set (U := sf ++ p0 :: payload) in *.
    replace (pre ++ (U ++ rest) ++ tail) with (pre ++ U ++ rest ++ tail)
      by (rewrite !(assoc_L (++)); reflexivity).
    replace ((pre ++ U) ++ rest ++ tail) with (pre ++ U ++ rest ++ tail) in IH
      by (rewrite !(assoc_L (++)); reflexivity).
    replace (length (pre ++ U ++ rest)) with (length ((pre ++ U) ++ rest))
      by (rewrite !(assoc_L (++)); reflexivity).
    rewrite Hstep, IH.
    destruct (parse_loop fuel _ _ _); reflexivity.
Qed.

Lemma frames_length L mid us :
  frames L mid us -> (length us <= length mid)%nat.
Proof.
  induction 1; cbn [length]; [lia|]. rewrite !length_app. cbn [length]. lia.
Qed.

Lemma frames_concat L mid us : frames L mid us -> concat (us.*2) = mid.
Proof.
  induction 1 as [|sf p0 payload rest us HL Hsize Hfr IH]; [reflexivity|].
  cbn [fmap list_fmap concat snd]. rewrite IH. reflexivity.
Qed.

Lemma parse_loop_short_tail fuel L pre tail :
  N.of_nat (length tail) < L ->
  parse_loop (S fuel) (pre ++ tail) L (N.of_nat (length pre))
  = ([], Returned tt).
Proof.
  intros Hlt. rewrite parse_loop_S. cbv zeta. rewrite length_app.
  destruct (N.leb_spec (N.of_nat (length pre) + L)
              (N.of_nat (length pre + length tail))); [lia|reflexivity].
Qed.

Lemma parse_loop_truncated fuel L pre size_field rest :
  N.of_nat (length size_field) = L ->
  N.of_nat (length rest) < from_bytes_big size_field ->
  parse_loop (S fuel) (pre ++ size_field ++ rest) L (N.of_nat (length pre))
  = ([], Raised (ValueError "Truncated unit")).
Proof.
  intros <- Hlt. rewrite parse_loop_S. cbv zeta.
  rewrite slice_middle, !length_app.
  destruct (N.leb_spec (N.of_nat (length pre) + N.of_nat (length size_field))
              (N.of_nat (length pre + (length size_field + length rest))));
    [|lia].
  destruct (N.ltb_spec
              (N.of_nat (length pre + (length size_field + length rest)))
              (N.of_nat (length pre) + N.of_nat (length size_field)
               + from_bytes_big size_field));
    [reflexivity|lia].
Qed.

(** Running [parse_v3c_units] on a header, complete units and whatever
    follows them: the units are yielded, then the loop goes on in the rest. *)
Lemma parse_v3c_units_frames header mid us tail :
  frames (size_len_of header) mid us ->
  exists fuel,
    parse_v3c_units (header :: mid ++ tail)
    = let '(us', o) :=
        parse_loop (S fuel) ([header] ++ mid ++ tail) (size_len_of header)
          (N.of_nat (length ([header] ++ mid))) in
      (us ++ us', o).
Proof.
  intros Hfr. pose proof (frames_length _ _ _ Hfr) as Hlen.
  exists (length mid - length us + length tail)%nat.
  unfold parse_v3c_units.
  replace (length (header :: mid ++ tail))
    with (length us + S (length mid - length us + length tail))%nat
    by (cbn [length]; rewrite length_app; lia).
  apply (parse_loop_frames _ _ _ Hfr [header] tail).
Qed.

Lemma slice_length (data : list byte) (a b : N) :
  a <= b -> b <= N.of_nat (length data) ->
  N.of_nat (length (slice data a b)) = b - a.
Proof.
  intros Hab Hb. unfold slice. rewrite length_take, length_drop. lia.
Qed.

Lemma slice_split (data : list byte) (a b c : N) :
  a <= b -> b <= c ->
  slice data a c = slice data a b ++ slice data b c.
Proof.
  intros Hab Hbc. unfold slice.
  replace (N.to_nat (c - a)) with (N.to_nat (b - a) + N.to_nat (c - b))%nat
    by lia.
  rewrite <- take_take_drop, drop_drop.
  replace (N.to_nat a + N.to_nat (b - a))%nat with (N.to_nat b) by lia.
  reflexivity.
Qed.

Lemma slice_drop (data : list byte) (a b : N) :
  a <= b ->
  drop (N.to_nat a) data = slice data a b ++ drop (N.to_nat b) data.
Proof.
  intros Hab. unfold slice.
  rewrite <- (take_drop (N.to_nat (b - a)) (drop (N.to_nat a) data)) at 1.
  rewrite drop_drop.
  replace (N.to_nat a + N.to_nat (b - a))%nat with (N.to_nat b) by lia.
  reflexivity.
Qed.

(** Whatever the input, the items yielded are consecutive units of the
    stream from [offset] on. *)
Lemma parse_loop_sound fuel :
  forall data L offset units o,
    offset <= N.of_nat (length data) ->
    parse_loop fuel data L offset = (units, o) ->
    exists mid tail,
      drop (N.to_nat offset) data = mid ++ tail /\ frames L mid units.
Proof.
  induction fuel as [|fuel IH]; intros data L offset units o Hoff Hrun.
  - injection Hrun as <- <-. exists [], (drop (N.to_nat offset) data).
    split; [reflexivity|constructor].
  - rewrite parse_loop_S in Hrun. cbv zeta in Hrun.
    destruct (N.leb_spec (offset + L) (N.of_nat (length data))) as [Hle|Hgt].
    2:{ injection Hrun as <- <-. exists [], (drop (N.to_nat offset) data).
        split; [reflexivity|constructor]. }
    set (sf := slice data offset (offset + L)) in *.
    set (end_ := offset + L + from_bytes_big sf) in *.
    destruct (N.ltb_spec (N.of_nat (length data)) end_) as [Htr|Hin].
    { injection Hrun as <- <-. exists [], (drop (N.to_nat offset) data).
      split; [reflexivity|constructor]. }
    destruct (slice data (offset + L) end_) as [|p0 payload] eqn:Hpl.
    { injection Hrun as <- <-. exists [], (drop (N.to_nat offset) data).
      split; [reflexivity|constructor]. }
    destruct (parse_loop fuel data L end_) as [units' e] eqn:Hrec.
    injection Hrun as <- <-.
    destruct (IH data L end_ units' e Hin Hrec) as (mid & tail & Hdrop & Hfr).
    assert (Hsf : N.of_nat (length sf) = L).
    { subst sf. rewrite slice_length by lia. lia. }
    assert (Hsize : from_bytes_big sf = N.of_nat (length (p0 :: payload))).
    { rewrite <- Hpl, slice_length by lia. lia. }
    exists ((sf ++ p0 :: payload) ++ mid), tail. split.
    + rewrite (slice_drop data offset end_) by lia.
      rewrite (slice_split data offset (offset + L) end_) by lia.
      fold sf. rewrite Hpl, Hdrop, !(assoc_L (++)). reflexivity.
    + rewrite (slice_split data offset (offset + L) end_) by lia.
      fold sf. rewrite Hpl. constructor; assumption.
Qed.

Lemma parse_loop_enough_fuel fuel :
  forall data L offset,
    offset <= N.of_nat (length data) ->
    N.of_nat (length data) < N.of_nat fuel + offset ->
    (parse_loop fuel data L offset).2 <> OutOfFuel.
Proof.
  induction fuel as [|fuel IH]; intros data L offset Hoff Hfuel.
  - lia.
  - rewrite parse_loop_S. cbv zeta.
    destruct (N.leb_spec (offset + L) (N.of_nat (length data))) as [Hle|Hgt];
      [|discriminate].
    set (sf := slice data offset (offset + L)) in *.
    set (end_ := offset + L + from_bytes_big sf) in *.
    destruct (N.ltb_spec (N.of_nat (length data)) end_) as [Htr|Hin];
      [discriminate|].
    destruct (slice data (offset + L) end_) as [|p0 payload] eqn:Hpl;
      [discriminate|].
    assert (Hlen : N.of_nat (length (p0 :: payload)) = end_ - (offset + L)).
    { rewrite <- Hpl. apply slice_length; lia. }
    cbn [length] in Hlen.
    specialize (IH data L end_ Hin).
    destruct (parse_loop fuel data L end_) as [units' e]. cbn [snd] in *.
    apply IH. lia.
Qed.

(** The parser always terminates: the fuel it is given is enough. *)
Lemma parse_v3c_units_terminates (data : list byte) :
  (parse_v3c_units data).2 <> OutOfFuel.
Proof.
  destruct data as [|header rest]; [discriminate|].
  unfold parse_v3c_units.
  apply parse_loop_enough_fuel; cbn [length]; lia.
Qed.

Lemma from_bytes_big_is_big_endian (bs : list byte) :
  from_bytes_big bs = big_endian_value bs.
Proof.
  induction bs as [|b bs IH]; [reflexivity|].
  rewrite from_bytes_big_cons, IH. reflexivity.
Qed.

Lemma size_len_of_range (header : byte) : 1 <= size_len_of header <= 8.
Proof.
  unfold size_len_of. rewrite N.shiftr_div_pow2.
  pose proof (Byte.to_N_bounded header) as Hb.
  change (2 ^ 5) with 32.
  assert (Hq : Byte.to_N header / 32 < 8)
    by (apply N.Div0.div_lt_upper_bound; lia).
  set (q := Byte.to_N header / 32) in *. clearbody q. lia.
Qed.

Lemma size_len_of_bits (header : byte) (i : N) :
  N.testbit (size_len_of header - 1) i = N.testbit (Byte.to_N header) (i + 5).
Proof.
  unfold size_len_of.
  replace (N.shiftr (Byte.to_N header) 5 + 1 - 1)
    with (N.shiftr (Byte.to_N header) 5) by lia.
  apply N.shiftr_spec'.
Qed.

Lemma unit_type_of_bits (p0 : byte) (i : N) :
  N.testbit (unit_type_of p0) i = (i <? 5) && N.testbit (Byte.to_N p0) (i + 3).
Proof.
  unfold unit_type_of. rewrite N.land_spec, N.shiftr_spec'.
  change 31 with (N.ones 5).
  destruct (N.ltb_spec i 5) as [Hlt|Hge].
  - rewrite N.ones_spec_low by assumption. apply andb_comm.
  - rewrite N.ones_spec_high by assumption. apply andb_false_r.
Qed.

Lemma frames_unit_shape L mid us : frames L mid us -> Forall (unit_shape L) us.
Proof.
  induction 1 as [|sf p0 payload rest us HL Hsize Hfr IH]; constructor; auto.
  exists sf, p0, payload. cbn [fst snd].
  rewrite <- from_bytes_big_is_big_endian.
  repeat split; auto using unit_type_of_bits.
Qed.

(** C1.  For every well-formed track (a header byte followed by complete
    length-prefixed units, each holding at least its type byte),
    [parse_v3c_units] runs to its end, and the header byte followed by the
    full bytes of the units it yields, in the order yielded, is the original
    byte stream. *)
Theorem parse_then_reassemble_roundtrip (data : list byte) :
  well_formed_track data ->
  exists units,
    parse_v3c_units data = (units, Returned tt) /\
    take 1 data ++ concat (units.*2) = data.
Proof.
  intros (header & rest & us & -> & Hfr). exists us.
  destruct (parse_v3c_units_frames header rest us [] Hfr) as [fuel Hrun].
  rewrite app_nil_r in Hrun. split.
  - rewrite Hrun.
    rewrite <- (app_nil_r ([header] ++ rest)) at 1.
    rewrite parse_loop_short_tail, app_nil_r; [reflexivity|].
    pose proof (size_len_of_range header). cbn [length]. lia.
  - cbn [take app]. rewrite take_0. cbn [app].
    rewrite (frames_concat _ _ _ Hfr). reflexivity.
Qed.

Lemma parse_then_reassemble_roundtrip_witness :
  well_formed_track [x00; x02; x08; xff; x01; x0a]%byte /\
  exists units,
    parse_v3c_units [x00; x02; x08; xff; x01; x0a]%byte = (units, Returned tt) /\
    take 1 [x00; x02; x08; xff; x01; x0a]%byte ++ concat (units.*2)
    = [x00; x02; x08; xff; x01; x0a]%byte.
Proof.
  assert (Hwf : well_formed_track [x00; x02; x08; xff; x01; x0a]%byte).
  { exists x00, [x02; x08; xff; x01; x0a]%byte,
      [(1, [x02; x08; xff]); (1, [x01; x0a])]%byte.
    split; [reflexivity|].
    apply (frames_cons 1 [x02]%byte x08 [xff]%byte [x01; x0a]%byte);
      [reflexivity|reflexivity|].
    apply (frames_cons 1 [x01]%byte x0a [] []);
      [reflexivity|reflexivity|].
    apply frames_nil. }
  split; [exact Hwf|].
  apply (parse_then_reassemble_roundtrip _ Hwf).
Defined.


(** C2, as stated, fails: header [0x20] gives [L = 2] and only one byte is
    left for a size field, yet the parser ends without a unit and without an
    error. *)
Lemma parse_short_size_field_is_no_error :
  size_len_of x20 = 2 /\
  parse_v3c_units [x20; x07]%byte = ([], Returned tt).
Proof. split; reflexivity. Qed.

Lemma parse_v3c_units_truncated header mid us size_field rest :
  frames (size_len_of header) mid us ->
  N.of_nat (length size_field) = size_len_of header ->
  N.of_nat (length rest) < from_bytes_big size_field ->
  parse_v3c_units (header :: mid ++ size_field ++ rest)
  = (us, Raised (ValueError "Truncated unit")).
Proof.
  intros Hfr HL Hlt.
  destruct (parse_v3c_units_frames header mid us (size_field ++ rest) Hfr)
    as [fuel ->].
  rewrite (assoc_L (++) [header] mid).
  rewrite parse_loop_truncated, app_nil_r by assumption. reflexivity.
Qed.

Lemma parse_v3c_units_short_tail header mid us tail :
  frames (size_len_of header) mid us ->
  N.of_nat (length tail) < size_len_of header ->
  parse_v3c_units (header :: mid ++ tail) = (us, Returned tt).
Proof.
  intros Hfr Hlt.
  destruct (parse_v3c_units_frames header mid us tail Hfr) as [fuel ->].
  rewrite (assoc_L (++) [header] mid).
  rewrite parse_loop_short_tail, app_nil_r by assumption. reflexivity.
Qed.

(** C2, amended.  After any number of complete units: when a size field of
    [L] bytes declares more payload than the stream has left, the units so
    far are yielded and [ValueError("Truncated unit")] is raised; when fewer
    than [L] bytes are left, the iteration ends without an error.  With
    header [0x00] ([L = 1]), a declared size of 5 and three bytes left, the
    truncation error is raised. *)
Theorem parse_v3c_units_truncation (header : byte) (mid : list byte)
  (us : list v3c_unit) :
  frames (size_len_of header) mid us ->
  (forall size_field rest,
     N.of_nat (length size_field) = size_len_of header ->
     N.of_nat (length rest) < from_bytes_big size_field ->
     parse_v3c_units (header :: mid ++ size_field ++ rest)
     = (us, Raised (ValueError "Truncated unit")))
  /\ (forall tail,
        N.of_nat (length tail) < size_len_of header ->
        parse_v3c_units (header :: mid ++ tail) = (us, Returned tt))
  /\ (forall a b c : byte,
        size_len_of x00 = 1 /\
        parse_v3c_units [x00; x05; a; b; c]%byte
        = ([], Raised (ValueError "Truncated unit"))).
Proof.
  intros Hfr. split; [|split].
  - intros size_field rest. apply parse_v3c_units_truncated. exact Hfr.
  - intros tail. apply parse_v3c_units_short_tail. exact Hfr.
  - intros a b c. split; [reflexivity|].
    apply (parse_v3c_units_truncated x00 [] [] [x05]%byte [a; b; c]).
    + constructor.
    + reflexivity.
    + vm_compute. reflexivity.
Qed.

End Parser.

(** ** The segment multiplexer *)

Section Multiplexer.
Local Open Scope nat_scope.

Lemma writes_app tr1 tr2 : writes (tr1 ++ tr2) = writes tr1 ++ writes tr2.
Proof. apply omap_app. Qed.

Lemma read_bytes_eq (tk : track) (files : list (list byte)) (i : nat) :
  read_bytes tk files i
  = match files !! i with
    | Some data => ([EvRead tk i], Returned data)
    | None => ([], Raised IndexError)
    end.
Proof. unfold read_bytes, getitem. destruct (files !! i); reflexivity. Qed.

Lemma list_of_generator_eq (data : list byte) :
  list_of_generator (parse_v3c_units data)
  = match parse_v3c_units data with
    | (units, Returned _) => ([], Returned units)
    | (_, Raised e) => ([], Raised e)
    | (_, OutOfFuel) => ([], OutOfFuel)
    end.
Proof. destruct (parse_v3c_units data) as [units []]; reflexivity. Qed.

Lemma parsed_units_Some data us :
  parsed_units data = Some us ->
  exists units, parse_v3c_units data = (units, Returned tt) /\ units.*2 = us.
Proof.
  unfold parsed_units. destruct (parse_v3c_units data) as [units [[]| |]];
    intros [= <-]; eauto.
Qed.

#[local] Opaque parse_v3c_units seg_name.

(** One segment: either the four reads and the one write of the combined
    bytes, or an exception and nothing written. *)
Lemma combine_segment_inv t i tr o :
  combine_segment t i = (tr, o) ->
  (o = Returned tt /\
   exists c, segment_bytes t i c /\
     tr = [EvRead Atlas i; EvRead Occp i; EvRead Geom i; EvRead Attr i;
           EvWrite (seg_name i) c])
  \/ (o <> Returned tt /\ writes tr = []).
Proof.
  unfold combine_segment. rewrite !read_bytes_eq.
  destruct (atlas t !! i) as [atlas_data|] eqn:Ha; cbn;
    [|intros ?; simplify_eq; right; split; [done|reflexivity]].
  destruct (occp t !! i) as [occp_data|] eqn:Ho; cbn;
    [|intros ?; simplify_eq; right; split; [done|reflexivity]].
  destruct (geom t !! i) as [geom_data|] eqn:Hg; cbn;
    [|intros ?; simplify_eq; right; split; [done|reflexivity]].
  destruct (attr t !! i) as [attr_data|] eqn:Hat; cbn;
    [|intros ?; simplify_eq; right; split; [done|reflexivity]].
  rewrite !list_of_generator_eq.
  destruct (parse_v3c_units atlas_data) as [atlas_units [[]| |]] eqn:Hpa; cbn;
    [|intros ?; simplify_eq; right; split; [done|reflexivity]..].
  destruct (parse_v3c_units occp_data) as [occp_units [[]| |]] eqn:Hpo; cbn;
    [|intros ?; simplify_eq; right; split; [done|reflexivity]..].
  destruct (parse_v3c_units geom_data) as [geom_units [[]| |]] eqn:Hpg; cbn;
    [|intros ?; simplify_eq; right; split; [done|reflexivity]..].
  destruct (parse_v3c_units attr_data) as [attr_units [[]| |]] eqn:Hpat; cbn;
    [|intros ?; simplify_eq; right; split; [done|reflexivity]..].
  unfold getitem, v3c_unit in *.
  destruct (atlas_units !! 0) as [vps|] eqn:Hvps; cbn;
    [|intros ?; simplify_eq; right; split; [done|reflexivity]].
  destruct (atlas_units !! 1) as [ad|] eqn:Had; cbn;
    [|intros ?; simplify_eq; right; split; [done|reflexivity]].
  destruct (occp_units !! 1) as [ovd|] eqn:Hovd; cbn;
    [|intros ?; simplify_eq; right; split; [done|reflexivity]].
  destruct (geom_units !! 1) as [gvd|] eqn:Hgvd; cbn;
    [|intros ?; simplify_eq; right; split; [done|reflexivity]].
  destruct (attr_units !! 1) as [avd|] eqn:Havd; cbn;
    [|intros ?; simplify_eq; right; split; [done|reflexivity]].
  destruct atlas_data as [|header atlas_rest]; cbn;
    [intros ?; simplify_eq; right; split; [done|reflexivity]|].
  intros ?; simplify_eq. left. split; [done|].
  eexists. split; [|reflexivity].
  exists header, atlas_rest, occp_data, geom_data, attr_data,
    (atlas_units.*2), (occp_units.*2), (geom_units.*2), (attr_units.*2),
    (vps.2), (ad.2), (ovd.2), (gvd.2), (avd.2).
  unfold parsed_units. rewrite Hpa, Hpo, Hpg, Hpat.
  rewrite !list_lookup_fmap, Hvps, Had, Hovd, Hgvd, Havd.
  repeat split; done.
Qed.

Lemma combine_segment_ok t i c :
  segment_bytes t i c ->
  combine_segment t i
  = ([EvRead Atlas i; EvRead Occp i; EvRead Geom i; EvRead Attr i;
      EvWrite (seg_name i) c], Returned tt).
Proof.
  intros (header & atlas_rest & occp_data & geom_data & attr_data
          & atlas_units & occp_units & geom_units & attr_units
          & vps & ad & ovd & gvd & avd
          & Ha & Ho & Hg & Hat & Hpa & Hpo & Hpg & Hpat
          & Hvps & Had & Hovd & Hgvd & Havd & ->).
  apply parsed_units_Some in Hpa as (ua & Hpa & <-).
  apply parsed_units_Some in Hpo as (uo & Hpo & <-).
  apply parsed_units_Some in Hpg as (ug & Hpg & <-).
  apply parsed_units_Some in Hpat as (uat & Hpat & <-).
  rewrite list_lookup_fmap in Hvps, Had, Hovd, Hgvd, Havd.
  unfold v3c_unit in *.
  destruct (ua !! 0) as [u0|] eqn:E0; [|discriminate Hvps].
  destruct (ua !! 1) as [u1|] eqn:E1; [|discriminate Had].
  destruct (uo !! 1) as [u2|] eqn:E2; [|discriminate Hovd].
  destruct (ug !! 1) as [u3|] eqn:E3; [|discriminate Hgvd].
  destruct (uat !! 1) as [u4|] eqn:E4; [|discriminate Havd].
  cbn in Hvps, Had, Hovd, Hgvd, Havd.
  injection Hvps as <-. injection Had as <-. injection Hovd as <-.
  injection Hgvd as <-. injection Havd as <-.
  unfold combine_segment. rewrite !read_bytes_eq, Ha, Ho, Hg, Hat. cbn.
  rewrite !list_of_generator_eq, Hpa, Hpo, Hpg, Hpat. cbn.
  unfold getitem. rewrite E0, E1, E2, E3, E4. cbn. reflexivity.
Qed.

Lemma for_range_inv t idxs :
  forall tr o,
    for_range idxs (combine_segment t) = (tr, o) ->
    exists k,
      k <= length idxs /\
      Forall2 (written_for t) (take k idxs) (writes tr) /\
      (o = Returned tt -> k = length idxs).
Proof.
  induction idxs as [|i idxs IH]; intros tr o Hrun.
  - injection Hrun as <- <-. exists 0. repeat split; [done|constructor].
  - cbn [for_range] in Hrun.
    destruct (combine_segment t i) as [tr1 o1] eqn:Hseg.
    destruct (combine_segment_inv _ _ _ _ Hseg)
      as [[-> (c & Hc & ->)]|[Hne Hw]].
    + cbn in Hrun.
      destruct (for_range idxs (combine_segment t)) as [tr2 o2] eqn:Hrest.
      injection Hrun as <- <-.
      destruct (IH _ _ eq_refl) as (k & Hk & Hall & Hdone).
      exists (S k). cbn [length take]. split; [lia|]. split.
      * change (writes (?a :: ?b :: ?c :: ?d :: EvWrite ?n ?x :: tr2))
          with ((n, x) :: writes tr2).
        constructor; [split; done|exact Hall].
      * intros Ho. rewrite (Hdone Ho). reflexivity.
    + exists 0. cbn [take]. 
      destruct o1 as [[]| |]; [done| |]; cbn in Hrun;
        injection Hrun as <- <-; rewrite Hw;
        (split; [lia|split; [constructor|done]]).
Qed.

Lemma for_range_ok t idxs :
  (forall i, i ∈ idxs -> exists c, segment_bytes t i c) ->
  exists tr,
    for_range idxs (combine_segment t) = (tr, Returned tt) /\
    Forall2 (written_for t) idxs (writes tr).
Proof.
  induction idxs as [|i idxs IH]; intros Hall.
  - exists []. split; [reflexivity|constructor].
  - destruct (Hall i) as [c Hc]; [left|].
    destruct IH as (tr & Hrun & Hw).
    { intros j Hj. apply Hall. right. exact Hj. }
    cbn [for_range]. rewrite (combine_segment_ok _ _ _ Hc). cbn.
    rewrite Hrun. eexists. split; [reflexivity|].
    change (writes (?a :: ?b :: ?c :: ?d :: EvWrite ?n ?x :: tr))
      with ((n, x) :: writes tr).
    constructor; [split; done|exact Hw].
Qed.

Lemma decode_pad0 (k : nat) (s : string) :
  Nat.of_uint <$> NilEmpty.uint_of_string (pad0 k s)
  = Nat.of_uint <$> NilEmpty.uint_of_string s.
Proof.
  induction k as [|k IH]; [reflexivity|].
  cbn [pad0 NilEmpty.uint_of_string]. rewrite <- IH.
  destruct (NilEmpty.uint_of_string (pad0 k s)); reflexivity.
Qed.

Lemma decode_format_04d (n : nat) :
  Nat.of_uint <$> NilEmpty.uint_of_string (format_04d n) = Some n.
Proof.
  unfold format_04d. rewrite decode_pad0, NilEmpty.usu. cbn.
  rewrite DecimalNat.Unsigned.of_to. reflexivity.
Qed.

Lemma string_length_app (a b : string) :
  String.length (a +:+ b) = String.length a + String.length b.
Proof.
  induction a as [|x a IH]; [reflexivity|].
  change (S (String.length (a +:+ b)) = S (String.length a + String.length b)).
  rewrite IH. reflexivity.
Qed.

Lemma string_app_inj_r (a b c : string) :
  (a +:+ c = b +:+ c)%string -> a = b.
Proof.
  revert b. induction a as [|x a IH]; intros [|y b] H.
  - reflexivity.
  - exfalso. apply (f_equal String.length) in H.
    rewrite !string_length_app in H. cbn [String.length] in H. lia.
  - exfalso. apply (f_equal String.length) in H.
    rewrite !string_length_app in H. cbn [String.length] in H. lia.
  - change (String x (a +:+ c) = String y (b +:+ c)) in H.
    injection H as -> H. f_equal. apply IH. exact H.
Qed.

#[local] Transparent seg_name.

(** Distinct segment indices get distinct file names. *)
Lemma seg_name_inj (i j : nat) : seg_name i = seg_name j -> i = j.
Proof.
  unfold seg_name. intros H.
  apply (inj (String.app "segment_")) in H.
  apply string_app_inj_r in H.
  apply (f_equal (fun s => Nat.of_uint <$> NilEmpty.uint_of_string s)) in H.
  rewrite !decode_format_04d in H. injection H. lia.
Qed.

#[local] Opaque seg_name.

Lemma written_for_names t idxs ws :
  Forall2 (written_for t) idxs ws -> ws.*1 = seg_name <$> idxs.
Proof.
  induction 1 as [|i w idxs ws [Hn _] _ IH]; [reflexivity|].
  cbn. rewrite Hn, IH. reflexivity.
Qed.

(** C4.  In any run, the files written are one per segment index processed,
    in index order and under distinct names [segment_{i+1:04d}.bin]; the file
    of index [i] holds the atlas header byte, atlas units 0 and 1, then unit 1
    of the occupancy, geometry and attribute files of index [i], each with
    its own size prefix; a run that returns has written one file for every
    index. *)
Theorem combined_segment_layout (t : track_files) (tr : list event)
  (o : outcome unit) :
  combine_per_segment t = (tr, o) ->
  exists k,
    k <= length (atlas t) /\
    Forall2 (written_for t) (seq 0 k) (writes tr) /\
    NoDup ((writes tr).*1) /\
    (o = Returned tt -> k = length (atlas t)).
Proof.
  unfold combine_per_segment. destruct (same_counts t); cbn [negb].
  - destruct (for_range _ _) as [tr' o'] eqn:Hrun. cbn.
    intros ?; simplify_eq.
    destruct (for_range_inv _ _ _ _ Hrun) as (k & Hk & Hall & Hdone).
    rewrite length_seq in Hk, Hdone. rewrite take_seq in Hall.
    replace (k `min` length (atlas t)) with k in Hall by lia.
    exists k. change (writes (EvMkdir :: tr')) with (writes tr').
    repeat split; [exact Hk|exact Hall| |exact Hdone].
    rewrite (written_for_names _ _ _ Hall).
    apply NoDup_fmap_2; [intros i j; apply seg_name_inj|apply NoDup_seq].
  - unfold raise. intros ?; simplify_eq. exists 0.
    repeat split; [lia|constructor|constructor|done].
Qed.

(** C5.  When the four track lists do not all have the same length, the
    run raises [RuntimeError("Segment count mismatch across tracks")] with no
    effect before it: no directory made, no file read, no file written. *)
Theorem combine_count_mismatch (t : track_files) :
  ~ (length (atlas t) = length (occp t) /\
     length (occp t) = length (geom t) /\
     length (geom t) = length (attr t)) ->
  combine_per_segment t
  = ([], Raised (RuntimeError "Segment count mismatch across tracks")).
Proof.
  intros Hne. unfold combine_per_segment.
  assert (Hc : same_counts t = false).
  { unfold same_counts. apply not_true_is_false. intros Ht. apply Hne.
    apply andb_prop in Ht as [Ht H3]. apply andb_prop in Ht as [H1 H2].
    apply Nat.eqb_eq in H1, H2, H3. auto. }
  rewrite Hc. reflexivity.
Qed.

Lemma parsed_units_nil : parsed_units [] = Some [].
Proof. reflexivity. Qed.

(** C10.  When the four lists have equal lengths and every track file
    parses, without error, to at least two units, the run returns and writes
    for every index the units picked by position; no unit type is looked
    at. *)
Theorem combine_selects_by_position (t : track_files) :
  length (atlas t) = length (occp t) ->
  length (occp t) = length (geom t) ->
  length (geom t) = length (attr t) ->
  (forall data,
     data ∈ atlas t ++ occp t ++ geom t ++ attr t ->
     exists units, parsed_units data = Some units /\ 2 <= length units) ->
  exists tr,
    combine_per_segment t = (tr, Returned tt) /\
    Forall2 (written_for t) (seq 0 (length (atlas t))) (writes tr).
Proof.
  intros H1 H2 H3 Hparse. unfold combine_per_segment.
  assert (Hc : same_counts t = true).
  { unfold same_counts. rewrite H1, H2, H3, !Nat.eqb_refl. reflexivity. }
  rewrite Hc. cbn [negb].
  destruct (for_range_ok t (seq 0 (length (atlas t)))) as (tr & Hrun & Hw).
  { intros i Hi. apply elem_of_seq in Hi as [_ Hi]. cbn in Hi.
    destruct (lookup_lt_is_Some_2 (atlas t) i) as [ad Ha]; [lia|].
    destruct (lookup_lt_is_Some_2 (occp t) i) as [od Ho]; [lia|].
    destruct (lookup_lt_is_Some_2 (geom t) i) as [gd Hg]; [lia|].
    destruct (lookup_lt_is_Some_2 (attr t) i) as [atd Hat]; [lia|].
    destruct (Hparse ad) as (ua & Hpa & Hla).
    { apply elem_of_app. left. eapply list_elem_of_lookup_2. exact Ha. }
    destruct (Hparse od) as (uo & Hpo & Hlo).
    { rewrite !elem_of_app. right. left.
      eapply list_elem_of_lookup_2. exact Ho. }
    destruct (Hparse gd) as (ug & Hpg & Hlg).
    { rewrite !elem_of_app. right. right. left.
      eapply list_elem_of_lookup_2. exact Hg. }
    destruct (Hparse atd) as (uat & Hpat & Hlat).
    { rewrite !elem_of_app. right. right. right.
      eapply list_elem_of_lookup_2. exact Hat. }
    destruct ad as [|header atlas_rest].
    { rewrite parsed_units_nil in Hpa. injection Hpa as <-. cbn in Hla. lia. }
    destruct (lookup_lt_is_Some_2 ua 0) as [vps Hvps]; [lia|].
    destruct (lookup_lt_is_Some_2 ua 1) as [ad Had]; [lia|].
    destruct (lookup_lt_is_Some_2 uo 1) as [ovd Hovd]; [lia|].
    destruct (lookup_lt_is_Some_2 ug 1) as [gvd Hgvd]; [lia|].
    destruct (lookup_lt_is_Some_2 uat 1) as [avd Havd]; [lia|].
    eexists.
    exists header, atlas_rest, od, gd, atd, ua, uo, ug, uat,
      vps, ad, ovd, gvd, avd.
    repeat split; try eassumption. }
  cbn. rewrite Hrun. eexists. split; [reflexivity|exact Hw].
Qed.

#[local] Transparent parse_v3c_units seg_name.

End Multiplexer.

(** ** Tiling *)

Section TilingArith.
Local Open Scope Z_scope.

Lemma np_clip_range (a n : Z) : 1 <= n -> 0 <= np_clip a 0 (n - 1) < n.
Proof. unfold np_clip. lia. Qed.

Lemma wrap64_small (z : Z) : - 2 ^ 63 <= z < 2 ^ 63 -> wrap64 z = z.
Proof. intros Hz. unfold wrap64. rewrite Z.mod_small; lia. Qed.

Section Tiling.
Context {F : Type} `{!FloatOps F}.

Lemma cell_index_range (v v_min d : F) (n i : Z) :
  1 <= n -> cell_index v v_min d n = Some i -> 0 <= i < n.
Proof.
  intros Hn. unfold cell_index.
  destruct (floor_int _) as [k|]; cbn; [|discriminate].
  intros [= <-]. apply np_clip_range. exact Hn.
Qed.

Lemma tile_id_of_exact (b : boundaries_meta F) (ix iy iz : Z) :
  0 <= ix < nx b -> 0 <= iy < ny b -> 0 <= iz < nz b ->
  nx b * ny b * nz b < 2 ^ 63 ->
  tile_id_of b ix iy iz = ix * (ny b * nz b) + iy * nz b + iz /\
  0 <= ix * (ny b * nz b) + iy * nz b + iz < nx b * ny b * nz b.
Proof.
  intros Hx Hy Hz Htot. unfold tile_id_of.
  set (NX := nx b) in *. set (NY := ny b) in *. set (NZ := nz b) in *.
  clearbody NX NY NZ.
  assert (HP : 1 <= NY * NZ) by nia.
  assert (H2 : 0 <= iy * NZ <= (NY - 1) * NZ) by nia.
  assert (H2' : iy * NZ + iz < NY * NZ) by nia.
  assert (H1 : 0 <= ix * (NY * NZ) <= (NX - 1) * (NY * NZ)).
  { set (P := NY * NZ) in *. clearbody P. nia. }
  assert (H3 : 0 <= ix * (NY * NZ) + iy * NZ + iz < NX * NY * NZ).
  { set (P := NY * NZ) in *. 
    replace (NX * NY * NZ) with (NX * P) in * by (subst P; ring).
    clearbody P. nia. }
  assert (HT : NX * NY * NZ = (NX - 1) * (NY * NZ) + NY * NZ) by ring.
  split; [|exact H3].
  rewrite (wrap64_small (ix * _)) by lia.
  rewrite (wrap64_small (iy * _)) by lia.
  rewrite (wrap64_small (ix * _ + iy * _)) by lia.
  apply wrap64_small. lia.
Qed.

End Tiling.

Lemma TileGenerator_init_positive (gx gy gz seg thr : Z) :
  let tg := TileGenerator_init gx gy gz seg thr in
  1 <= n_x tg /\ 1 <= n_y tg /\ 1 <= n_z tg.
Proof. cbn. lia. Qed.

(** In exact arithmetic the x cell of grid 2x1x1 over [0, 10] is 5 wide. *)
Lemma Q_cell_index_halves (x : Q) :
  let d := py_max (F:=Q) (fdiv (fsub 10%Q 0%Q) (of_Z 2)) eps9 in
  ((x < 5)%Q -> cell_index x 0%Q d 2 = Some 0) /\
  ((5 <= x)%Q -> cell_index x 0%Q d 2 = Some 1).
Proof.
  intros d.
  assert (Hd : (d == 5)%Q) by reflexivity.
  assert (Hq : ((x - 0) / d == x / 5)%Q).
  { rewrite Hd. unfold Qminus. rewrite Qplus_0_r. reflexivity. }
  unfold cell_index. cbn [floor_int fdiv fsub Q_ops mbind option_bind].
  rewrite Hq. split; intros Hx; f_equal; unfold np_clip.
  - assert (Hlt : (x / 5 < 1)%Q).
    { apply Qlt_shift_div_r; [reflexivity|]. rewrite Qmult_1_l. exact Hx. }
    pose proof (Qfloor_le (x / 5)) as Hfl.
    assert (Hz : (inject_Z (Qfloor (x / 5)) < inject_Z 1)%Q)
      by (eapply Qle_lt_trans; [exact Hfl|exact Hlt]).
    rewrite <- Zlt_Qlt in Hz. lia.
  - assert (Hle : (1 <= x / 5)%Q).
    { apply Qle_shift_div_l; [reflexivity|]. rewrite Qmult_1_l. exact Hx. }
    pose proof (Qfloor_resp_le _ _ Hle) as Hfl.
    change (Qfloor 1) with 1 in Hfl. lia.
Qed.


Section PlyRoundTrip.
Context {F : Type} `{!FloatOps F}.

Lemma parse_header_loop_properties (cols names : list string) (n : nat)
  (rest : text_file) :
  parse_header_loop
    ((property_line <$> cols) ++ ["end_header"%string] :: rest) (Some n) names
  = Some (names ++ cols, Some n, rest).
Proof.
  revert names. induction cols as [|c cols IH]; intros names.
  - cbn. rewrite app_nil_r. reflexivity.
  - cbn [fmap list_fmap app]. unfold property_line at 1.
    cbn [parse_header_loop].
    change (String.eqb "property" "element") with false.
    change (String.eqb "property" "property") with true.
    cbn [andb bool_decide].
    replace (bool_decide (is_Some (Some n))) with true
      by (symmetry; apply bool_decide_eq_true; eauto).
    replace (bool_decide
               ((if is_rgb_name c then "uchar" else "float")%string
                ∈ ply_dtypes)) with true
      by (destruct (is_rgb_name c); reflexivity).
    rewrite IH, <- (assoc_L (++)). reflexivity.
Qed.

Lemma savetxt_row_fmap (cols : list string) (f : string -> cell F) :
  savetxt_row cols (f <$> cols)
  = (fun c => if is_rgb_name c then fmt_d (to_float (astype_uint8 (f c)))
              else fmt_f (to_float (f c))) <$> cols.
Proof.
  unfold savetxt_row. induction cols as [|c cols IH]; [reflexivity|].
  cbn. rewrite IH. reflexivity.
Qed.

Lemma mapM_fmap_Some {A B C} (f : B -> option C) (g : A -> B) (h : A -> C)
  (l : list A) :
  (forall a, a ∈ l -> f (g a) = Some (h a)) ->
  mapM f (g <$> l) = Some (h <$> l).
Proof.
  induction l as [|a l IH]; intros Hall; [reflexivity|].
  cbn. rewrite (Hall a) by left. cbn.
  rewrite IH by (intros a' Ha'; apply Hall; right; exact Ha'). reflexivity.
Qed.

Lemma PlyIO_write_nonempty (df : DataFrame F) :
  df_empty df = false ->
  PlyIO_write df
  = [["ply"]; ["format"; "ascii"; "1.0"];
     ["element"; "vertex"; str_of_nat (length (rows df))]]%string
    ++ (property_line <$> columns df)
    ++ ["end_header"%string] :: (savetxt_row (columns df) <$> rows df).
Proof.
  unfold PlyIO_write. intros ->. cbv zeta.
  rewrite <- !(assoc_L (++)). reflexivity.
Qed.

(** The file written for the substituted frame reads back as one row. *)
Lemma read_back_dummy_frame (cols : list string) (cx cy cz : F)
  (rx ry rz zero_f zero_d : F) :
  cols <> [] ->
  parse_float (fmt_f cx) = Some rx ->
  parse_float (fmt_f cy) = Some ry ->
  parse_float (fmt_f cz) = Some rz ->
  parse_float (fmt_f (of_Z 0)) = Some zero_f ->
  parse_float (fmt_d (of_Z 0)) = Some zero_d ->
  PlyIO_read (PlyIO_write (dummy_frame cols cx cy cz))
  = ReadOk (placeholder_read_back cols rx ry rz zero_f zero_d).
Proof.
  intros Hne Hx Hy Hz Hf Hd.
  rewrite PlyIO_write_nonempty by (destruct cols; [done|reflexivity]).
  cbn [dummy_frame columns rows length fmap list_fmap].
  rewrite savetxt_row_fmap.
  set (tok := fun c : string => _).
  unfold PlyIO_read, parse_header.
  cbn [app].
  change (contains_ply ["ply"%string]) with true. cbn match.
  change (bool_decide ("ascii"%string ∈ _)) with true. cbn match.
  cbn [parse_header_loop].
  change (String.eqb "element" "element") with true.
  change (String.eqb "vertex" "vertex") with true.
  change (int_of_str (str_of_nat 1)) with (Some 1%nat).
  cbn match.
  rewrite parse_header_loop_properties. cbn [app].
  change (String.eqb "ascii" "ascii") with true. cbn match.
  assert (Hrow : mapM parse_float (tok <$> cols)
                 = Some ((fun c => if String.eqb c "x" then rx
                                   else if String.eqb c "y" then ry
                                   else if String.eqb c "z" then rz
                                   else if is_rgb_name c then zero_d
                                   else zero_f) <$> cols)).
  { apply mapM_fmap_Some. intros c _. subst tok. cbn beta.
    destruct (String.eqb_spec c "x") as [->|_]; [exact Hx|].
    destruct (String.eqb_spec c "y") as [->|_]; [exact Hy|].
    destruct (String.eqb_spec c "z") as [->|_]; [exact Hz|].
    destruct (is_rgb_name c); [exact Hd|exact Hf]. }
  destruct cols as [|c cols]; [done|].
  cbn [read_rows fmap list_fmap] in *.
  rewrite Hrow. cbn.
  rewrite !length_fmap, Nat.eqb_refl. cbn.
  unfold placeholder_read_back. rewrite <- list_fmap_compose. reflexivity.
Qed.

End PlyRoundTrip.

Section EmptyTile.
Context {F : Type} `{!FloatOps F}.

Lemma filter_zip_not_in (rows_ : list (list (cell F))) (ids : list Z) (t : Z) :
  t ∉ ids ->
  filter (fun p : list (cell F) * Z => p.2 = t) (zip rows_ ids) = [].
Proof.
  revert ids. induction rows_ as [|r rows_ IH]; intros [|i ids] Hin;
    try reflexivity.
  cbn [zip zip_with]. rewrite filter_cons.
  destruct (decide ((r, i).2 = t)) as [Heq|_].
  - exfalso. apply Hin. cbn in Heq. subst. left.
  - apply IH. intros Hin'. apply Hin. right. exact Hin'.
Qed.

Lemma tile_frame_empty (df : DataFrame F) (tile_ids : list Z)
  (cols : list string) (cx cy cz : F) (t : Z) :
  t ∉ tile_ids ->
  tile_frame df tile_ids cols cx cy cz t = dummy_frame cols cx cy cz.
Proof.
  intros Hin. unfold tile_frame. rewrite filter_zip_not_in by exact Hin.
  unfold df_empty. cbn. destruct (columns df); reflexivity.
Qed.


End EmptyTile.


End TilingArith.

(** ** The job list *)

Section Jobs.
Local Open Scope nat_scope.

Lemma normalize_from_triples (qps : list QPConfig) (idx : nat) :
  normalize_from idx (triple_entry <$> qps) = Returned qps.
Proof.
  revert idx. induction qps as [|[[occ geo] attr] qps IH]; intros idx;
    [reflexivity|].
  cbn [fmap list_fmap normalize_from triple_entry normalize_pair].
  rewrite IH. reflexivity.
Qed.

Lemma normalize_qp_pairs_triples (qps : list QPConfig) :
  qps <> [] -> normalize_qp_pairs (triple_entry <$> qps) = Returned qps.
Proof.
  intros Hne. unfold normalize_qp_pairs.
  destruct qps as [|qp qps]; [done|].
  apply (normalize_from_triples (qp :: qps)).
Qed.

Lemma scan_frames_acc (frame_files : list string) (width : nat)
  (acc : list N) :
  exists width' more,
    fold_left (fun '(width, frame_indices) fp =>
                 match search_trailing_digits (stem fp) with
                 | Some (_, digits) =>
                   (Nat.max width (String.length digits),
                    frame_indices ++ [int_of_digits digits])
                 | None => (width, frame_indices)
                 end) frame_files (width, acc)
    = (width', acc ++ more).
Proof.
  revert width acc. induction frame_files as [|fp fps IH]; intros width acc.
  - exists width, []. rewrite app_nil_r. reflexivity.
  - cbn [fold_left].
    destruct (search_trailing_digits (stem fp)) as [[p ds]|].
    + destruct (IH (Nat.max width (String.length ds))
                  (acc ++ [int_of_digits ds])) as (w' & more & ->).
      exists w', (int_of_digits ds :: more).
      rewrite <- (assoc_L (++)). reflexivity.
    + apply IH.
Qed.

Lemma derive_frame_sequence_ok (d : string) (frame_files : list string) :
  first_frame_numbered (d, frame_files) ->
  exists pattern start_frame frame_count,
    derive_frame_sequence d frame_files
    = Returned (pattern, start_frame, frame_count).
Proof.
  intros (first & rest & prefix & digits & Hfiles & Hm). cbn in Hfiles.
  subst frame_files. unfold derive_frame_sequence. rewrite Hm.
  unfold scan_frames. cbn [fold_left]. rewrite Hm.
  destruct (scan_frames_acc rest
              (Nat.max (String.length digits) (String.length digits))
              ([] ++ [int_of_digits digits])) as (w' & more & ->).
  cbn [app]. eauto.
Qed.

Lemma build_tile_infos_inv base thr (tile_dirs : list tile_dir) infos :
  build_tile_infos base thr tile_dirs = Returned infos ->
  Forall2 (info_of base thr) tile_dirs infos.
Proof.
  revert infos. induction tile_dirs as [|[d files] tds IH]; intros infos Hb.
  - injection Hb as <-. constructor.
  - cbn [build_tile_infos] in Hb.
    destruct (derive_frame_sequence d files) as [[[pattern start] count]|e|]
      eqn:Hd; [|destruct e; discriminate|discriminate].
    destruct (build_tile_infos base thr tds) as [infos'| |]; try discriminate.
    injection Hb as <-. constructor; [|apply IH; reflexivity].
    split; [reflexivity|]. cbn. eauto.
Qed.

Lemma build_tile_infos_ok base thr (tile_dirs : list tile_dir) :
  Forall first_frame_numbered tile_dirs ->
  exists infos,
    build_tile_infos base thr tile_dirs = Returned infos /\
    Forall2 (info_of base thr) tile_dirs infos.
Proof.
  induction 1 as [|[d files] tds Hfirst _ (infos & Hb & Hall)].
  - exists []. split; [reflexivity|constructor].
  - destruct (derive_frame_sequence_ok d files Hfirst)
      as (pattern & start & count & Hd).
    cbn [build_tile_infos]. rewrite Hd, Hb.
    eexists. split; [reflexivity|].
    constructor; [|exact Hall]. split; [reflexivity|]. cbn. eauto.
Qed.

Lemma build_tasks_from_lookup (k : nat) (qps : list QPConfig)
  (infos : list tile_info) (q t : nat) (qp : QPConfig) (info : tile_info) :
  qps !! q = Some qp -> infos !! t = Some info ->
  mjoin (imap (fun qp_idx qp =>
                 (fun info => (k + qp_idx, dir info, params info, qp))
                   <$> infos) qps)
  !! (q * length infos + t)
  = Some (k + q, dir info, params info, qp).
Proof.
  revert k q. induction qps as [|qp0 qps IH]; intros k q Hq Ht; [done|].
  cbn [imap mjoin list_join].
  destruct q as [|q].
  - injection Hq as ->. cbn [Nat.mul Nat.add].
    rewrite lookup_app_l by (rewrite length_fmap; eapply lookup_lt_Some; eauto).
    rewrite list_lookup_fmap, Ht, Nat.add_0_r. reflexivity.
  - cbn [lookup list_lookup] in Hq.
    rewrite lookup_app_r by (rewrite length_fmap; cbn; lia).
    rewrite length_fmap.
    replace (S q * length infos + t - length infos)
      with (q * length infos + t) by (cbn; lia).
    specialize (IH (S k) q Hq Ht).
    replace (k + S q) with (S k + q) by lia. rewrite <- IH.
    f_equal. f_equal. apply imap_ext. intros i x _. cbn.
    replace (k + S i) with (S (k + i)) by lia. reflexivity.
Qed.

Lemma build_tasks_lookup (qps : list QPConfig) (infos : list tile_info)
  (q t : nat) (qp : QPConfig) (info : tile_info) :
  qps !! q = Some qp -> infos !! t = Some info ->
  build_tasks qps infos !! (q * length infos + t)
  = Some (q, dir info, params info, qp).
Proof. apply (build_tasks_from_lookup 0). Qed.

Lemma build_tasks_from_length (k : nat) (qps : list QPConfig)
  (infos : list tile_info) :
  length (mjoin (imap (fun qp_idx qp =>
                         (fun info => (k + qp_idx, dir info, params info, qp))
                           <$> infos) qps))
  = length qps * length infos.
Proof.
  revert k. induction qps as [|qp qps IH]; intros k; [reflexivity|].
  cbn [imap mjoin list_join length Nat.mul].
  rewrite length_app, length_fmap. f_equal.
  rewrite <- (IH (S k)). f_equal. f_equal. apply imap_ext. intros i x _. cbn.
  replace (k + S i) with (S (k + i)) by lia. reflexivity.
Qed.

Lemma build_tasks_length (qps : list QPConfig) (infos : list tile_info) :
  length (build_tasks qps infos) = length qps * length infos.
Proof. apply (build_tasks_from_length 0). Qed.

Lemma build_tasks_elem (qps : list QPConfig) (infos : list tile_info)
  (tk : task) :
  tk ∈ build_tasks qps infos ->
  exists q qp info,
    qps !! q = Some qp /\ info ∈ infos /\
    tk = (q, dir info, params info, qp).
Proof.
  unfold build_tasks. intros Hin.
  apply list_elem_of_join in Hin as (row & Htk & Hrow).
  apply elem_of_lookup_imap in Hrow as (q & qp & -> & Hq).
  apply list_elem_of_fmap in Htk as (info & -> & Hinfo).
  eauto 10.
Qed.

Lemma lookup_setdefault (k k' : string) (v : pyval) (d : gmap string pyval) :
  setdefault k v d !! k'
  = match d !! k' with
    | Some x => Some x
    | None => if decide (k = k') then Some v else None
    end.
Proof.
  unfold setdefault. destruct (d !! k) as [x|] eqn:Hk.
  - destruct (d !! k') as [x'|] eqn:Hk'; [reflexivity|].
    destruct (decide (k = k')) as [->|_]; [congruence|reflexivity].
  - rewrite lookup_insert. destruct (decide (k = k')) as [->|_].
    + rewrite Hk. reflexivity.
    + destruct (d !! k'); reflexivity.
Qed.

Lemma lookup_tile_params_of base thr pattern start count (k : string) :
  tile_params_of base thr pattern start count !! k
  = match (if truthy thr && bool_decide (k = "nbThread"%string)
           then VInt <$> thr else base !! k) with
    | Some x => Some x
    | None =>
      if decide (k = "uncompressedDataPath"%string) then Some (VStr pattern)
      else if decide (k = "startFrameNumber"%string)
           then Some (VInt (Z.of_N start))
      else if decide (k = "frameCount"%string)
           then Some (VInt (Z.of_nat count))
      else None
    end.
Proof.
  unfold tile_params_of. rewrite !lookup_setdefault.
  set (tp := match thr with
             | Some n => if (n =? 0)%Z then base
                         else <["nbThread"%string:=VInt n]> base
             | None => base
             end).
  assert (Htp : tp !! k
                = if truthy thr && bool_decide (k = "nbThread"%string)
                  then VInt <$> thr else base !! k).
  { subst tp. destruct thr as [n|]; [|reflexivity]. cbn [truthy].
    destruct (n =? 0)%Z; cbn [negb andb]; [reflexivity|].
    rewrite lookup_insert.
    destruct (decide ("nbThread"%string = k)) as [<-|Hne].
    - rewrite bool_decide_eq_true_2 by reflexivity. reflexivity.
    - rewrite bool_decide_eq_false_2 by congruence. reflexivity. }
  rewrite Htp.
  destruct (if truthy thr && bool_decide (k = "nbThread"%string)
            then VInt <$> thr else base !! k) as [x|]; [reflexivity|].
  destruct (decide ("frameCount"%string = k)) as [<-|H1].
  - reflexivity.
  - destruct (decide ("startFrameNumber"%string = k)) as [<-|H2].
    + reflexivity.
    + destruct (decide ("uncompressedDataPath"%string = k)) as [<-|H3].
      * reflexivity.
      * rewrite !decide_False by congruence. reflexivity.
Qed.

Lemma params_with_qp_job_parameters qp_idx d base thr pattern start count
  (qp : QPConfig) :
  job_parameters base thr pattern start count qp
    (params_with_qp
       (qp_idx, d, tile_params_of base thr pattern start count, qp)).
Proof.
  destruct qp as [[occ geo] attr]. unfold job_parameters, params_with_qp.
  repeat split.
  - rewrite lookup_insert_ne, lookup_insert_ne by done.
    apply lookup_insert_eq.
  - rewrite lookup_insert_ne by done. apply lookup_insert_eq.
  - apply lookup_insert_eq.
  - intros k v Hk Hth Hb. unfold qp_keys in Hk.
    rewrite !not_elem_of_cons in Hk. destruct Hk as (K1 & K2 & K3 & _).
    rewrite !lookup_insert_ne by congruence.
    rewrite lookup_tile_params_of.
    replace (truthy thr && bool_decide (k = "nbThread"%string)) with false.
    + rewrite Hb. reflexivity.
    + destruct Hth as [Hne| ->]; [|reflexivity].
      rewrite bool_decide_eq_false_2 by exact Hne. rewrite andb_false_r.
      reflexivity.
  - intros n -> Hn. rewrite !lookup_insert_ne by done.
    rewrite lookup_tile_params_of. cbn [truthy].
    rewrite bool_decide_eq_true_2 by reflexivity.
    destruct (Z.eqb_spec n 0); [contradiction|]. reflexivity.
  - intros Hb. rewrite !lookup_insert_ne by done.
    rewrite lookup_tile_params_of.
    rewrite bool_decide_eq_false_2 by done. rewrite andb_false_r, Hb.
    reflexivity.
  - intros Hb. rewrite !lookup_insert_ne by done.
    rewrite lookup_tile_params_of.
    rewrite bool_decide_eq_false_2 by done. rewrite andb_false_r, Hb.
    reflexivity.
  - intros Hb. rewrite !lookup_insert_ne by done.
    rewrite lookup_tile_params_of.
    rewrite bool_decide_eq_false_2 by done. rewrite andb_false_r, Hb.
    reflexivity.
  - intros k Hk Hi Hn. unfold qp_keys in Hk. unfold inferred_keys in Hi.
    rewrite !not_elem_of_cons in Hk. destruct Hk as (K1 & K2 & K3 & _).
    rewrite !not_elem_of_cons in Hi. destruct Hi as (I1 & I2 & I3 & _).
    rewrite !lookup_insert_ne by congruence.
    rewrite lookup_tile_params_of.
    rewrite bool_decide_eq_false_2 by exact Hn. rewrite andb_false_r.
    rewrite !decide_False by congruence.
    destruct (base !! k); reflexivity.
Qed.

Lemma encode_tiles_tasks_inv tiles_root tile_dirs qp_pairs base thr tasks :
  encode_tiles_tasks tiles_root true false tile_dirs qp_pairs base thr
  = Returned (Tasks tasks) ->
  exists normalized infos,
    normalize_qp_pairs qp_pairs = Returned normalized /\
    Forall2 (info_of base thr) tile_dirs infos /\
    tasks = build_tasks normalized infos.
Proof.
  unfold encode_tiles_tasks.
  destruct (normalize_qp_pairs qp_pairs) as [normalized| |]; try discriminate.
  cbn [negb]. destruct tile_dirs as [|td tds]; [discriminate|].
  destruct (build_tile_infos base thr (td :: tds)) as [infos| |] eqn:Hb;
    try discriminate.
  intros [= <-]. exists normalized, infos.
  split; [reflexivity|]. split; [|reflexivity].
  apply build_tile_infos_inv. exact Hb.
Qed.

(** C9, amended.  For every job of a run, the parameters handed to the
    encoder bind the three QP keys to the job's QPConfig; every other key of
    the base parameters keeps its base value ([nbThread] is replaced by
    [threads_per_instance] when that is set); the values inferred from the
    tile directory are bound only for keys the base parameters leave
    out. *)
Theorem job_parameters_precedence (tiles_root : string)
  (tile_dirs : list tile_dir) (qp_pairs : list qp_pair)
  (base_params : gmap string pyval) (threads_per_instance : option Z)
  (tasks : list task) (tk : task) :
  encode_tiles_tasks tiles_root true false tile_dirs qp_pairs base_params
    threads_per_instance = Returned (Tasks tasks) ->
  tk ∈ tasks ->
  exists files pattern start_frame frame_count,
    (tk.1.1.2, files) ∈ tile_dirs /\
    derive_frame_sequence tk.1.1.2 files
    = Returned (pattern, start_frame, frame_count) /\
    job_parameters base_params threads_per_instance pattern start_frame
      frame_count tk.2 (params_with_qp tk).
Proof.
  intros Hrun Hin.
  apply encode_tiles_tasks_inv in Hrun as (normalized & infos & _ & Hall & ->).
  apply build_tasks_elem in Hin as (q & qp & info & _ & Hinfo & ->).
  apply list_elem_of_lookup in Hinfo as [t Ht].
  destruct (Forall2_lookup_r _ _ _ _ _ Hall Ht)
    as ([d files] & Htd & Hd & pattern & start & count & Hder & Hpar).
  cbn in Hd, Hder. cbn [fst snd]. rewrite Hd.
  exists files, pattern, start, count.
  split; [eapply list_elem_of_lookup_2; exact Htd|].
  split; [exact Hder|].
  rewrite Hpar. apply params_with_qp_job_parameters.
Qed.

(** C9, as stated, fails: [frameCount] is in the base parameters (250) and
    among the inferred values (10), and the job is run with 250. *)
Lemma base_parameter_beats_inferred :
  exists tk,
    encode_tiles_tasks "tiles" true false [("tiles/tile_0"%string, frames10)]
      [QpSeq [24; 32; 43]%Z] {["frameCount"%string := VInt 250]} None
    = Returned (Tasks [tk]) /\
    derive_frame_sequence "tiles/tile_0" frames10
    = Returned ("f%04d.ply"%string, 0%N, 10) /\
    params_with_qp tk !! "frameCount"%string = Some (VInt 250).
Proof.
  eexists. split; [vm_compute; reflexivity|].
  split; vm_compute; reflexivity.
Qed.

(** C8, amended.  Given at least one tile directory, each one's first
    [*.ply] file (in sorted order) ending in digits, and a non-empty list of
    QPConfig triples, the job list has T*Q entries, the job at position
    [q * T + t] being tile [t] with QPConfig [q].  For [(24, 32, 43)] and one
    directory holding [f0000.ply .. f0009.ply] the pattern is [f%04d.ply],
    the start frame 0, the frame count 10, and there is one job. *)
Theorem job_list_is_tiles_times_qps :
  (forall (tiles_root : string) (tile_dirs : list tile_dir)
          (qps : list QPConfig) (base_params : gmap string pyval)
          (threads_per_instance : option Z),
     tile_dirs <> [] -> qps <> [] ->
     Forall first_frame_numbered tile_dirs ->
     exists infos tasks,
       encode_tiles_tasks tiles_root true false tile_dirs
         (triple_entry <$> qps) base_params threads_per_instance
       = Returned (Tasks tasks) /\
       Forall2 (info_of base_params threads_per_instance) tile_dirs infos /\
       length tasks = length tile_dirs * length qps /\
       forall q t qp info,
         qps !! q = Some qp -> infos !! t = Some info ->
         tasks !! (q * length tile_dirs + t)
         = Some (q, dir info, params info, qp))
  /\
  (forall (tiles_root d : string) (base_params : gmap string pyval)
          (threads_per_instance : option Z),
     derive_frame_sequence d frames10
     = Returned ("f%04d.ply"%string, 0%N, 10) /\
     exists tk,
       encode_tiles_tasks tiles_root true false [(d, frames10)]
         (triple_entry <$> [(24, 32, 43)%Z]) base_params threads_per_instance
       = Returned (Tasks [tk])).
Proof.
  split.
  - intros tiles_root tile_dirs qps base thr Htd Hqp Hfirst.
    destruct (build_tile_infos_ok base thr tile_dirs Hfirst)
      as (infos & Hb & Hall).
    exists infos, (build_tasks qps infos).
    pose proof (Forall2_length _ _ _ Hall) as Hlen.
    unfold encode_tiles_tasks.
    rewrite (normalize_qp_pairs_triples qps Hqp). cbn [negb].
    destruct tile_dirs as [|td tds]; [done|]. rewrite Hb.
    split; [reflexivity|]. split; [exact Hall|]. split.
    + rewrite build_tasks_length, Hlen. lia.
    + intros q t qp info Hq Ht. rewrite Hlen.
      apply build_tasks_lookup; assumption.
  - intros tiles_root d base thr. split; [reflexivity|].
    eexists. reflexivity.
Qed.

(** C8, as stated, fails: a directory holding [abc.ply] and [f0001.ply] has
    a numbered frame, but its first file has no number and the run raises;
    so do a run on no tile directory and a run on no QPConfig. *)
Lemma numbered_frame_after_first_is_rejected :
  String.leb "abc.ply" "f0001.ply" = true /\
  search_trailing_digits (stem "f0001.ply")
  = Some ("f"%string, "0001"%string) /\
  encode_tiles_tasks "tiles" true false
    [("tiles/tile_0"%string, ["abc.ply"; "f0001.ply"]%string)]
    (triple_entry <$> [(24, 32, 43)%Z]) ∅ None
  = Raised (ValueError
              "Tile tiles/tile_0 is invalid: tiles/tile_0: unable to infer numbering pattern from abc") /\
  encode_tiles_tasks "tiles" true false [] (triple_entry <$> [(24, 32, 43)%Z])
    ∅ None
  = Raised (ValueError "No tile directories found in tiles") /\
  encode_tiles_tasks "tiles" true false
    [("tiles/tile_0"%string, frames10)] (triple_entry <$> []) ∅ None
  = Raised (ValueError "qp_pairs cannot be empty").
Proof. repeat split; vm_compute; reflexivity. Qed.

End Jobs.

(** ** Further properties of the same functions *)

Section Further.
Local Open Scope N_scope.

(** X1.  Iterating [parse_v3c_units] always ends, by exhaustion or by an
    exception: the fuel of the model is never used up. *)
Theorem parse_v3c_units_ends (data : list byte) :
  exists units,
    parse_v3c_units data = (units, Returned tt) \/
    exists e, parse_v3c_units data = (units, Raised e).
Proof.
  pose proof (parse_v3c_units_terminates data) as Hfuel.
  destruct (parse_v3c_units data) as [units [[]|e|]]; cbn [snd] in Hfuel.
  - exists units. left. reflexivity.
  - exists units. right. exists e. reflexivity.
  - contradiction.
Qed.

Lemma parse_loop_zero_size fuel L pre size_field rest :
  N.of_nat (length size_field) = L ->
  from_bytes_big size_field = 0 ->
  parse_loop (S fuel) (pre ++ size_field ++ rest) L (N.of_nat (length pre))
  = ([], Raised IndexError).
Proof.
  intros <- Hzero. rewrite parse_loop_S. cbv zeta.
  rewrite slice_middle, Hzero, !length_app.
  destruct (N.leb_spec (N.of_nat (length pre) + N.of_nat (length size_field))
              (N.of_nat (length pre + (length size_field + length rest))));
    [|lia].
  destruct (N.ltb_spec
              (N.of_nat (length pre + (length size_field + length rest)))
              (N.of_nat (length pre) + N.of_nat (length size_field) + 0));
    [lia|].
  replace (slice (pre ++ size_field ++ rest)
             (N.of_nat (length pre) + N.of_nat (length size_field))
             (N.of_nat (length pre) + N.of_nat (length size_field) + 0))
    with (@nil byte); [reflexivity|].
  unfold slice.
  replace (N.of_nat (length pre) + N.of_nat (length size_field) + 0
           - (N.of_nat (length pre) + N.of_nat (length size_field)))
    with 0 by lia.
  reflexivity.
Qed.

(** X2.  A unit whose size field holds 0 has no type byte: after the
    complete units before it are yielded, [payload[0]] raises
    [IndexError]. *)
Theorem parse_zero_size_unit (header : byte) (mid : list byte)
  (us : list v3c_unit) (size_field rest : list byte) :
  frames (size_len_of header) mid us ->
  N.of_nat (length size_field) = size_len_of header ->
  from_bytes_big size_field = 0 ->
  parse_v3c_units (header :: mid ++ size_field ++ rest)
  = (us, Raised IndexError).
Proof.
  intros Hfr HL Hzero.
  destruct (parse_v3c_units_frames header mid us (size_field ++ rest) Hfr)
    as [fuel ->].
  rewrite (assoc_L (++) [header] mid).
  rewrite parse_loop_zero_size, app_nil_r by assumption. reflexivity.
Qed.

Lemma parse_zero_size_unit_witness :
  parse_v3c_units [x00; x00]%byte = ([], Raised IndexError).
Proof.
  apply (parse_zero_size_unit x00 [] [] [x00]%byte []);
    [apply frames_nil|reflexivity|reflexivity].
Defined.

(** X3.  Distinct segment indices are written under distinct names. *)
Theorem seg_name_distinct (i j : nat) : seg_name i = seg_name j -> i = j.
Proof. apply seg_name_inj. Qed.

Lemma seg_name_distinct_witness : 3%nat = 3%nat.
Proof. apply (seg_name_distinct 3 3). reflexivity. Defined.

Local Open Scope Z_scope.

Lemma Q_py_max_eps (a : Q) : (eps9 <= py_max a eps9)%Q.
Proof.
  unfold py_max. cbn [flt Q_ops].
  destruct (Qle_bool eps9 a) eqn:Hle; cbn [negb].
  - apply Qle_bool_iff. exact Hle.
  - apply Qle_refl.
Qed.

(** X4.  In exact arithmetic the cell sizes are at least 1e-9, which is
    positive, whatever the extent (also when a maximum equals its
    minimum). *)
Theorem cell_sizes_at_least_eps (tg : TileGenerator)
  (xmin ymin zmin xmax ymax zmax : Q) :
  let b := make_boundaries_meta tg xmin ymin zmin xmax ymax zmax in
  (0 < eps9 /\ eps9 <= dx b /\ eps9 <= dy b /\ eps9 <= dz b)%Q.
Proof.
  cbv zeta. split; [reflexivity|].
  repeat split; apply Q_py_max_eps.
Qed.

(** X5.  [PlyIO.write] given a frame without rows writes the one point
    (-1, -1, -1, 0, 0, 0); in exact arithmetic it reads back as that
    point. *)
Theorem write_empty_frame_substitutes_point (cols : list string) :
  PlyIO_write (F:=Q) (Build_DataFrame cols [])
  = PlyIO_write (F:=Q)
      (Build_DataFrame ["x"; "y"; "z"; "r"; "g"; "b"]%string
         [[CInt (-1); CInt (-1); CInt (-1); CInt 0; CInt 0; CInt 0]]) /\
  PlyIO_read (F:=Q) (PlyIO_write (Build_DataFrame cols []))
  = ReadOk (Build_DataFrame ["x"; "y"; "z"; "r"; "g"; "b"]%string
              [[CFloat (-1)%Q; CFloat (-1)%Q; CFloat (-1)%Q;
                CFloat 0%Q; CFloat 0%Q; CFloat 0%Q]]).
Proof.
  assert (H : PlyIO_write (F:=Q) (Build_DataFrame cols [])
              = PlyIO_write (F:=Q)
                  (Build_DataFrame ["x"; "y"; "z"; "r"; "g"; "b"]%string
                     [[CInt (-1); CInt (-1); CInt (-1);
                       CInt 0; CInt 0; CInt 0]])).
  { unfold PlyIO_write.
    replace (df_empty (Build_DataFrame (F:=Q) cols [])) with true
      by (destruct cols; reflexivity).
    reflexivity. }
  split; [exact H|]. rewrite H. vm_compute. reflexivity.
Qed.

(** X6.  [_normalize_qp_pairs] rejects an empty list, and an entry given as
    a dict that lacks one of the three keys. *)
Theorem normalize_rejects_malformed :
  normalize_qp_pairs [] = Raised (ValueError "qp_pairs cannot be empty") /\
  forall (d : gmap string Z) (rest : list qp_pair),
    d !! "occupancyMapQP"%string = None \/
    d !! "geometryQP"%string = None \/
    d !! "attributeQP"%string = None ->
    normalize_qp_pairs (QpDict d :: rest)
    = Raised (ValueError
                "qp_pairs[0] missing occupancyMapQP and/or geometryQP and/or attributeQP").
Proof.
  split; [reflexivity|]. intros d rest Hmiss.
  unfold normalize_qp_pairs. cbn [normalize_from normalize_pair].
  destruct (d !! "occupancyMapQP"%string), (d !! "geometryQP"%string),
    (d !! "attributeQP"%string); try reflexivity.
  destruct Hmiss as [H|[H|H]]; discriminate H.
Qed.

End Further.

Section ParserComposition.
Local Open Scope N_scope.

Lemma slice_app_shift (pre rest : list byte) (a b : N) :
  slice (pre ++ rest) (N.of_nat (length pre) + a) (N.of_nat (length pre) + b)
  = slice rest a b.
Proof.
  unfold slice.
  replace (N.of_nat (length pre) + b - (N.of_nat (length pre) + a))
    with (b - a) by lia.
  replace (N.to_nat (N.of_nat (length pre) + a))
    with (length pre + N.to_nat a)%nat by lia.
  rewrite drop_app_add. reflexivity.
Qed.

(** One step of the loop at offset [|pre| + k] of [pre ++ rest], written
    over [rest] alone. *)
Lemma parse_loop_S_shift fuel (pre rest : list byte) L k :
  parse_loop (S fuel) (pre ++ rest) L (N.of_nat (length pre) + k) =
  if k + L <=? N.of_nat (length rest) then
    let size := from_bytes_big (slice rest k (k + L)) in
    if N.of_nat (length rest) <? k + L + size
    then ([], Raised (ValueError "Truncated unit"))
    else
      match slice rest (k + L) (k + L + size) with
      | [] => ([], Raised IndexError)
      | p0 :: _ =>
        let '(units, e) :=
          parse_loop fuel (pre ++ rest) L
            (N.of_nat (length pre) + (k + L + size)) in
        ((unit_type_of p0, slice rest k (k + L + size)) :: units, e)
      end
  else ([], Returned tt).
Proof.
  rewrite parse_loop_S. cbv zeta. rewrite length_app, Nat2N.inj_add.
  rewrite <- !N.add_assoc, !slice_app_shift.
  destruct (N.leb_spec (N.of_nat (length pre) + (k + L))
              (N.of_nat (length pre) + N.of_nat (length rest)));
    destruct (N.leb_spec (k + L) (N.of_nat (length rest))); try lia;
    [|reflexivity].
  set (size := from_bytes_big (slice rest k (k + L))).
  destruct (N.ltb_spec (N.of_nat (length pre) + N.of_nat (length rest))
              (N.of_nat (length pre) + (k + (L + size))));
    destruct (N.ltb_spec (N.of_nat (length rest)) (k + (L + size)));
    try lia; reflexivity.
Qed.

(** The loop looks only at the bytes from its offset on. *)
Lemma parse_loop_shift fuel :
  forall (pre pre' rest : list byte) L k,
    parse_loop fuel (pre ++ rest) L (N.of_nat (length pre) + k)
    = parse_loop fuel (pre' ++ rest) L (N.of_nat (length pre') + k).
Proof.
  induction fuel as [|fuel IH]; intros pre pre' rest L k; [reflexivity|].
  rewrite !parse_loop_S_shift. cbv zeta.
  destruct (k + L <=? N.of_nat (length rest)); [|reflexivity].
  destruct (N.of_nat (length rest) <? _); [reflexivity|].
  destruct (slice rest (k + L) _); [reflexivity|].
  rewrite (IH pre pre'). reflexivity.
Qed.

(** More fuel than needed changes nothing. *)
Lemma parse_loop_fuel_mono fuel :
  forall data L offset fuel',
    (parse_loop fuel data L offset).2 <> OutOfFuel ->
    (fuel <= fuel')%nat ->
    parse_loop fuel' data L offset = parse_loop fuel data L offset.
Proof.
  induction fuel as [|fuel IH]; intros data L offset fuel' Hne Hle.
  - exfalso. apply Hne. reflexivity.
  - destruct fuel' as [|fuel']; [lia|].
    rewrite !parse_loop_S in *. cbv zeta in *.
    destruct (offset + L <=? N.of_nat (length data)); [|reflexivity].
    destruct (N.of_nat (length data) <? _); [reflexivity|].
    destruct (slice data (offset + L) _); [reflexivity|].
    rewrite (IH data L _ fuel'); [reflexivity| |lia].
    destruct (parse_loop fuel data L _). exact Hne.
Qed.

(** X7.  Parsing composes over complete units: on a stream that starts,
    after the header byte, with complete units, the parser yields those
    units and then goes on exactly as it would on the header byte followed
    by the rest of the stream. *)
Theorem parse_v3c_units_after_units (header : byte) (mid : list byte)
  (us : list v3c_unit) (tail : list byte) :
  frames (size_len_of header) mid us ->
  parse_v3c_units (header :: mid ++ tail)
  = let '(us', o) := parse_v3c_units (header :: tail) in (us ++ us', o).
Proof.
  intros Hfr. pose proof (frames_length _ _ _ Hfr) as Hlen.
  unfold parse_v3c_units.
  replace (length (header :: mid ++ tail))
    with (length us + S (length mid - length us + length tail))%nat
    by (cbn [length]; rewrite length_app; lia).
  change (header :: mid ++ tail) with ([header] ++ mid ++ tail).
  rewrite (parse_loop_frames _ _ _ Hfr [header] tail).
  rewrite (assoc_L (++) [header] mid).
  pose proof (parse_loop_shift (S (length mid - length us + length tail))
                ([header] ++ mid) [header] tail (size_len_of header) 0) as Hsh.
  rewrite !N.add_0_r in Hsh. rewrite Hsh.
  rewrite (parse_loop_fuel_mono (length (header :: tail))).
  - reflexivity.
  - apply parse_loop_enough_fuel; cbn [length app]; lia.
  - cbn [length]. lia.
Qed.

Lemma parse_v3c_units_after_units_witness :
  frames (size_len_of x00) [x02; x08; xff]%byte [(1, [x02; x08; xff]%byte)] /\
  parse_v3c_units ([x00; x02; x08; xff] ++ [x05; x01])%byte
  = let '(us', o) := parse_v3c_units [x00; x05; x01]%byte in
    ([(1, [x02; x08; xff]%byte)] ++ us', o).
Proof.
  assert (Hfr : frames (size_len_of x00) [x02; x08; xff]%byte
                  [(1, [x02; x08; xff]%byte)]).
  { apply (frames_cons 1 [x02]%byte x08 [xff]%byte [] []);
      [reflexivity|reflexivity|apply frames_nil]. }
  split; [exact Hfr|].
  apply (parse_v3c_units_after_units x00 _ _ [x05; x01]%byte Hfr).
Defined.

Lemma frames_app L a us b vs :
  frames L a us -> frames L b vs -> frames L (a ++ b) (us ++ vs).
Proof.
  induction 1 as [|sf p0 payload rest us HL Hsize Hfr IH]; intros Hb;
    [exact Hb|].
  rewrite <- (assoc_L (++) _ rest b). cbn [app].
  constructor; auto.
Qed.

Lemma frames_lookup L mid us :
  frames L mid us ->
  forall (k : nat) (u : v3c_unit), us !! k = Some u -> frames L u.2 [u].
Proof.
  induction 1 as [|sf p0 payload rest us HL Hsize Hfr IH]; intros k u Hk;
    [discriminate|].
  destruct k as [|k].
  - injection Hk as <-. cbn [snd].
    pose proof (frames_cons L sf p0 payload [] [] HL Hsize (frames_nil L))
      as Hone.
    rewrite app_nil_r in Hone. exact Hone.
  - exact (IH k u Hk).
Qed.

Lemma parse_v3c_units_of_frames header mid us :
  frames (size_len_of header) mid us ->
  parse_v3c_units (header :: mid) = (us, Returned tt).
Proof.
  intros Hfr. rewrite <- (app_nil_r mid).
  apply parse_v3c_units_short_tail; [exact Hfr|].
  pose proof (size_len_of_range header). cbn [length]. lia.
Qed.

(** Every unit a track yields is, on its own, one complete unit of the
    track's size-field width. *)
Lemma parsed_unit_frame header rest us (k : nat) (u : list byte) :
  parsed_units (header :: rest) = Some us ->
  us !! k = Some u ->
  exists ty, frames (size_len_of header) u [(ty, u)].
Proof.
  intros Hp Hk. apply parsed_units_Some in Hp as (units & Hrun & <-).
  rewrite list_lookup_fmap in Hk. unfold v3c_unit in *.
  destruct (units !! k) as [[ty bs]|] eqn:Hu; cbn in Hk; [|discriminate].
  injection Hk as <-. exists ty.
  unfold parse_v3c_units in Hrun.
  apply parse_loop_sound in Hrun; [|cbn [length]; lia].
  destruct Hrun as (mid & tail & _ & Hfr).
  exact (frames_lookup _ _ _ Hfr _ _ Hu).
Qed.

End ParserComposition.

Section MultiplexerMore.
Local Open Scope nat_scope.

Lemma size_len_at_Some files i h rest :
  files !! i = Some (h :: rest) -> size_len_at files i = Some (size_len_of h).
Proof. unfold size_len_at. intros ->. reflexivity. Qed.

Lemma size_len_at_inv files i data L :
  files !! i = Some data -> size_len_at files i = Some L ->
  exists h rest, data = h :: rest /\ size_len_of h = L.
Proof.
  unfold size_len_at. intros ->. cbn. destruct data as [|h rest]; cbn;
    [discriminate|]. intros [= <-]. eauto.
Qed.

Lemma parsed_units_lookup_nil (k : nat) (us : list (list byte)) u :
  parsed_units [] = Some us -> us !! k = Some u -> False.
Proof. intros [= <-]. discriminate. Qed.

(** X8.  The combined file is itself a well-formed sample stream: when the
    occupancy, geometry and attribute files of index [i] declare the same
    size-field width as the atlas file, the bytes written for [i] parse,
    without error, to exactly five units: atlas units 0 and 1, then unit 1
    of the occupancy, geometry and attribute files. *)
Theorem combined_segment_parses_back (t : track_files) (i : nat)
  (c : list byte) :
  segment_bytes t i c ->
  size_len_at (occp t) i = size_len_at (atlas t) i ->
  size_len_at (geom t) i = size_len_at (atlas t) i ->
  size_len_at (attr t) i = size_len_at (atlas t) i ->
  exists us,
    parsed_units c = Some us /\ length us = 5 /\
    take 1 c ++ concat us = c /\
    (forall data units, atlas t !! i = Some data ->
       parsed_units data = Some units ->
       us !! 0 = units !! 0 /\ us !! 1 = units !! 1) /\
    (forall data units, occp t !! i = Some data ->
       parsed_units data = Some units -> us !! 2 = units !! 1) /\
    (forall data units, geom t !! i = Some data ->
       parsed_units data = Some units -> us !! 3 = units !! 1) /\
    (forall data units, attr t !! i = Some data ->
       parsed_units data = Some units -> us !! 4 = units !! 1).
Proof.
  intros (header & atlas_rest & occp_data & geom_data & attr_data
          & atlas_units & occp_units & geom_units & attr_units
          & vps & ad & ovd & gvd & avd
          & Ha & Ho & Hg & Hat & Hpa & Hpo & Hpg & Hpat
          & Hvps & Had & Hovd & Hgvd & Havd & ->) HLo HLg HLat.
  rewrite (size_len_at_Some _ _ _ _ Ha) in HLo, HLg, HLat.
  destruct (size_len_at_inv _ _ _ _ Ho HLo) as (ho & ro & -> & Eo).
  destruct (size_len_at_inv _ _ _ _ Hg HLg) as (hg & rg & -> & Eg).
  destruct (size_len_at_inv _ _ _ _ Hat HLat) as (hat & rat & -> & Eat).
  destruct (parsed_unit_frame _ _ _ _ _ Hpa Hvps) as [t0 F0].
  destruct (parsed_unit_frame _ _ _ _ _ Hpa Had) as [t1 F1].
  destruct (parsed_unit_frame _ _ _ _ _ Hpo Hovd) as [t2 F2].
  destruct (parsed_unit_frame _ _ _ _ _ Hpg Hgvd) as [t3 F3].
  destruct (parsed_unit_frame _ _ _ _ _ Hpat Havd) as [t4 F4].
  rewrite Eo in F2. rewrite Eg in F3. rewrite Eat in F4.
  pose proof (frames_app _ _ _ _ _ F0
                (frames_app _ _ _ _ _ F1
                   (frames_app _ _ _ _ _ F2
                      (frames_app _ _ _ _ _ F3 F4)))) as Hfr.
  cbn [app] in Hfr.
  exists [vps; ad; ovd; gvd; avd].
  split; [|split; [reflexivity|split]].
  - unfold parsed_units.
    rewrite (parse_v3c_units_of_frames _ _ _ Hfr). reflexivity.
  - cbn [take concat app]. rewrite take_0, app_nil_r. reflexivity.
  - split; [|split; [|split]].
    + intros data units Hd Hu. rewrite Ha in Hd. injection Hd as <-.
      rewrite Hpa in Hu. injection Hu as <-. cbn. rewrite Hvps, Had.
      split; reflexivity.
    + intros data units Hd Hu. rewrite Ho in Hd. injection Hd as <-.
      rewrite Hpo in Hu. injection Hu as <-. cbn. rewrite Hovd. reflexivity.
    + intros data units Hd Hu. rewrite Hg in Hd. injection Hd as <-.
      rewrite Hpg in Hu. injection Hu as <-. cbn. rewrite Hgvd. reflexivity.
    + intros data units Hd Hu. rewrite Hat in Hd. injection Hd as <-.
      rewrite Hpat in Hu. injection Hu as <-. cbn. rewrite Havd. reflexivity.
Qed.

Lemma example_segment_bytes :
  segment_bytes example_tracks 0
    [x00; x02; x08; xff; x01; x0a; x01; x0b; x01; x0c; x01; x0d]%byte.
Proof.
  exists x00, [x02; x08; xff; x01; x0a]%byte, (example_track x0b),
    (example_track x0c), (example_track x0d),
    [[x02; x08; xff]; [x01; x0a]]%byte, [[x02; x08; xff]; [x01; x0b]]%byte,
    [[x02; x08; xff]; [x01; x0c]]%byte, [[x02; x08; xff]; [x01; x0d]]%byte,
    [x02; x08; xff]%byte, [x01; x0a]%byte, [x01; x0b]%byte, [x01; x0c]%byte,
    [x01; x0d]%byte.
  repeat split; reflexivity.
Qed.

Lemma combined_segment_parses_back_witness :
  exists c,
    segment_bytes example_tracks 0 c /\
    exists us,
      parsed_units c = Some us /\ length us = 5 /\
      take 1 c ++ concat us = c /\
      (forall data units, atlas example_tracks !! 0 = Some data ->
         parsed_units data = Some units ->
         us !! 0 = units !! 0 /\ us !! 1 = units !! 1) /\
      (forall data units, occp example_tracks !! 0 = Some data ->
         parsed_units data = Some units -> us !! 2 = units !! 1) /\
      (forall data units, geom example_tracks !! 0 = Some data ->
         parsed_units data = Some units -> us !! 3 = units !! 1) /\
      (forall data units, attr example_tracks !! 0 = Some data ->
         parsed_units data = Some units -> us !! 4 = units !! 1).
Proof.
  eexists. split; [exact example_segment_bytes|].
  apply (combined_segment_parses_back example_tracks 0 _
           example_segment_bytes); reflexivity.
Defined.

#[local] Opaque parse_v3c_units seg_name.

Ltac raised_with_reads :=
  intros ?; simplify_eq; right; split; [eexists; reflexivity|reflexivity].

Ltac parse_cases data units H :=
  let Ht := fresh "Hterm" in
  pose proof (parse_v3c_units_terminates data) as Ht;
  destruct (parse_v3c_units data) as [units [[]| |]] eqn:H; cbn;
  [clear Ht|clear Ht; raised_with_reads|exfalso; apply Ht; reflexivity].

(** One pass of the loop body when the four files of index [i] exist: the
    four reads, then either the write of the combined bytes or an
    exception. *)
Lemma combine_segment_events t i tr o :
  is_Some (atlas t !! i) -> is_Some (occp t !! i) ->
  is_Some (geom t !! i) -> is_Some (attr t !! i) ->
  combine_segment t i = (tr, o) ->
  (o = Returned tt /\
   exists c, segment_bytes t i c /\ tr = segment_events i c)
  \/ ((exists e, o = Raised e) /\ tr = segment_reads i).
Proof.
  intros [atlas_data Ha] [occp_data Ho] [geom_data Hg] [attr_data Hat].
  unfold combine_segment. rewrite !read_bytes_eq, Ha, Ho, Hg, Hat. cbn.
  rewrite !list_of_generator_eq.
  parse_cases atlas_data atlas_units Hpa.
  parse_cases occp_data occp_units Hpo.
  parse_cases geom_data geom_units Hpg.
  parse_cases attr_data attr_units Hpat.
  unfold getitem, v3c_unit in *.
  destruct (atlas_units !! 0) as [vps|] eqn:Hvps; cbn; [|raised_with_reads].
  destruct (atlas_units !! 1) as [ad|] eqn:Had; cbn; [|raised_with_reads].
  destruct (occp_units !! 1) as [ovd|] eqn:Hovd; cbn; [|raised_with_reads].
  destruct (geom_units !! 1) as [gvd|] eqn:Hgvd; cbn; [|raised_with_reads].
  destruct (attr_units !! 1) as [avd|] eqn:Havd; cbn; [|raised_with_reads].
  destruct atlas_data as [|header atlas_rest]; cbn; [raised_with_reads|].
  intros ?; simplify_eq. left. split; [done|].
  eexists. split; [|reflexivity].
  exists header, atlas_rest, occp_data, geom_data, attr_data,
    (atlas_units.*2), (occp_units.*2), (geom_units.*2), (attr_units.*2),
    (vps.2), (ad.2), (ovd.2), (gvd.2), (avd.2).
  unfold parsed_units. rewrite Hpa, Hpo, Hpg, Hpat.
  rewrite !list_lookup_fmap, Hvps, Had, Hovd, Hgvd, Havd.
  repeat split; done.
Qed.

Lemma for_range_events t m :
  forall a tr o,
    (forall i, a <= i < a + m ->
       is_Some (atlas t !! i) /\ is_Some (occp t !! i) /\
       is_Some (geom t !! i) /\ is_Some (attr t !! i)) ->
    for_range (seq a m) (combine_segment t) = (tr, o) ->
    exists contents,
      (forall j c, contents !! j = Some c -> segment_bytes t (a + j) c) /\
      ((o = Returned tt /\ length contents = m /\
        tr = mjoin (imap (fun j => segment_events (a + j)) contents))
       \/ ((exists e, o = Raised e) /\ length contents < m /\
           tr = mjoin (imap (fun j => segment_events (a + j)) contents)
                ++ segment_reads (a + length contents))).
Proof.
  induction m as [|m IH]; intros a tr o Hfiles Hrun.
  - injection Hrun as <- <-. exists []. split; [intros j c; discriminate|].
    left. repeat split.
  - cbn [seq for_range] in Hrun.
    destruct (combine_segment t a) as [tr1 o1] eqn:Hseg.
    destruct (Hfiles a) as (F1 & F2 & F3 & F4); [lia|].
    destruct (combine_segment_events _ _ _ _ F1 F2 F3 F4 Hseg)
      as [[-> (c & Hc & ->)]|[[e ->] ->]].
    + cbn in Hrun.
      destruct (for_range (seq (S a) m) (combine_segment t))
        as [tr2 o2] eqn:Hrest.
      injection Hrun as <- <-.
      destruct (IH (S a) tr2 o2) as (contents & Hall & Hcase);
        [intros i Hi; apply Hfiles; lia|exact Hrest|].
      assert (Hshift : forall l : list (list byte),
                 imap (fun j => segment_events (a + j)) (c :: l)
                 = segment_events a c
                   :: imap (fun j => segment_events (S a + j)) l).
      { intros l. cbn [imap]. rewrite Nat.add_0_r. f_equal.
        apply imap_ext. intros j x _. cbn. f_equal. lia. }
      exists (c :: contents). split.
      * intros [|j] c' Hj.
        -- injection Hj as <-. rewrite Nat.add_0_r. exact Hc.
        -- replace (a + S j) with (S a + j) by lia. exact (Hall j c' Hj).
      * rewrite Hshift. cbn [length mjoin list_join].
        destruct Hcase as [(-> & Hlen & ->)|(He & Hlen & ->)].
        -- left. repeat split. congruence.
        -- right. split; [exact He|]. split; [lia|].
           replace (a + S (length contents)) with (S a + length contents)
             by lia.
           reflexivity.
    + cbn in Hrun. injection Hrun as <- <-.
      exists []. split; [intros j c; discriminate|].
      right. split; [eauto|]. split; [cbn; lia|].
      cbn. rewrite Nat.add_0_r. reflexivity.
Qed.

(** X9.  The file-system events of a run over tracks of equal length, in
    order: the output directory is made; then, for each index from 0 up, the
    atlas, occupancy, geometry and attribute file of that index are read,
    once each, and the combined file is written.  A run that raises stops at
    the first index whose files do not parse to the units needed: it has
    read the four files of that index, written nothing for it, and touched no
    later file. *)
Theorem combine_per_segment_events (t : track_files) (tr : list event)
  (o : outcome unit) :
  same_counts t = true ->
  combine_per_segment t = (tr, o) ->
  exists contents,
    (forall i c, contents !! i = Some c -> segment_bytes t i c) /\
    ((o = Returned tt /\ length contents = length (atlas t) /\
      tr = EvMkdir :: mjoin (imap segment_events contents))
     \/ ((exists e, o = Raised e) /\ length contents < length (atlas t) /\
         tr = EvMkdir :: mjoin (imap segment_events contents)
              ++ segment_reads (length contents))).
Proof.
  intros Hc. unfold combine_per_segment. rewrite Hc. cbn [negb].
  destruct (for_range _ _) as [tr' o'] eqn:Hrun. cbn.
  intros ?; simplify_eq.
  unfold same_counts in Hc.
  apply andb_prop in Hc as [Hc H3]. apply andb_prop in Hc as [H1 H2].
  apply Nat.eqb_eq in H1, H2, H3.
  destruct (for_range_events t (length (atlas t)) 0 tr' o)
    as (contents & Hall & Hcase);
    [|exact Hrun|].
  { intros i Hi. rewrite !lookup_lt_is_Some. lia. }
  exists contents. split; [exact Hall|].
  destruct Hcase as [(-> & Hlen & ->)|(He & Hlen & ->)].
  - left. repeat split. exact Hlen.
  - right. repeat split; [exact He|exact Hlen].
Qed.

Lemma combine_per_segment_events_witness :
  same_counts example_tracks = true /\
  exists contents,
    (forall i c, contents !! i = Some c -> segment_bytes example_tracks i c) /\
    ((snd (combine_per_segment example_tracks) = Returned tt /\
      length contents = length (atlas example_tracks) /\
      fst (combine_per_segment example_tracks)
      = EvMkdir :: mjoin (imap segment_events contents))
     \/ ((exists e, snd (combine_per_segment example_tracks) = Raised e) /\
         length contents < length (atlas example_tracks) /\
         fst (combine_per_segment example_tracks)
         = EvMkdir :: mjoin (imap segment_events contents)
           ++ segment_reads (length contents))).
Proof.
  split; [reflexivity|].
  apply (combine_per_segment_events example_tracks
           (fst (combine_per_segment example_tracks))
           (snd (combine_per_segment example_tracks)));
    [reflexivity|].
  destruct (combine_per_segment example_tracks); reflexivity.
Defined.

#[local] Transparent parse_v3c_units seg_name.

End MultiplexerMore.

Section Segments.
Local Open Scope nat_scope.
Context {A : Type}.

Lemma ceil_div_le (size len i : nat) :
  1 <= size -> i mod size = 0 -> len <= i ->
  (len + size - 1) / size <= i / size.
Proof.
  intros Hsize Hmod Hle.
  pose proof (Nat.div_mod_eq i size) as Hi.
  apply Nat.lt_succ_r, Nat.Div0.div_lt_upper_bound. nia.
Qed.

Lemma segments_from_spec (size : nat) (l : list A) :
  1 <= size ->
  forall fuel i,
    length l <= i + fuel * size ->
    i mod size = 0 ->
    let segs := segments_from fuel l size i in
    mjoin (segs.*2) = drop i l /\
    segs.*1 = seq (i / size + 1) ((length l + size - 1) / size - i / size) /\
    Forall (fun c => 1 <= length c <= size) (segs.*2) /\
    (forall k c, segs.*2 !! k = Some c -> S k < length segs ->
                 length c = size).
Proof.
  intros Hsize. induction fuel as [|fuel IH]; intros i Hfuel Hmod.
  - cbn. cbn in Hfuel. rewrite drop_ge by lia.
    assert (Hq : (length l + size - 1) / size <= i / size)
      by (apply ceil_div_le; lia).
    replace ((length l + size - 1) / size - i / size) with 0 by lia.
    repeat split; [constructor|]. intros k c. discriminate.
  - cbn [segments_from].
    destruct (Nat.ltb_spec i (length l)) as [Hlt|Hge].
    + destruct (IH (i + size)) as (Hcat & Hidx & Hlen & Hfull).
      { cbn in Hfuel. lia. }
      { rewrite <- Nat.Div0.add_mod_idemp_l, Hmod, Nat.add_0_l.
        apply Nat.Div0.mod_same. }
      assert (Hdiv : (i + size) / size = S (i / size)).
      { replace (i + size) with (i + 1 * size) by lia.
        rewrite Nat.div_add by lia. lia. }
      assert (Hi : i = size * (i / size)).
      { pose proof (Nat.div_mod_eq i size). lia. }
      assert (Hcnt : S (i / size) <= (length l + size - 1) / size).
      { rewrite <- Hdiv. apply Nat.Div0.div_le_mono. lia. }
      cbn zeta. cbn [fmap list_fmap fst snd mjoin list_join length].
      rewrite Hdiv in Hidx.
      split; [|split; [|split]].
      * change (take size (drop i l)
                ++ mjoin (segments_from fuel l size (i + size)).*2
                = drop i l).
        rewrite Hcat, <- drop_drop. apply take_drop.
      * change ((i / size + 1)
                :: (segments_from fuel l size (i + size)).*1
                = seq (i / size + 1)
                    ((length l + size - 1) / size - i / size)).
        rewrite Hidx.
        replace ((length l + size - 1) / size - i / size)
          with (S ((length l + size - 1) / size - S (i / size))) by lia.
        cbn [seq]. do 2 f_equal; lia.
      * change (Forall (fun c => 1 <= length c <= size)
                  (take size (drop i l)
                   :: (segments_from fuel l size (i + size)).*2)).
        constructor; [|exact Hlen].
        rewrite length_take, length_drop. lia.
      * intros [|k] c Hk Hnext.
        -- injection Hk as <-. rewrite length_take, length_drop.
           destruct (segments_from fuel l size (i + size)) as [|s segs] eqn:E;
             [cbn in Hnext; lia|].
           cbn [segments_from] in E. destruct fuel as [|fuel']; [done|].
           cbn [segments_from] in E.
           destruct (Nat.ltb_spec (i + size) (length l)); [lia|done].
        -- cbn in Hnext. apply (Hfull k c Hk). lia.
    + cbn. rewrite drop_ge by lia.
      assert (Hq : (length l + size - 1) / size <= i / size)
        by (apply ceil_div_le; lia).
      replace ((length l + size - 1) / size - i / size) with 0 by lia.
      repeat split; [constructor|]. intros k c. discriminate.
Qed.

End Segments.


Section TileBoundsFacts.
Context {F : Type} `{!FloatOps F} `{!FloatArith F}.

Lemma bind_blocks_length {B} (g : Z -> list B) (m : nat) :
  (forall k, length (g k) = m) ->
  forall n : nat, length (seqZ 0 (Z.of_nat n) ≫= g) = (n * m)%nat.
Proof.
  intros Hg. induction n as [|n IH]; [reflexivity|].
  rewrite seqZ_S, bind_app, length_app, IH. cbn.
  rewrite app_nil_r, Hg. lia.
Qed.

Lemma bind_blocks_lookup {B} (g : Z -> list B) (m : nat) :
  (forall k, length (g k) = m) ->
  forall n i j : nat,
    (i < n)%nat -> (j < m)%nat ->
    (seqZ 0 (Z.of_nat n) ≫= g) !! (i * m + j)%nat = g (Z.of_nat i) !! j.
Proof.
  intros Hg. induction n as [|n IH]; intros i j Hi Hj; [lia|].
  rewrite seqZ_S, bind_app.
  destruct (decide (i < n)%nat) as [Hlt|Hge].
  - rewrite lookup_app_l by (rewrite (bind_blocks_length g m Hg); nia).
    apply IH; assumption.
  - assert (i = n) by lia. subst i.
    rewrite lookup_app_r by (rewrite (bind_blocks_length g m Hg); lia).
    rewrite (bind_blocks_length g m Hg).
    replace (n * m + j - n * m)%nat with j by lia.
    cbn. rewrite app_nil_r. reflexivity.
Qed.

Lemma tile_bounds_length (tg : TileGenerator) (b : boundaries_meta F) :
  0 <= n_x tg -> 0 <= n_y tg -> 0 <= n_z tg ->
  length (tile_bounds tg b) = Z.to_nat (total_tiles_of tg).
Proof.
  intros Hx Hy Hz. unfold tile_bounds, total_tiles_of.
  rewrite <- (Z2Nat.id (n_x tg)) at 1 by lia.
  rewrite (bind_blocks_length _ (Z.to_nat (n_y tg) * Z.to_nat (n_z tg))).
  - rewrite !Z2Nat.inj_mul by lia. lia.
  - intros xi. rewrite <- (Z2Nat.id (n_y tg)) at 1 by lia.
    apply bind_blocks_length. intros yi.
    rewrite <- (Z2Nat.id (n_z tg)) at 1 by lia.
    rewrite (bind_blocks_length _ 1%nat) by reflexivity. lia.
Qed.

(** The entry of cell [(xi, yi, zi)] sits at position
    [xi * (ny * nz) + yi * nz + zi] of [tile_bounds]. *)
Lemma tile_bounds_lookup (tg : TileGenerator) (b : boundaries_meta F)
  (xi yi zi : Z) :
  0 <= xi < n_x tg -> 0 <= yi < n_y tg -> 0 <= zi < n_z tg ->
  tile_bounds tg b !! Z.to_nat (xi * (n_y tg * n_z tg) + yi * n_z tg + zi)
  = Some (tile_bound_of tg b xi yi zi).
Proof.
  intros Hx Hy Hz. unfold tile_bounds.
  replace (Z.to_nat (xi * (n_y tg * n_z tg) + yi * n_z tg + zi))
    with (Z.to_nat xi * (Z.to_nat (n_y tg) * Z.to_nat (n_z tg))
          + (Z.to_nat yi * Z.to_nat (n_z tg) + (Z.to_nat zi * 1 + 0)))%nat
    by nia.
  rewrite <- (Z2Nat.id (n_x tg)) at 1 by lia.
  rewrite bind_blocks_lookup; [| |lia|nia].
  2:{ intros k. rewrite <- (Z2Nat.id (n_y tg)) at 1 by lia.
      apply bind_blocks_length. intros yi'.
      rewrite <- (Z2Nat.id (n_z tg)) at 1 by lia.
      rewrite (bind_blocks_length _ 1%nat) by reflexivity. lia. }
  rewrite <- (Z2Nat.id (n_y tg)) at 1 by lia.
  rewrite bind_blocks_lookup; [| |lia|nia].
  2:{ intros k. rewrite <- (Z2Nat.id (n_z tg)) at 1 by lia.
      rewrite (bind_blocks_length _ 1%nat) by reflexivity. lia. }
  rewrite <- (Z2Nat.id (n_z tg)) at 1 by lia.
  rewrite (bind_blocks_lookup _ 1%nat) by (reflexivity || lia).
  rewrite !Z2Nat.id by lia. reflexivity.
Qed.

(** X11.  The manifest of a segment lists one entry per tile, in tile-id
    order: the entry at position [t] has id [t], for [t] from 0 to
    [total_tiles - 1]. *)
Theorem tile_bounds_ids (gx gy gz seg thr : Z) (b : boundaries_meta F) :
  let tg := TileGenerator_init gx gy gz seg thr in
  tb_id <$> tile_bounds tg b = seqZ 0 (total_tiles_of tg).
Proof.
  intros tg.
  destruct (TileGenerator_init_positive gx gy gz seg thr) as (Px & Py & Pz).
  fold tg in Px, Py, Pz.
  pose proof (tile_bounds_length tg b ltac:(lia) ltac:(lia) ltac:(lia))
    as Hlen.
  apply list_eq. intros p. rewrite list_lookup_fmap.
  destruct (decide (Z.of_nat p < total_tiles_of tg)) as [Hlt|Hge].
  - rewrite lookup_seqZ_lt by exact Hlt.
    unfold total_tiles_of in Hlt.
    set (NY := n_y tg) in *. set (NZ := n_z tg) in *. set (NX := n_x tg) in *.
    set (P := Z.of_nat p) in *.
    set (xi := P / (NY * NZ)). set (r := P mod (NY * NZ)).
    set (yi := r / NZ). set (zi := r mod NZ).
    assert (HP : P = xi * (NY * NZ) + yi * NZ + zi).
    { subst xi yi zi r.
      rewrite (Z.div_mod P (NY * NZ)) at 1 by nia.
      rewrite (Z.div_mod (P mod (NY * NZ)) NZ) at 1 by lia. lia. }
    assert (Hr : 0 <= r < NY * NZ) by (apply Z.mod_pos_bound; nia).
    assert (Hxi : 0 <= xi < NX).
    { subst xi. split; [apply Z.div_pos; nia|].
      apply Z.div_lt_upper_bound; nia. }
    assert (Hyi : 0 <= yi < NY).
    { subst yi. split; [apply Z.div_pos; lia|].
      apply Z.div_lt_upper_bound; nia. }
    assert (Hzi : 0 <= zi < NZ) by (apply Z.mod_pos_bound; lia).
    replace p with (Z.to_nat (xi * (NY * NZ) + yi * NZ + zi))
      by (rewrite <- HP; subst P; lia).
    assert (Hnn : 0 <= xi * (NY * NZ) + yi * NZ + zi) by nia.
    subst NX NY NZ. rewrite tile_bounds_lookup by assumption.
    unfold tile_bound_of. cbn [tb_id fmap option_fmap option_map].
    f_equal. lia.
  - rewrite lookup_seqZ_ge by lia.
    rewrite (lookup_ge_None_2 (tile_bounds tg b)) by lia. reflexivity.
Qed.

Lemma filter_disjoint_or {B} (P Q : B -> Prop)
  `{!forall x, Decision (P x)} `{!forall x, Decision (Q x)}
  (l : list B) :
  (forall x, P x -> Q x -> False) ->
  filter P l ++ filter Q l ≡ₚ filter (fun x => P x \/ Q x) l.
Proof.
  intros Hdis. induction l as [|x l IH]; [reflexivity|].
  rewrite !filter_cons.
  destruct (decide (P x)) as [HP|HP], (decide (Q x)) as [HQ|HQ].
  - destruct (Hdis x HP HQ).
  - rewrite decide_True by auto. cbn. rewrite IH. reflexivity.
  - rewrite decide_True by auto.
    rewrite <- Permutation_middle, IH. reflexivity.
  - rewrite decide_False by tauto. exact IH.
Qed.

(** Bucketing by an integer key in [0, n) loses and duplicates nothing. *)
Lemma buckets_permutation {B} (key : B -> Z) (l : list B) (n : nat) :
  mjoin ((fun t : nat => filter (fun p => key p = Z.of_nat t) l) <$> seq 0 n)
  ≡ₚ filter (fun p => 0 <= key p < Z.of_nat n) l.
Proof.
  induction n as [|n IH].
  - cbn. induction l as [|x l IHl]; [reflexivity|].
    rewrite filter_cons, decide_False by lia. exact IHl.
  - rewrite seq_S, fmap_app, join_app. cbn [fmap list_fmap mjoin list_join].
    rewrite app_nil_r, IH. cbn [Nat.add].
    rewrite filter_disjoint_or by (intros x Hx1 Hx2; lia).
    erewrite list_filter_iff; [reflexivity|]. intros x. cbn. lia.
Qed.

End TileBoundsFacts.

Section FramePartition.
Context {F : Type} `{!FloatOps F}.

Lemma row_tile_id_range (tg : TileGenerator)
  (x0 y0 z0 x1 y1 z1 : F) (cols : list string) (row : list (cell F))
  (id : Z) :
  1 <= n_x tg -> 1 <= n_y tg -> 1 <= n_z tg ->
  total_tiles_of tg < 2 ^ 63 ->
  row_tile_id (make_boundaries_meta tg x0 y0 z0 x1 y1 z1) cols row = Some id ->
  0 <= id < total_tiles_of tg.
Proof.
  intros Px Py Pz Htot. unfold row_tile_id, tile_id.
  destruct (row_get cols row "x") as [x|]; cbn; [|discriminate].
  destruct (row_get cols row "y") as [y|]; cbn; [|discriminate].
  destruct (row_get cols row "z") as [z|]; cbn; [|discriminate].
  set (b := make_boundaries_meta tg x0 y0 z0 x1 y1 z1).
  destruct (cell_index (to_float x) _ _ _) as [ix|] eqn:Hx; cbn;
    [|discriminate].
  destruct (cell_index (to_float y) _ _ _) as [iy|] eqn:Hy; cbn;
    [|discriminate].
  destruct (cell_index (to_float z) _ _ _) as [iz|] eqn:Hz; cbn;
    [|discriminate].
  intros [= <-].
  apply cell_index_range in Hx; [|exact Px].
  apply cell_index_range in Hy; [|exact Py].
  apply cell_index_range in Hz; [|exact Pz].
  destruct (tile_id_of_exact b ix iy iz Hx Hy Hz Htot) as [-> Hrange].
  exact Hrange.
Qed.

Lemma row_get_Some_cols (cols : list string) (row : list (cell F)) name c :
  row_get cols row name = Some c -> cols <> [].
Proof. destruct cols; [discriminate|done]. Qed.

Lemma fmap_fst_join {A B} (ls : list (list (A * B))) :
  fst <$> mjoin ls = mjoin ((fmap fst) <$> ls).
Proof.
  induction ls as [|l ls IH]; [reflexivity|].
  change (fst <$> (l ++ mjoin ls) = (fst <$> l) ++ mjoin (fmap fst <$> ls)).
  rewrite fmap_app, IH. reflexivity.
Qed.

Lemma filter_zip_in_range {A} (rs : list A) (ids : list Z) (n : Z) :
  Forall (fun id => 0 <= id < n) ids ->
  filter (fun p : A * Z => 0 <= p.2 < n) (zip rs ids) = zip rs ids.
Proof.
  revert ids. induction rs as [|r rs IH]; intros [|id ids] Hall;
    try reflexivity.
  apply Forall_cons in Hall as [Hid Hall].
  cbn [zip zip_with]. rewrite filter_cons, decide_True by exact Hid.
  f_equal. apply IH. exact Hall.
Qed.


End FramePartition.


Section ExactGeometry.

Lemma Q_py_max_ge_l (a b : Q) : (a <= py_max a b)%Q.
Proof.
  unfold py_max. cbn [flt Q_ops].
  destruct (Qle_bool b a) eqn:Hle; cbn [negb].
  - apply Qle_refl.
  - apply Qlt_le_weak, Qnot_le_lt. intros H.
    apply Qle_bool_iff in H. congruence.
Qed.

Lemma Q_cell_contains (n : Z) (v0 v1 v : Q) :
  1 <= n -> (v0 <= v)%Q -> (v <= v1)%Q ->
  let d := py_max (F:=Q) (fdiv (fsub v1 v0) (of_Z n)) eps9 in
  exists i,
    cell_index v v0 d n = Some i /\ 0 <= i < n /\
    (fadd v0 (fmul (of_Z i) d) <= v)%Q /\
    (v <= fadd (fadd v0 (fmul (of_Z i) d)) d)%Q.
Proof.
  intros Hn Hlo Hhi d.
  assert (Hd0 : (0 < d)%Q).
  { eapply Qlt_le_trans; [|apply Q_py_max_eps]. reflexivity. }
  assert (Hdn : ((v1 - v0) / inject_Z n <= d)%Q) by apply Q_py_max_ge_l.
  assert (HnQ : (0 < inject_Z n)%Q).
  { change 0%Q with (inject_Z 0). rewrite <- Zlt_Qlt. lia. }
  assert (Hext : (v1 - v0 <= inject_Z n * d)%Q).
  { assert (E : ((v1 - v0) / inject_Z n * inject_Z n == v1 - v0)%Q)
      by (field; lra).
    pose proof (Qmult_le_compat_r _ _ (inject_Z n) Hdn
                  (Qlt_le_weak _ _ HnQ)) as H.
    rewrite E in H. rewrite Qmult_comm. exact H. }
  set (q := ((v - v0) / d)%Q).
  assert (Hqd : (q * d == v - v0)%Q) by (subst q; field; lra).
  set (k := Qfloor q).
  pose proof (Qfloor_le q) as Hk1. pose proof (Qlt_floor q) as Hk2.
  fold k in Hk1, Hk2. rewrite inject_Z_plus in Hk2.
  change (inject_Z 1) with 1%Q in Hk2.
  assert (Hq0 : (0 <= q)%Q).
  { subst q. apply Qle_shift_div_l; [exact Hd0|]. lra. }
  assert (Hqn : (q <= inject_Z n)%Q).
  { subst q. apply Qle_shift_div_r; [exact Hd0|]. lra. }
  assert (Hk0 : 0 <= k).
  { apply (Qfloor_resp_le 0 q) in Hq0. exact Hq0. }
  assert (Hkn : k <= n).
  { apply Qfloor_resp_le in Hqn. rewrite Qfloor_Z in Hqn. exact Hqn. }
  exists (np_clip k 0 (n - 1)).
  split; [reflexivity|]. split; [apply np_clip_range; exact Hn|].
  cbn [fadd fmul Q_arith of_Z Q_ops].
  unfold np_clip. rewrite Z.max_l by lia.
  destruct (Z.le_gt_cases k (n - 1)) as [Hle|Hgt].
  - rewrite Z.min_l by lia. split; nra.
  - rewrite Z.min_r by lia. assert (k = n) by lia.
    replace (n - 1) with (n + -1) by lia.
    rewrite inject_Z_plus. change (inject_Z (-1)) with (-1 # 1)%Q.
    assert (Hkq : (inject_Z k == inject_Z n)%Q) by (rewrite H; reflexivity).
    split; nra.
Qed.



End ExactGeometry.

Section PlyWriteRead.
Context {F : Type} `{!FloatOps F}.
Local Open Scope nat_scope.

Lemma str_of_nat_nonempty (n : nat) : str_of_nat n <> EmptyString.
Proof.
  unfold str_of_nat. intros Hs.
  pose proof (NilEmpty.usu (Nat.to_uint n)) as Hu. rewrite Hs in Hu.
  cbn in Hu. injection Hu as Hu.
  pose proof (DecimalNat.Unsigned.of_to n) as Hn. rewrite <- Hu in Hn.
  cbn in Hn. subst n. discriminate Hu.
Qed.

Lemma int_of_str_of_nat (n : nat) : int_of_str (str_of_nat n) = Some n.
Proof.
  unfold int_of_str.
  destruct (str_of_nat n) eqn:Hs; [destruct (str_of_nat_nonempty n Hs)|].
  rewrite <- Hs. unfold str_of_nat. rewrite NilEmpty.usu. cbn.
  rewrite DecimalNat.Unsigned.of_to. reflexivity.
Qed.

Lemma savetxt_row_length (cols : list string) (row : list (cell F)) :
  length row = length cols -> length (savetxt_row cols row) = length cols.
Proof. intros Hlen. unfold savetxt_row. rewrite length_zip_with. lia. Qed.

(** Reading back the data lines that [write] made of [rows_]. *)
Lemma read_rows_savetxt (cols : list string) (rows_ : list (list (cell F))) :
  cols <> [] ->
  Forall (fun row => length row = length cols) rows_ ->
  forall rest,
    read_rows (length rows_) ((savetxt_row cols <$> rows_) ++ rest)
    = mapM (reread_row cols) rows_.
Proof.
  intros Hne Hall. induction Hall as [|row rows_ Hrow Hall IH]; intros rest.
  - reflexivity.
  - pose proof (savetxt_row_length cols row Hrow) as Hlen.
    change (read_rows (length (row :: rows_))
              ((savetxt_row cols <$> row :: rows_) ++ rest))
      with (read_rows (S (length rows_))
              (savetxt_row cols row
               :: (savetxt_row cols <$> rows_) ++ rest)).
    change (mapM (reread_row cols) (row :: rows_))
      with (y ← reread_row cols row;
            k ← mapM (reread_row cols) rows_; Some (y :: k)).
    assert (Hr : reread_row cols row
                 = fmap CFloat <$> mapM parse_float (savetxt_row cols row))
      by reflexivity.
    rewrite Hr. clear Hr.
    destruct (savetxt_row cols row) as [|tok toks] eqn:Hline.
    { destruct cols; [done|discriminate Hlen]. }
    cbn [read_rows]. rewrite IH.
    destruct (mapM parse_float (tok :: toks)) as [vals|]; reflexivity.
Qed.

Lemma reread_row_length (cols : list string) (row vals : list (cell F)) :
  length row = length cols ->
  reread_row cols row = Some vals -> length vals = length cols.
Proof.
  intros Hrow. unfold reread_row.
  destruct (mapM parse_float (savetxt_row cols row)) as [fs|] eqn:Hm;
    [|discriminate].
  intros [= <-]. rewrite length_fmap, <- (length_mapM _ _ _ Hm).
  apply savetxt_row_length. exact Hrow.
Qed.


Lemma parse_header_loop_no_vertex (lines : text_file) :
  Forall (fun line => ~ (line !! 0 = Some "element"%string /\
                         line !! 1 = Some "vertex"%string)) lines ->
  forall names,
    parse_header_loop lines None names = None \/
    exists names' rest,
      parse_header_loop lines None names = Some (names', None, rest).
Proof.
  induction 1 as [|line lines Hline Hall IH]; intros names.
  - right. cbn. eauto.
  - cbn [parse_header_loop]. destruct line as [|t0 ts]; [apply IH|].
    destruct (String.eqb_spec t0 "element") as [->|Hne].
    { destruct ts as [|t1 ts]; [left; reflexivity|].
      destruct (String.eqb_spec t1 "vertex") as [->|Hne]; [|apply IH].
      destruct Hline. split; reflexivity. }
    replace (bool_decide (is_Some (@None nat))) with false
      by (symmetry; apply bool_decide_eq_false; intros [? ?]; discriminate).
    rewrite andb_false_r.
    destruct (String.eqb t0 "end_header"); [right; eauto|apply IH].
Qed.

(** X15.  A file without an [element vertex] line gives no vertex count:
    [read] raises on it, whatever else the file holds (the [property] lines
    met before a vertex element are ignored). *)
Theorem read_without_vertex_element (line1 line2 : list string)
  (lines : text_file) :
  Forall (fun line => ~ (line !! 0 = Some "element"%string /\
                         line !! 1 = Some "vertex"%string)) lines ->
  PlyIO_read (F:=F) (line1 :: line2 :: lines) = ReadRaises.
Proof.
  intros Hall. unfold PlyIO_read, parse_header.
  destruct (contains_ply line1); [|reflexivity].
  destruct line2 as [|? [|fmt ?]]; try reflexivity.
  destruct (bool_decide _); [|reflexivity].
  destruct (parse_header_loop_no_vertex lines Hall [])
    as [->|(names & rest & ->)]; reflexivity.
Qed.

End PlyWriteRead.


Lemma read_without_vertex_element_witness :
  PlyIO_read (F:=Q)
    [["ply"]; ["format"; "ascii"; "1.0"]; ["property"; "float"; "x"];
     ["end_header"]; ["1.000000"]]%string = ReadRaises.
Proof.
  apply (read_without_vertex_element (F:=Q)).
  repeat constructor; intros [H _]; discriminate H.
Defined.

Section NormalizeAndDerive.
Local Open Scope nat_scope.

Lemma normalize_pair_entry_triple (idx : nat) (entry : qp_pair) :
  match entry_triple entry with
  | Some qp => normalize_pair idx entry = Returned qp
  | None => exists msg, normalize_pair idx entry = Raised (ValueError msg)
  end.
Proof.
  destruct entry as [d|l|ty]; cbn.
  - destruct (d !! "occupancyMapQP"%string), (d !! "geometryQP"%string),
      (d !! "attributeQP"%string); cbn; eauto.
  - destruct l as [|a [|b [|c [|? ?]]]]; cbn; eauto.
  - eauto.
Qed.

Lemma normalize_from_good (l : list qp_pair) :
  forall idx qs,
    mapM entry_triple l = Some qs -> normalize_from idx l = Returned qs.
Proof.
  induction l as [|e l IH]; intros idx qs Hm.
  - injection Hm as <-. reflexivity.
  - cbn in Hm. pose proof (normalize_pair_entry_triple idx e) as He.
    destruct (entry_triple e) as [q|]; [|discriminate]. cbn in Hm.
    destruct (mapM entry_triple l) as [qs'|] eqn:Hl; [|discriminate].
    injection Hm as <-. cbn [normalize_from].
    rewrite He, (IH (S idx) qs' eq_refl). reflexivity.
Qed.

Lemma normalize_from_bad (good : list qp_pair) :
  forall idx qs bad rest,
    mapM entry_triple good = Some qs ->
    entry_triple bad = None ->
    exists msg,
      normalize_pair (idx + length good) bad = Raised (ValueError msg) /\
      normalize_from idx (good ++ bad :: rest) = Raised (ValueError msg).
Proof.
  induction good as [|e good IH]; intros idx qs bad rest Hm Hbad.
  - pose proof (normalize_pair_entry_triple idx bad) as He.
    rewrite Hbad in He. destruct He as [msg He]. exists msg.
    cbn [length app normalize_from]. rewrite Nat.add_0_r, He. done.
  - cbn in Hm. pose proof (normalize_pair_entry_triple idx e) as He.
    destruct (entry_triple e) as [q|]; [|discriminate]. cbn in Hm.
    destruct (mapM entry_triple good) as [qs'|] eqn:Hl; [|discriminate].
    destruct (IH (S idx) qs' bad rest eq_refl Hbad) as (msg & Hp & Hn).
    exists msg. cbn [length app normalize_from].
    replace (idx + S (length good)) with (S idx + length good) by lia.
    rewrite He, Hn. done.
Qed.

(** X16.  [_normalize_qp_pairs] on a non-empty list: when every entry is a
    dict with the three keys or a sequence of three values, it returns one
    triple per entry, in order; otherwise it raises the [ValueError] of the
    first malformed entry, whose message carries that entry's index.  It
    never returns an empty list. *)
Theorem normalize_qp_pairs_characterised :
  (forall l qs,
     l <> [] -> mapM entry_triple l = Some qs ->
     normalize_qp_pairs l = Returned qs) /\
  (forall good bad rest qs,
     mapM entry_triple good = Some qs -> entry_triple bad = None ->
     exists msg,
       normalize_pair (length good) bad = Raised (ValueError msg) /\
       normalize_qp_pairs (good ++ bad :: rest) = Raised (ValueError msg)) /\
  (forall l qs,
     normalize_qp_pairs l = Returned qs ->
     mapM entry_triple l = Some qs /\ qs <> []).
Proof.
  split; [|split].
  - intros l qs Hne Hm. unfold normalize_qp_pairs.
    destruct l; [done|]. apply normalize_from_good. exact Hm.
  - intros good bad rest qs Hm Hbad.
    destruct (normalize_from_bad good 0 qs bad rest Hm Hbad)
      as (msg & Hp & Hn).
    exists msg. split; [exact Hp|]. unfold normalize_qp_pairs.
    destruct (good ++ bad :: rest) eqn:E; [|exact Hn].
    destruct good; discriminate E.
  - intros l qs Hrun.
    assert (Hl : l <> []) by (intros ->; discriminate Hrun).
    destruct (mapM entry_triple l) as [qs'|] eqn:Hm.
    + unfold normalize_qp_pairs in Hrun. destruct l as [|e l]; [done|].
      rewrite (normalize_from_good _ 0 qs' Hm) in Hrun.
      injection Hrun as <-. split; [reflexivity|].
      intros ->. apply length_mapM in Hm. discriminate Hm.
    + exfalso.
      assert (Hsplit : exists good bad rest qs0,
                 l = good ++ bad :: rest /\
                 mapM entry_triple good = Some qs0 /\
                 entry_triple bad = None).
      { clear Hrun Hl. induction l as [|e l IH]; [discriminate Hm|].
        cbn in Hm. destruct (entry_triple e) as [q|] eqn:He.
        - cbn in Hm.
          destruct (mapM entry_triple l) as [qs'|] eqn:Hm'; [discriminate|].
          destruct (IH eq_refl) as (good & bad & rest & qs0 & -> & Hg & Hb).
          exists (e :: good), bad, rest, (q :: qs0).
          split; [reflexivity|]. split; [|exact Hb].
          cbn. rewrite He, Hg. reflexivity.
        - exists [], e, l, []. repeat split. exact He. }
      destruct Hsplit as (good & bad & rest & qs0 & -> & Hg & Hb).
      destruct (normalize_from_bad good 0 qs0 bad rest Hg Hb)
        as (msg & _ & Hn).
      unfold normalize_qp_pairs in Hrun.
      destruct (good ++ bad :: rest); [discriminate|]. congruence.
Qed.

Lemma scan_frames_fold (frame_files : list string) :
  forall (width : nat) (acc : list N),
    fold_left (fun '(width, frame_indices) fp =>
                 match search_trailing_digits (stem fp) with
                 | Some (_, digits) =>
                   (Nat.max width (String.length digits),
                    frame_indices ++ [int_of_digits digits])
                 | None => (width, frame_indices)
                 end) frame_files (width, acc)
    = (fold_left Nat.max (digit_widths frame_files) width,
       acc ++ numbered_indices frame_files).
Proof.
  induction frame_files as [|fp fps IH]; intros width acc.
  - cbn. rewrite app_nil_r. reflexivity.
  - cbn [fold_left]. unfold digit_widths, numbered_indices, frame_digits.
    cbn [omap list_omap].
    destruct (search_trailing_digits (stem fp)) as [[p ds]|]; cbn.
    + rewrite IH, <- (assoc_L (++)). reflexivity.
    + apply IH.
Qed.

Lemma fold_left_max_spec (ws : list nat) (w0 : nat) :
  w0 <= fold_left Nat.max ws w0 /\
  Forall (fun w => w <= fold_left Nat.max ws w0) ws /\
  (fold_left Nat.max ws w0 = w0 \/ fold_left Nat.max ws w0 ∈ ws).
Proof.
  revert w0. induction ws as [|w ws IH]; intros w0.
  - cbn. split; [lia|]. split; [constructor|left; reflexivity].
  - cbn [fold_left]. destruct (IH (Nat.max w0 w)) as (H0 & Hall & Hin).
    split; [lia|]. split; [constructor; [lia|exact Hall]|].
    destruct Hin as [Heq|Hin]; [|right; right; exact Hin].
    rewrite Heq. destruct (Nat.max_spec w0 w) as [[_ ->]|[_ ->]];
      [right; left|left; reflexivity].
Qed.

Lemma fold_left_min_spec (is_ : list N) (i0 : N) :
  (fold_left N.min is_ i0 <= i0)%N /\
  Forall (fun i => (fold_left N.min is_ i0 <= i)%N) is_ /\
  (fold_left N.min is_ i0 = i0 \/ fold_left N.min is_ i0 ∈ is_).
Proof.
  revert i0. induction is_ as [|i is_ IH]; intros i0.
  - cbn. split; [lia|]. split; [constructor|left; reflexivity].
  - cbn [fold_left]. destruct (IH (N.min i0 i)) as (H0 & Hall & Hin).
    split; [lia|]. split; [constructor; [lia|exact Hall]|].
    destruct Hin as [Heq|Hin]; [|right; right; exact Hin].
    rewrite Heq. destruct (N.min_spec i0 i) as [[_ ->]|[_ ->]];
      [left; reflexivity|right; left].
Qed.

Lemma numbered_indices_length (frame_files : list string) :
  length (numbered_indices frame_files) <= length frame_files /\
  length (digit_widths frame_files) = length (numbered_indices frame_files).
Proof.
  unfold numbered_indices, digit_widths.
  induction frame_files as [|fp fps [IH1 IH2]]; [split; reflexivity|].
  cbn [omap list_omap length].
  destruct (frame_digits fp); cbn [fmap option_fmap option_map length]; lia.
Qed.

(** X17.  What [_derive_frame_sequence] gives for a tile directory.  It
    raises when the directory has no [.ply] file, or when the name of the
    first file (in sorted order) does not end in digits; in every other case
    it returns, so its third error ("no numbered frames found") is never
    raised.  When it returns: the frame count is the number of files whose
    name ends in digits (at least 1, at most the number of files); the start
    frame is the smallest of their numbers; the pattern is the text before
    the digits of the first file, then [%0<width>d.ply], where the width is
    the largest digit count among the numbered files. *)
Theorem derive_frame_sequence_cases (tile_dir : string)
  (frame_files : list string) :
  (frame_files = [] /\
   derive_frame_sequence tile_dir frame_files
   = Raised (ValueError (tile_dir +:+ ": no .ply frames found")))
  \/ (exists first rest,
        frame_files = first :: rest /\
        search_trailing_digits (stem first) = None /\
        derive_frame_sequence tile_dir frame_files
        = Raised (ValueError
                    (tile_dir +:+ ": unable to infer numbering pattern from "
                     +:+ stem first)))
  \/ (exists first rest prefix digits width start_frame,
        frame_files = first :: rest /\
        search_trailing_digits (stem first) = Some (prefix, digits) /\
        derive_frame_sequence tile_dir frame_files
        = Returned (prefix +:+ "%0" +:+ str_of_nat width +:+ "d.ply",
                    start_frame, length (numbered_indices frame_files)) /\
        1 <= length (numbered_indices frame_files) <= length frame_files /\
        start_frame ∈ numbered_indices frame_files /\
        Forall (fun i => (start_frame <= i)%N) (numbered_indices frame_files) /\
        width ∈ digit_widths frame_files /\
        Forall (fun w => w <= width) (digit_widths frame_files)).
Proof.
  destruct frame_files as [|first rest]; [left; split; reflexivity|].
  right. unfold derive_frame_sequence.
  destruct (search_trailing_digits (stem first)) as [[prefix digits]|] eqn:Hm.
  2:{ left. exists first, rest. repeat split. exact Hm. }
  right. unfold scan_frames. rewrite scan_frames_fold. cbn [app].
  assert (Hidx : numbered_indices (first :: rest)
                 = int_of_digits digits :: numbered_indices rest).
  { unfold numbered_indices, frame_digits. cbn [omap list_omap].
    rewrite Hm. reflexivity. }
  assert (Hw : digit_widths (first :: rest)
               = String.length digits :: digit_widths rest).
  { unfold digit_widths, frame_digits. cbn [omap list_omap].
    rewrite Hm. reflexivity. }
  rewrite Hidx.
  set (width := fold_left Nat.max (digit_widths (first :: rest))
                  (String.length digits)).
  set (start := fold_left N.min (numbered_indices rest)
                  (int_of_digits digits)).
  exists first, rest, prefix, digits, width, start.
  split; [reflexivity|]. split; [exact Hm|]. split; [reflexivity|].
  pose proof (numbered_indices_length (first :: rest)) as [Hlen _].
  rewrite Hidx in Hlen.
  split; [cbn [length] in *; lia|].
  destruct (fold_left_min_spec (numbered_indices rest) (int_of_digits digits))
    as (Hm0 & Hmall & Hmin).
  fold start in Hm0, Hmall, Hmin.
  destruct (fold_left_max_spec (digit_widths (first :: rest))
              (String.length digits)) as (Hx0 & Hxall & Hxin).
  fold width in Hx0, Hxall, Hxin.
  split; [|split; [|split]].
  - destruct Hmin as [->|Hin]; [left|right; exact Hin].
  - constructor; [exact Hm0|exact Hmall].
  - destruct Hxin as [->|Hin]; [|exact Hin]. rewrite Hw. left.
  - exact Hxall.
Qed.

End NormalizeAndDerive.

Section EncoderCommand.
Local Open Scope nat_scope.

Lemma odict_set_map (k : string) (v : pyval) (d : odict) :
  list_to_map (M:=gmap string pyval) (odict_set k v d)
  = <[k := v]> (list_to_map d).
Proof.
  induction d as [|[k' v'] d IH]; [reflexivity|].
  cbn [odict_set]. destruct (String.eqb_spec k' k) as [->|Hne].
  - cbn [list_to_map foldr uncurry fst snd]. cbn.
    rewrite insert_insert_eq. reflexivity.
  - cbn. rewrite IH. apply insert_insert_ne. congruence.
Qed.

Lemma odict_set_keys (k : string) (v : pyval) (d : odict) :
  (odict_set k v d).*1 = if bool_decide (k ∈ d.*1) then d.*1 else d.*1 ++ [k].
Proof.
  induction d as [|[k' v'] d IH]; [reflexivity|].
  cbn [odict_set fmap list_fmap fst].
  destruct (String.eqb_spec k' k) as [->|Hne].
  - rewrite bool_decide_eq_true_2 by left. reflexivity.
  - cbn [fmap list_fmap fst]. rewrite IH.
    destruct (decide (k ∈ d.*1)) as [Hin|Hnin].
    + rewrite !bool_decide_eq_true_2; [reflexivity|right; exact Hin|exact Hin].
    + rewrite !bool_decide_eq_false_2; [reflexivity| |exact Hnin].
      intros Hin. apply elem_of_cons in Hin as [->|Hin]; [done|].
      exact (Hnin Hin).
Qed.

Lemma odict_set_NoDup (k : string) (v : pyval) (d : odict) :
  NoDup (d.*1) -> NoDup ((odict_set k v d).*1).
Proof.
  intros Hnd. rewrite odict_set_keys.
  destruct (decide (k ∈ d.*1)) as [Hin|Hnin].
  - rewrite bool_decide_eq_true_2 by exact Hin. exact Hnd.
  - rewrite bool_decide_eq_false_2 by exact Hnin.
    apply NoDup_app. split; [exact Hnd|]. split; [|apply NoDup_singleton].
    intros x Hx Hx'. apply list_elem_of_singleton in Hx'. subst x.
    exact (Hnin Hx).
Qed.

Lemma apply_params_cons k v (params d0 : odict) :
  apply_params ((k, v) :: params) d0
  = apply_params params
      (if bool_decide (k ∈ protected_keys) then d0 else odict_set k v d0).
Proof. reflexivity. Qed.

(** The loop over [params.items()], from any starting dict. *)
Lemma apply_params_spec (params : odict) :
  NoDup (params.*1) ->
  forall d0,
    list_to_map (M:=gmap string pyval) (apply_params params d0)
    = list_to_map (filter (fun kv => kv.1 ∉ protected_keys) params)
      ∪ list_to_map d0
    /\ (NoDup (d0.*1) -> NoDup ((apply_params params d0).*1))
    /\ (Forall (fun k => k ∈ d0.*1) (params.*1) ->
        (apply_params params d0).*1 = d0.*1).
Proof.
  induction params as [|[k v] params IH]; intros Hnd d0.
  - cbn. rewrite (left_id_L ∅ (∪)). repeat split; auto.
  - cbn [fmap list_fmap fst] in Hnd. apply NoDup_cons in Hnd as [Hk Hnd].
    rewrite apply_params_cons. unfold odict in *. rewrite filter_cons.
    cbn [fst].
    destruct (decide (k ∉ protected_keys)) as [Hun|Hpr].
    + rewrite bool_decide_eq_false_2 by exact Hun.
      destruct (IH Hnd (odict_set k v d0)) as (Hmap & Hnodup & Hsame).
      split; [|split].
      * rewrite Hmap, odict_set_map.
        rewrite list_to_map_cons.
        rewrite <- insert_union_l. symmetry. apply insert_union_r.
        apply not_elem_of_list_to_map_1. intros Hin. apply Hk.
        apply list_elem_of_fmap in Hin as (kv & -> & Hin).
        apply list_elem_of_fmap. exists kv. split; [reflexivity|].
        apply list_elem_of_filter in Hin as [_ Hin]. exact Hin.
      * intros Hd0. apply Hnodup, odict_set_NoDup, Hd0.
      * intros Hall. apply Forall_cons in Hall as [Hin Hall].
        rewrite Hsame.
        -- rewrite odict_set_keys, bool_decide_eq_true_2 by exact Hin.
           reflexivity.
        -- rewrite odict_set_keys, bool_decide_eq_true_2 by exact Hin.
           exact Hall.
    + assert (Hp : k ∈ protected_keys)
        by (destruct (decide (k ∈ protected_keys)); tauto).
      rewrite bool_decide_eq_true_2 by exact Hp.
      destruct (IH Hnd d0) as (Hmap & Hnodup & Hsame).
      split; [exact Hmap|]. split; [exact Hnodup|].
      intros Hall. apply Forall_cons in Hall as [_ Hall]. exact (Hsame Hall).
Qed.

Lemma DEFAULT_PARAMS_NoDup : NoDup (DEFAULT_PARAMS.*1).
Proof.
  apply (bool_decide_unpack (NoDup (DEFAULT_PARAMS.*1))). vm_compute. exact I.
Qed.

Lemma filter_unprotected_map (params : odict) :
  list_to_map (M:=gmap string pyval)
    (filter (fun kv => kv.1 ∉ protected_keys) params)
  = delete "uncompressedDataFolder"%string
      (delete "compressedStreamPath"%string (list_to_map params)).
Proof.
  unfold odict in *. induction params as [|[k v] params IH].
  - cbn. rewrite !delete_empty. reflexivity.
  - rewrite filter_cons, list_to_map_cons. cbn [fst snd].
    destruct (decide (k ∉ protected_keys)) as [Hun|Hpr].
    + rewrite list_to_map_cons, IH. cbn [fst snd].
      unfold protected_keys in Hun. rewrite !not_elem_of_cons in Hun.
      destruct Hun as (H1 & H2 & _).
      rewrite (delete_insert_ne _ "compressedStreamPath"%string) by congruence.
      rewrite (delete_insert_ne _ "uncompressedDataFolder"%string)
        by congruence.
      reflexivity.
    + rewrite IH.
      assert (Hp : k ∈ protected_keys)
        by (destruct (decide (k ∈ protected_keys)); tauto).
      unfold protected_keys in Hp. rewrite !elem_of_cons in Hp.
      destruct Hp as [->|[->|Hp]]; [| |inversion Hp].
      * rewrite (delete_insert_ne _ "compressedStreamPath"%string) by done.
        rewrite delete_insert_eq. reflexivity.
      * rewrite delete_insert_eq. reflexivity.
Qed.

(** X18.  The parameters the encoder is run with, for [params] a dict
    (distinct keys) and whatever it holds: the keys stay distinct;
    [uncompressedDataFolder] is always [/data/input/]; [compressedStreamPath]
    is [/data/output/<filename>] when a filename is given and the default
    otherwise, never the caller's value; every other key given in [params]
    has the caller's value, and every other default keeps its default value.
    When [params] has only default keys, the parameters come in the order of
    [DEFAULT_PARAMS]. *)
Theorem run_encoder_params_spec (params : odict)
  (compressed_stream_filename : option string) :
  NoDup (params.*1) ->
  let ep := run_encoder_params params compressed_stream_filename in
  NoDup (ep.*1) /\
  list_to_map (M:=gmap string pyval) ep !! "uncompressedDataFolder"%string
  = Some (VStr "/data/input/") /\
  list_to_map (M:=gmap string pyval) ep !! "compressedStreamPath"%string
  = Some (VStr match compressed_stream_filename with
               | Some name => "/data/output/" +:+ name
               | None => "/data/output/bluebackpack.bin"
               end) /\
  (forall k,
     k ∉ protected_keys ->
     list_to_map (M:=gmap string pyval) ep !! k
     = match list_to_map (M:=gmap string pyval) params !! k with
       | Some v => Some v
       | None => list_to_map (M:=gmap string pyval) DEFAULT_PARAMS !! k
       end) /\
  (Forall (fun k => k ∈ DEFAULT_PARAMS.*1) (params.*1) ->
   ep.*1 = DEFAULT_PARAMS.*1).
Proof.
  intros Hnd ep.
  destruct (apply_params_spec params Hnd DEFAULT_PARAMS)
    as (Hmap & Hnodup & Hsame).
  rewrite filter_unprotected_map in Hmap.
  specialize (Hnodup DEFAULT_PARAMS_NoDup).
  assert (Hin : "compressedStreamPath"%string
                ∈ (apply_params params DEFAULT_PARAMS).*1).
  { apply list_elem_of_fmap.
    assert (Hl : is_Some (list_to_map (M:=gmap string pyval)
                            (apply_params params DEFAULT_PARAMS)
                          !! "compressedStreamPath"%string)).
    { rewrite Hmap, lookup_union_r
        by (rewrite lookup_delete_ne, lookup_delete_eq; done).
      eexists. reflexivity. }
    destruct Hl as [v Hv]. apply elem_of_list_to_map_2 in Hv.
    exists ("compressedStreamPath"%string, v). split; [reflexivity|exact Hv]. }
  assert (Hmap' : list_to_map (M:=gmap string pyval) ep
                  = match compressed_stream_filename with
                    | Some name =>
                      <["compressedStreamPath"%string :=
                          VStr ("/data/output/" +:+ name)]>
                        (list_to_map (apply_params params DEFAULT_PARAMS))
                    | None => list_to_map (apply_params params DEFAULT_PARAMS)
                    end).
  { subst ep. unfold run_encoder_params.
    destruct compressed_stream_filename; [apply odict_set_map|reflexivity]. }
  assert (Hkeys : ep.*1 = (apply_params params DEFAULT_PARAMS).*1).
  { subst ep. unfold run_encoder_params.
    destruct compressed_stream_filename; [|reflexivity].
    rewrite odict_set_keys, bool_decide_eq_true_2 by exact Hin. reflexivity. }
  split; [rewrite Hkeys; exact Hnodup|]. rewrite Hmap', Hmap.
  split; [|split; [|split]].
  - destruct compressed_stream_filename.
    + rewrite lookup_insert_ne by done.
      rewrite lookup_union_r by (rewrite lookup_delete_eq; done).
      reflexivity.
    + rewrite lookup_union_r by (rewrite lookup_delete_eq; done).
      reflexivity.
  - destruct compressed_stream_filename.
    + rewrite lookup_insert_eq. reflexivity.
    + rewrite lookup_union_r
        by (rewrite lookup_delete_ne, lookup_delete_eq; done).
      reflexivity.
  - intros k Hk. unfold protected_keys in Hk. rewrite !not_elem_of_cons in Hk.
    destruct Hk as (H1 & H2 & _).
    assert (Hu : (delete "uncompressedDataFolder"%string
                    (delete "compressedStreamPath"%string
                       (list_to_map (M:=gmap string pyval) params))
                  ∪ list_to_map DEFAULT_PARAMS) !! k
                 = match list_to_map (M:=gmap string pyval) params !! k with
                   | Some v => Some v
                   | None => list_to_map (M:=gmap string pyval)
                               DEFAULT_PARAMS !! k
                   end).
    { rewrite lookup_union, !lookup_delete_ne by congruence.
      destruct (list_to_map params !! k) as [v|];
        [|rewrite (left_id_L None union)]; [|reflexivity].
      destruct (list_to_map DEFAULT_PARAMS !! k); reflexivity. }
    destruct compressed_stream_filename;
      [rewrite lookup_insert_ne by congruence|]; exact Hu.
  - intros Hall. rewrite Hkeys. exact (Hsame Hall).
Qed.

Ltac not_protected :=
  let Hin := fresh "Hin" in
  intros Hin; unfold protected_keys in Hin; rewrite !elem_of_cons in Hin;
  destruct Hin as [Hin|[Hin|Hin]]; [discriminate Hin..|inversion Hin].

Lemma flags_of_in_cmd (cmd : list string) (params : odict)
  (filename : option string) (k : string) (v : pyval) (flag : string) :
  run_cmd false params filename = Some cmd ->
  list_to_map (M:=gmap string pyval) (run_encoder_params params filename) !! k
  = Some v ->
  flag ∈ flags_of (k, v) -> flag ∈ cmd.
Proof.
  intros [= <-] Hk Hflag. right.
  apply list_elem_of_join. exists (flags_of (k, v)). split; [exact Hflag|].
  apply list_elem_of_fmap. exists (k, v). split; [reflexivity|].
  apply elem_of_list_to_map_2. exact Hk.
Qed.

Lemma bitstream_name_truthy (tiles_name tile_name : string) (qp : QPConfig) :
  truthy_name (bitstream_name tiles_name tile_name qp)
  = Some (bitstream_name tiles_name tile_name qp).
Proof.
  unfold truthy_name.
  destruct (bitstream_name tiles_name tile_name qp) eqn:E; [|reflexivity].
  exfalso. apply (f_equal String.length) in E.
  destruct qp as [[occ geo] attr]. unfold bitstream_name in E.
  rewrite !string_length_app in E. cbn in E. lia.
Qed.

(** X19.  The command line of one job.  For a task of the job list, its
    parameters held in a dict in any order: unless cancellation is seen on
    entry, [run] builds a command that starts with the encoder binary and
    carries the task's own [--occupancyMapQP], [--geometryQP] and
    [--attributeQP] values, the input folder [/data/input/] and the output
    path [/data/output/<bitstream name>]. *)
Theorem job_command_line (t : task) (tiles_name tile_name : string)
  (params : odict) (cancel_requested : bool) :
  NoDup (params.*1) ->
  list_to_map params = params_with_qp t ->
  let name := bitstream_name tiles_name tile_name t.2 in
  match run_cmd cancel_requested params (truthy_name name) with
  | None => cancel_requested = true
  | Some cmd =>
    cancel_requested = false /\
    head cmd = Some "/workspace/TMC2/bin/PccAppEncoder"%string /\
    ("--occupancyMapQP=" +:+ py_str_int t.2.1.1)%string ∈ cmd /\
    ("--geometryQP=" +:+ py_str_int t.2.1.2)%string ∈ cmd /\
    ("--attributeQP=" +:+ py_str_int t.2.2)%string ∈ cmd /\
    "--uncompressedDataFolder=/data/input/"%string ∈ cmd /\
    ("--compressedStreamPath=/data/output/" +:+ name)%string ∈ cmd
  end.
Proof.
  intros Hnd Hmap name. destruct cancel_requested; [reflexivity|].
  destruct (run_cmd false params (truthy_name name)) as [cmd|] eqn:Hcmd;
    [|discriminate Hcmd].
  split; [reflexivity|].
  split; [injection Hcmd as <-; reflexivity|].
  subst name. rewrite bitstream_name_truthy in Hcmd.
  destruct (run_encoder_params_spec params
              (Some (bitstream_name tiles_name tile_name t.2)) Hnd)
    as (_ & Hfolder & Hpath & Hother & _).
  destruct t as [[[qp_idx d] tile_params] [[occ geo] attr]].
  cbn [fst snd] in *.
  assert (Hocc : list_to_map (M:=gmap string pyval) params
                 !! "occupancyMapQP"%string = Some (VInt occ)).
  { rewrite Hmap. unfold params_with_qp.
    rewrite !lookup_insert_ne by done. apply lookup_insert_eq. }
  assert (Hgeo : list_to_map (M:=gmap string pyval) params
                 !! "geometryQP"%string = Some (VInt geo)).
  { rewrite Hmap. unfold params_with_qp.
    rewrite lookup_insert_ne by done. apply lookup_insert_eq. }
  assert (Hattr : list_to_map (M:=gmap string pyval) params
                  !! "attributeQP"%string = Some (VInt attr)).
  { rewrite Hmap. unfold params_with_qp. apply lookup_insert_eq. }
  pose proof (Hother "occupancyMapQP"%string) as H1.
  pose proof (Hother "geometryQP"%string) as H2.
  pose proof (Hother "attributeQP"%string) as H3.
  rewrite Hocc in H1. rewrite Hgeo in H2. rewrite Hattr in H3.
  repeat split.
  - eapply flags_of_in_cmd; [exact Hcmd|apply H1; not_protected|left].
  - eapply flags_of_in_cmd; [exact Hcmd|apply H2; not_protected|left].
  - eapply flags_of_in_cmd; [exact Hcmd|apply H3; not_protected|left].
  - eapply flags_of_in_cmd; [exact Hcmd|exact Hfolder|left].
  - eapply flags_of_in_cmd; [exact Hcmd|exact Hpath|left].
Qed.

End EncoderCommand.

Lemma run_encoder_params_spec_witness :
  NoDup ((run_encoder_params
            [("nbThread", VInt 2); ("compressedStreamPath", VStr "x.bin")]
            (Some "t.bin")).*1)%string /\
  list_to_map (M:=gmap string pyval)
    (run_encoder_params
       [("nbThread", VInt 2); ("compressedStreamPath", VStr "x.bin")]
       (Some "t.bin"))%string !! "compressedStreamPath"%string
  = Some (VStr "/data/output/t.bin").
Proof.
  destruct (run_encoder_params_spec
              [("nbThread", VInt 2); ("compressedStreamPath", VStr "x.bin")]%string
              (Some "t.bin"%string))
    as (H1 & _ & H3 & _).
  - apply (bool_decide_unpack _). vm_compute. exact I.
  - split; [exact H1|exact H3].
Defined.

Lemma job_command_line_witness :
  match run_cmd false
          [("occupancyMapQP", VInt 24); ("geometryQP", VInt 32);
           ("attributeQP", VInt 43)]%string
          (truthy_name
             (bitstream_name "tiles" "tile_0" (24, 32, 43)%Z)) with
  | None => false = true
  | Some cmd =>
    false = false /\
    head cmd = Some "/workspace/TMC2/bin/PccAppEncoder"%string /\
    ("--occupancyMapQP=" +:+ py_str_int 24)%string ∈ cmd /\
    ("--geometryQP=" +:+ py_str_int 32)%string ∈ cmd /\
    ("--attributeQP=" +:+ py_str_int 43)%string ∈ cmd /\
    "--uncompressedDataFolder=/data/input/"%string ∈ cmd /\
    ("--compressedStreamPath=/data/output/"
     +:+ bitstream_name "tiles" "tile_0" (24, 32, 43)%Z)%string ∈ cmd
  end.
Proof.
  apply (job_command_line
           (0%nat, "tiles/tile_0"%string, ∅, (24, 32, 43)%Z)
           "tiles" "tile_0"
           [("occupancyMapQP", VInt 24); ("geometryQP", VInt 32);
            ("attributeQP", VInt 43)]%string false).
  - apply (bool_decide_unpack _). vm_compute. exact I.
  - reflexivity.
Defined.

Section Dispatch.
Local Open Scope nat_scope.
Variable cancel : nat -> bool.
Variable max_parallel_encodes : nat.
Variable n_tasks : nat.

Lemma submitted_app l1 l2 : submitted (l1 ++ l2) = submitted l1 ++ submitted l2.
Proof. apply omap_app. Qed.

Lemma completed_app l1 l2 : completed (l1 ++ l2) = completed l1 ++ completed l2.
Proof. apply omap_app. Qed.

Lemma submitted_done (l : list nat) : submitted (EvDone <$> l) = [].
Proof. induction l; [reflexivity|exact IHl]. Qed.

Lemma completed_done (l : list nat) : completed (EvDone <$> l) = l.
Proof. induction l as [|i l IH]; [reflexivity|]. cbn. f_equal. exact IH. Qed.

Lemma running_app l1 l2 :
  running (l1 ++ l2)
  = (running l1 + running l2)%Z.
Proof.
  unfold running. rewrite submitted_app, completed_app, !length_app. lia.
Qed.

Lemma dispatcher_init_ok : dispatcher_ok cancel max_parallel_encodes n_tasks dispatcher_init.
Proof.
  split; cbn; try done; try lia.
  - intros p Hp. apply prefix_nil_inv in Hp as ->.
    change (running []) with 0%Z. lia.
  - intros i c Hin. inversion Hin.
Qed.

Lemma tick_ok s : dispatcher_ok cancel max_parallel_encodes n_tasks s -> dispatcher_ok cancel max_parallel_encodes n_tasks (tick s).
Proof.
  intros [H1 H2 H3 H4 H5 H6 H7 H8]. split; cbn; try assumption.
  intros i c Hin. destruct (H8 i c Hin). split; [lia|assumption].
Qed.

Lemma prefix_snoc_inv {A} (p l : list A) (x : A) :
  p `prefix_of` l ++ [x] -> p `prefix_of` l \/ p = l ++ [x].
Proof.
  intros [k Hk].
  destruct (decide (k = [])) as [->|Hne].
  - right. rewrite app_nil_r in Hk. symmetry. exact Hk.
  - left. destruct (exists_last Hne) as (k' & y & ->).
    rewrite (assoc_L (++)) in Hk. apply app_inj_tail in Hk as [-> _].
    exists k'. reflexivity.
Qed.

Lemma submit_next_ok s :
  dispatcher_ok cancel max_parallel_encodes n_tasks s ->
  cancel (checks s) = false ->
  length (in_flight s) < max_parallel_encodes ->
  next_task_idx s < n_tasks ->
  dispatcher_ok cancel max_parallel_encodes n_tasks (submit_next (checks s) (tick s)).
Proof.
  intros [H1 H2 H3 H4 H5 H6 H7 H8] Hc Hroom Hleft.
  split; cbn [next_task_idx in_flight checks dispatch_log submit_next tick].
  - lia.
  - rewrite submitted_app, H2, seq_S. reflexivity.
  - rewrite seq_S. apply submseteq_app; [exact H3|reflexivity].
  - rewrite length_app. cbn. lia.
  - rewrite running_app, H5, length_app.
    change (running [EvSubmit (next_task_idx s) (checks s)]) with 1%Z.
    cbn [length]. lia.
  - rewrite completed_app.
    change (completed [EvSubmit (next_task_idx s) (checks s)]) with (@nil nat).
    rewrite app_nil_r, seq_S, (assoc_L (++)), H6. reflexivity.
  - intros p Hp. apply prefix_snoc_inv in Hp as [Hp| ->]; [exact (H7 p Hp)|].
    rewrite running_app, H5.
    change (running [EvSubmit (next_task_idx s) (checks s)]) with 1%Z. lia.
  - intros i c Hin. apply elem_of_app in Hin as [Hin|Hin].
    + destruct (H8 i c Hin). split; [lia|assumption].
    + apply list_elem_of_singleton in Hin. injection Hin as -> ->.
      split; [lia|exact Hc].
Qed.

Lemma launch_available_ok (remaining : nat) :
  forall s,
    dispatcher_ok cancel max_parallel_encodes n_tasks s ->
    remaining = n_tasks - next_task_idx s ->
    dispatcher_ok cancel max_parallel_encodes n_tasks (launch_available cancel max_parallel_encodes remaining s).
Proof.
  induction remaining as [|remaining IH]; intros s Hs Hrem;
    cbn [launch_available].
  - destruct (cancel (checks s)); [apply tick_ok, Hs|].
    destruct (length (in_flight s) <? max_parallel_encodes);
      apply tick_ok, Hs.
  - destruct (cancel (checks s)) eqn:Hc; [apply tick_ok, Hs|].
    destruct (Nat.ltb_spec (length (in_flight s)) max_parallel_encodes)
      as [Hroom|_]; [|apply tick_ok, Hs].
    apply IH; [apply submit_next_ok; [exact Hs|exact Hc|exact Hroom|lia]|].
    cbn. lia.
Qed.

Lemma filter_split_length {A} (P : A -> Prop) `{!forall x, Decision (P x)}
  (l : list A) :
  length (filter P l) + length (filter (fun x => ~ P x) l) = length l.
Proof.
  rewrite <- length_app, filter_app_complement. reflexivity.
Qed.

Lemma prefix_app_inv {A} (p l k : list A) :
  p `prefix_of` l ++ k ->
  p `prefix_of` l \/ exists k', p = l ++ k' /\ k' `prefix_of` k.
Proof.
  revert p l. induction k as [|x k IH] using rev_ind; intros p l Hp.
  - left. rewrite app_nil_r in Hp. exact Hp.
  - rewrite (assoc_L (++)) in Hp. apply prefix_snoc_inv in Hp as [Hp| ->].
    + destruct (IH p l Hp) as [Hl|(k' & -> & Hk')]; [left; exact Hl|].
      right. exists k'. split; [reflexivity|].
      apply prefix_app_r. exact Hk'.
    + right. exists (k ++ [x]). split; [symmetry; apply (assoc_L (++))|done].
Qed.

Lemma difference_update_ok done s :
  dispatcher_ok cancel max_parallel_encodes n_tasks s -> dispatcher_ok cancel max_parallel_encodes n_tasks (difference_update done s).
Proof.
  intros [H1 H2 H3 H4 H5 H6 H7 H8].
  pose proof (filter_split_length (fun i => i ∈ done) (in_flight s)) as Hsplit.
  split; cbn [next_task_idx in_flight checks dispatch_log difference_update].
  - exact H1.
  - rewrite submitted_app, submitted_done, app_nil_r. exact H2.
  - etransitivity; [apply sublist_submseteq, sublist_filter|exact H3].
  - pose proof (length_filter (fun i => i ∉ done) (in_flight s)). lia.
  - rewrite running_app, H5. unfold running.
    rewrite submitted_done, completed_done. cbn [length]. lia.
  - rewrite completed_app, completed_done, <- (assoc_L (++)).
    rewrite (filter_app_complement (fun i => i ∈ done) (in_flight s)).
    exact H6.
  - intros p Hp. apply prefix_app_inv in Hp as [Hp|(k' & -> & Hk')];
      [exact (H7 p Hp)|].
    rewrite running_app, H5.
    destruct Hk' as [k'' Hk''].
    assert (Hlen : length k' <= length (filter (fun i => i ∈ done) (in_flight s))).
    { rewrite <- (length_fmap EvDone (filter _ _)), Hk'', length_app. lia. }
    assert (Hrun : running k' = (- Z.of_nat (length k'))%Z).
    { assert (Hk : exists l, k' = EvDone <$> l).
      { exists (take (length k') (filter (fun i => i ∈ done) (in_flight s))).
        rewrite fmap_take, Hk'', take_app_length. reflexivity. }
      destruct Hk as [l ->]. unfold running.
      rewrite submitted_done, completed_done, length_fmap. cbn. lia. }
    pose proof (length_filter (fun i => i ∈ done) (in_flight s)) as Hle.
    rewrite Hrun. lia.
  - intros i c Hin. apply elem_of_app in Hin as [Hin|Hin]; [exact (H8 i c Hin)|].
    apply list_elem_of_fmap in Hin as (j & Hj & _). discriminate Hj.
Qed.

Lemma dispatch_loop_ok (waits : list (list nat)) :
  forall s,
    dispatcher_ok cancel max_parallel_encodes n_tasks s ->
    dispatcher_ok cancel max_parallel_encodes n_tasks
      (dispatch_loop cancel max_parallel_encodes n_tasks waits s).1.
Proof.
  induction waits as [|done waits IH]; intros s Hs; cbn.
  - destruct (in_flight s); [exact Hs|].
    destruct (cancel (checks s)); apply tick_ok, Hs.
  - destruct (in_flight s) eqn:Hfl; [exact Hs|].
    destruct (cancel (checks s)); [apply tick_ok, Hs|].
    apply IH, launch_available_ok; [|reflexivity].
    apply difference_update_ok, tick_ok, Hs.
Qed.

Lemma dispatch_ok (waits : list (list nat)) :
  dispatcher_ok cancel max_parallel_encodes n_tasks (dispatch cancel max_parallel_encodes n_tasks waits).1.
Proof.
  apply dispatch_loop_ok, launch_available_ok; [apply dispatcher_init_ok|].
  cbn. lia.
Qed.

(** X20.  The dispatch loop, whatever the answers it gets: at no point are
    more than [max_parallel_encodes] futures in flight (nor fewer than
    none); the tasks are submitted in the order of the task list, each at
    most once and without gaps; every submission was allowed by a check of
    [_cancel_requested] that answered no, so that once cancellation is
    raised for good no task is submitted any more; every submitted task is
    either still in flight or was taken out exactly once. *)
Theorem dispatch_safety (waits : list (list nat)) :
  let s := (dispatch cancel max_parallel_encodes n_tasks waits).1 in
  (forall p, p `prefix_of` dispatch_log s ->
             (0 <= running p <= Z.of_nat max_parallel_encodes)%Z) /\
  submitted (dispatch_log s) = seq 0 (next_task_idx s) /\
  next_task_idx s <= n_tasks /\
  (forall i c, EvSubmit i c ∈ dispatch_log s -> cancel c = false) /\
  (forall c0, (forall c, c0 <= c -> cancel c = true) ->
              forall i c, EvSubmit i c ∈ dispatch_log s -> c < c0) /\
  completed (dispatch_log s) ++ in_flight s ≡ₚ seq 0 (next_task_idx s).
Proof.
  intros s. destruct (dispatch_ok waits) as [H1 H2 H3 H4 H5 H6 H7 H8].
  fold s in H1, H2, H3, H4, H5, H6, H7, H8.
  split; [exact H7|]. split; [exact H2|]. split; [exact H1|].
  split; [intros i c Hin; exact (proj2 (H8 i c Hin))|].
  split; [|exact H6].
  intros c0 Hmono i c Hin. destruct (H8 i c Hin) as [_ Hc].
  destruct (Nat.lt_ge_cases c c0) as [Hlt|Hge]; [exact Hlt|].
  rewrite (Hmono c Hge) in Hc. discriminate Hc.
Qed.

Lemma launch_available_full (remaining : nat) :
  (forall c, cancel c = false) ->
  forall s,
    remaining = n_tasks - next_task_idx s ->
    next_task_idx s <= n_tasks ->
    length (in_flight s) <= max_parallel_encodes ->
    let s' := launch_available cancel max_parallel_encodes remaining s in
    next_task_idx s' = n_tasks \/
    length (in_flight s') = max_parallel_encodes.
Proof.
  intros Hnever. induction remaining as [|remaining IH];
    intros s Hrem Hnext Hroom; cbn [launch_available]; rewrite Hnever.
  - destruct (Nat.ltb_spec (length (in_flight s)) max_parallel_encodes);
      cbn; lia.
  - destruct (Nat.ltb_spec (length (in_flight s)) max_parallel_encodes);
      [|cbn; lia].
    apply IH; cbn; [lia|lia|rewrite length_app; cbn; lia].
Qed.

Lemma dispatch_loop_completes (waits : list (list nat)) :
  (forall c, cancel c = false) ->
  1 <= max_parallel_encodes ->
  forall s,
    dispatcher_ok cancel max_parallel_encodes n_tasks s ->
    next_task_idx s = n_tasks \/
    length (in_flight s) = max_parallel_encodes ->
    (dispatch_loop cancel max_parallel_encodes n_tasks waits s).2 = AllDone ->
    let s' := (dispatch_loop cancel max_parallel_encodes n_tasks waits s).1 in
    next_task_idx s' = n_tasks /\ in_flight s' = [].
Proof.
  intros Hnever Hmax.
  induction waits as [|done waits IH]; intros s Hs Hfull;
    cbn [dispatch_loop]; rewrite Hnever.
  - destruct (in_flight s) eqn:Hfl; [|discriminate].
    intros _. cbn. rewrite Hfl. cbn in Hfull. split; [lia|reflexivity].
  - destruct (in_flight s) eqn:Hfl.
    { intros _. cbn. rewrite Hfl. cbn in Hfull. split; [lia|reflexivity]. }
    cbv zeta.
    set (s1 := difference_update done (tick s)).
    assert (Hs1 : dispatcher_ok cancel max_parallel_encodes n_tasks s1)
      by apply difference_update_ok, tick_ok, Hs.
    apply IH.
    + apply launch_available_ok; [exact Hs1|reflexivity].
    + apply launch_available_full;
        [exact Hnever|reflexivity|apply Hs1|apply Hs1].
Qed.

(** X21.  When cancellation is never raised and the dispatch loop ends with
    nothing in flight, every task of the list was submitted, and each was
    taken out exactly once. *)
Theorem dispatch_completes (waits : list (list nat)) :
  (forall c, cancel c = false) ->
  1 <= max_parallel_encodes ->
  (dispatch cancel max_parallel_encodes n_tasks waits).2 = AllDone ->
  let s := (dispatch cancel max_parallel_encodes n_tasks waits).1 in
  submitted (dispatch_log s) = seq 0 n_tasks /\
  in_flight s = [] /\
  completed (dispatch_log s) ≡ₚ seq 0 n_tasks.
Proof.
  intros Hnever Hmax Hend s.
  pose proof (launch_available_ok n_tasks dispatcher_init dispatcher_init_ok)
    as Hok0.
  specialize (Hok0 ltac:(cbn; lia)).
  destruct (dispatch_loop_completes waits Hnever Hmax _ Hok0) as [Hn Hfl].
  - apply launch_available_full; [exact Hnever|cbn; lia..].
  - exact Hend.
  - fold (dispatch cancel max_parallel_encodes n_tasks waits) in Hn, Hfl.
    fold s in Hn, Hfl.
    destruct (dispatch_ok waits) as [_ H2 _ _ _ H6 _ _].
    fold s in H2, H6. rewrite Hn in H2, H6. rewrite Hfl, app_nil_r in H6.
    auto.
Qed.

End Dispatch.

Lemma dispatch_completes_witness :
  submitted (dispatch_log
               (dispatch (fun _ => false) 2 3 [[0]; [1; 2]]%nat).1)
  = seq 0 3 /\
  in_flight (dispatch (fun _ => false) 2 3 [[0]; [1; 2]]%nat).1 = [] /\
  completed (dispatch_log
               (dispatch (fun _ => false) 2 3 [[0]; [1; 2]]%nat).1)
  ≡ₚ seq 0 3.
Proof.
  apply (dispatch_completes (fun _ => false) 2 3 [[0]; [1; 2]]%nat);
    [reflexivity|lia|reflexivity].
Defined.

Section Settings.
Local Open Scope Z_scope.

(** X22.  The settings a run starts with.  When the checks of [main] pass:
    the tiler works with the grid, the segment size and the thread count
    that were asked for, unchanged; the segment size is a whole number (at
    least one) of encoder GoFs; the threads per encoder instance are between
    1 and the thread cap (1 when none was asked for, the cap when more was
    asked for); the number of concurrent encoders is at least 1, and the
    encoder threads in use at any time, concurrent encoders times threads per
    instance, do not exceed the cap, while one more encoder would. *)
Theorem checked_settings_spec (gx gy gz seg encoder_gof : Z)
  (multiple_message : string) (frame_rate_nonpositive : bool)
  (frame_count start_frame_number vox : option Z)
  (encoding_parallelism : Z) (encoding_threads_per_instance : option Z)
  (tiler : TileGenerator) (threads_per_instance max_parallel : Z) :
  checked_settings gx gy gz seg encoder_gof multiple_message
    frame_rate_nonpositive frame_count start_frame_number vox
    encoding_parallelism encoding_threads_per_instance
  = Returned (tiler, threads_per_instance, max_parallel) ->
  tiler = {| n_x := gx; n_y := gy; n_z := gz;
             segment_size := seg;
             threads := encoding_parallelism |} /\
  (exists gofs, 1 <= gofs /\ seg = gofs * encoder_gof) /\
  1 <= threads_per_instance <= encoding_parallelism /\
  threads_per_instance
  = match encoding_threads_per_instance with
    | None => 1
    | Some requested => Z.min requested encoding_parallelism
    end /\
  1 <= max_parallel /\
  max_parallel * threads_per_instance <= encoding_parallelism
  < (max_parallel + 1) * threads_per_instance.
Proof.
  unfold checked_settings, validate_segment_settings,
    validate_tiling_settings, validate_runtime_settings,
    validate_parallel_settings,
    resolve_threads_per_instance, max_parallel_encodes_of, log_and_raise.
  destruct (Z.leb_spec seg 0) as [|Hs]; [discriminate|].
  destruct (Z.leb_spec encoder_gof 0) as [|Hg]; [discriminate|].
  destruct (Z.eqb_spec (seg mod encoder_gof) 0) as [Hmod|];
    [|discriminate]. cbn [negb].
  destruct (Z.leb_spec gx 0) as [|Hx]; [discriminate|].
  destruct (Z.leb_spec gy 0) as [|Hy]; [discriminate|].
  destruct (Z.leb_spec gz 0) as [|Hz]; [discriminate|]. cbn [orb].
  destruct frame_rate_nonpositive; [discriminate|].
  destruct (match frame_count with Some c => c <=? 0 | None => false end);
    [discriminate|].
  destruct (match start_frame_number with Some n => n <? 0 | None => false end);
    [discriminate|].
  destruct (match vox with Some v => v <=? 0 | None => false end);
    [discriminate|].
  destruct (Z.leb_spec encoding_parallelism 0) as [|Hp]; [discriminate|].
  assert (Hthreads : forall t, 1 <= t <= encoding_parallelism ->
            1 <= Z.max 1 (encoding_parallelism / t) /\
            Z.max 1 (encoding_parallelism / t) * t <= encoding_parallelism
            < (Z.max 1 (encoding_parallelism / t) + 1) * t).
  { intros t Ht.
    assert (Hq : 1 <= encoding_parallelism / t)
      by (apply Z.div_le_lower_bound; lia).
    rewrite Z.max_r by lia.
    pose proof (Z.div_mod encoding_parallelism t ltac:(lia)) as Hdm.
    pose proof (Z.mod_pos_bound encoding_parallelism t ltac:(lia)) as Hr.
    split; [lia|]. nia. }
  assert (Htiler : TileGenerator_init gx gy gz seg
                     encoding_parallelism
                   = {| n_x := gx; n_y := gy;
                        n_z := gz;
                        segment_size := seg;
                        threads := encoding_parallelism |}).
  { unfold TileGenerator_init. f_equal; lia. }
  assert (Hgofs : exists gofs, 1 <= gofs /\ seg = gofs * encoder_gof).
  { exists (seg / encoder_gof).
    pose proof (Z.div_mod seg encoder_gof ltac:(lia)) as Hdm.
    rewrite Hmod in Hdm. split; [|lia].
    apply Z.div_le_lower_bound; [lia|].
    assert (encoder_gof <= seg); [|lia].
    apply Z.divide_pos_le; [lia|]. apply Z.mod_divide; [lia|exact Hmod]. }
  destruct encoding_threads_per_instance as [requested|].
  - destruct (Z.leb_spec requested 0) as [|Hr]; [discriminate|].
    destruct (Z.ltb_spec encoding_parallelism requested) as [Hcap|Hfit];
      intros [= <- <- <-];
      (split; [exact Htiler|]); (split; [exact Hgofs|]).
    + split; [lia|]. split; [lia|]. apply Hthreads. lia.
    + split; [lia|]. split; [lia|]. apply Hthreads. lia.
  - intros [= <- <- <-].
    split; [exact Htiler|]. split; [exact Hgofs|].
    split; [lia|]. split; [reflexivity|]. apply Hthreads. lia.
Qed.

Lemma checked_settings_spec_witness :
  exists tiler,
    tiler = {| n_x := 2; n_y := 3; n_z := 1;
               segment_size := 32; threads := 8 |} /\
    (exists gofs, 1 <= gofs /\ 32 = gofs * 16) /\
    1 <= 3 <= 8 /\
    3 = Z.min 3 8 /\
    1 <= 2 /\
    2 * 3 <= 8 < (2 + 1) * 3.
Proof.
  eexists.
  apply (checked_settings_spec 2 3 1 32 16 "not a multiple" false None None
           None 8 (Some 3)).
  reflexivity.
Defined.

End Settings.

Section FrameNames.
Local Open Scope nat_scope.

Lemma list_ascii_of_string_app (s t : string) :
  list_ascii_of_string (s +:+ t)
  = list_ascii_of_string s ++ list_ascii_of_string t.
Proof. induction s as [|c s IH]; simpl; [reflexivity|]. f_equal. exact IH. Qed.

Lemma string_of_list_ascii_app (l r : list ascii) :
  string_of_list_ascii (l ++ r)
  = string_of_list_ascii l +:+ string_of_list_ascii r.
Proof.
  induction l as [|c l IH]; [reflexivity|].
  change (String c (string_of_list_ascii (l ++ r))
          = String c (string_of_list_ascii l +:+ string_of_list_ascii r)).
  f_equal. exact IH.
Qed.

Lemma string_length_list (s : string) :
  String.length s = length (list_ascii_of_string s).
Proof. induction s as [|c s IH]; simpl; [reflexivity|]. f_equal. exact IH. Qed.

Lemma take_while_app_all {A} (p : A -> bool) (l r : list A) :
  forallb p l = true -> take_while p (l ++ r) = l ++ take_while p r.
Proof.
  induction l as [|x l IH]; cbn; [reflexivity|].
  intros [Hx Hl]%andb_prop. rewrite Hx, (IH Hl). reflexivity.
Qed.

Lemma drop_while_app_all {A} (p : A -> bool) (l r : list A) :
  forallb p l = true -> drop_while p (l ++ r) = drop_while p r.
Proof.
  induction l as [|x l IH]; cbn; [reflexivity|].
  intros [Hx Hl]%andb_prop. rewrite Hx. exact (IH Hl).
Qed.

Lemma take_drop_while {A} (p : A -> bool) (l : list A) :
  take_while p l ++ drop_while p l = l.
Proof.
  induction l as [|x l IH]; cbn; [reflexivity|].
  destruct (p x); cbn; [rewrite IH|]; reflexivity.
Qed.

Lemma take_while_all {A} (p : A -> bool) (l : list A) :
  forallb p (take_while p l) = true.
Proof.
  induction l as [|x l IH]; cbn; [reflexivity|].
  destruct (p x) eqn:Hx; cbn; [rewrite Hx, IH|]; reflexivity.
Qed.

Lemma drop_while_head {A} (p : A -> bool) (l : list A) :
  match drop_while p l with
  | x :: _ => p x = false
  | [] => True
  end.
Proof.
  induction l as [|x l IH]; cbn; [exact I|].
  destruct (p x) eqn:Hx; [exact IH|exact Hx].
Qed.

(** A character that fails [p] survives [drop_while p], with all that
    follows it. *)
Lemma drop_while_keeps {A} (p : A -> bool) (l : list A) (x : A)
  (r : list A) :
  p x = false -> exists l', drop_while p (l ++ x :: r) = l' ++ x :: r.
Proof.
  intros Hx. induction l as [|y l [l' IH]]; cbn.
  - rewrite Hx. exists []. reflexivity.
  - destruct (p y); [exists l'; exact IH|].
    exists (y :: l). reflexivity.
Qed.

Lemma ends_digit_cons (c : ascii) (pre : list ascii) :
  ends_digit (c :: pre) = false -> ends_digit pre = false.
Proof.
  unfold ends_digit. rewrite reverse_cons.
  destruct (reverse pre) as [|x l]; [reflexivity|]. cbn. done.
Qed.

Lemma ends_digit_snoc (pre : list ascii) :
  pre <> [] -> ends_digit pre = false ->
  exists l x, pre = l ++ [x] /\ is_digit x = false.
Proof.
  intros Hne. unfold ends_digit.
  destruct (reverse pre) as [|x l] eqn:Hr.
  - apply (f_equal reverse) in Hr. rewrite reverse_involutive in Hr. done.
  - intros Hx. exists (reverse l), x. split; [|exact Hx].
    apply (f_equal reverse) in Hr.
    rewrite reverse_involutive, reverse_cons in Hr. exact Hr.
Qed.

Lemma is_digit_not_dot (ds : list ascii) :
  forallb is_digit ds = true ->
  take_while is_digit (ds ++ ply_suffix) = ds /\
  drop_while is_digit (ds ++ ply_suffix) = ply_suffix.
Proof.
  intros Hds. rewrite take_while_app_all, drop_while_app_all by exact Hds.
  cbn. rewrite app_nil_r. done.
Qed.

Lemma at_ply_end_longer (l : list ascii) (x : ascii) (r : list ascii) :
  at_ply_end (l ++ x :: r ++ ply_suffix) = false.
Proof.
  unfold at_ply_end. apply orb_false_intro; apply bool_decide_eq_false.
  - intros H. apply (f_equal length) in H.
    rewrite !length_app in H. cbn in H. rewrite length_app in H. cbn in H.
    lia.
  - intros H. apply (f_equal last) in H.
    change ply_suffix with ([".";"p";"l"] ++ ["y"])%char in H at 1.
    rewrite (assoc_L (++) r), app_comm_cons, (assoc_L (++) l) in H.
    rewrite !last_snoc in H. discriminate H.
Qed.

(** Where the frame-number pattern matches in [pre ++ ds ++ ".ply"], [ds]
    being the digits the name ends in. *)
Lemma frame_num_search_from_spec (pre ds : list ascii) :
  ends_digit pre = false -> forallb is_digit ds = true ->
  forall i,
    frame_num_search_from i (pre ++ ds ++ ply_suffix)
    = if bool_decide (ds = []) then None
      else Some (i + length pre, i + length pre + length ds).
Proof.
  intros Hpre Hds. induction pre as [|c pre IH]; intros i.
  - cbn [app length]. destruct ds as [|d ds].
    + reflexivity.
    + destruct (is_digit_not_dot (d :: ds) Hds) as [Ht Hd].
      rewrite bool_decide_false by done.
      change ((d :: ds) ++ ply_suffix) with (d :: (ds ++ ply_suffix)) in *.
      cbn [frame_num_search_from]. rewrite Ht, Hd.
      rewrite bool_decide_false by done. cbn [negb andb].
      change (at_ply_end ply_suffix) with true. cbn match.
      f_equal. f_equal; lia.
  - change ((c :: pre) ++ ds ++ ply_suffix)
      with (c :: (pre ++ ds ++ ply_suffix)).
    cbn [frame_num_search_from].
    destruct (ends_digit_snoc (c :: pre) ltac:(done) Hpre)
      as (l & x & Hlx & Hx).
    assert (Hend : at_ply_end
                     (drop_while is_digit (c :: pre ++ ds ++ ply_suffix))
                   = false).
    { change (c :: pre ++ ds ++ ply_suffix)
        with ((c :: pre) ++ ds ++ ply_suffix).
      rewrite Hlx, <- (assoc_L (++) l). cbn [app].
      destruct (drop_while_keeps is_digit l x (ds ++ ply_suffix) Hx)
        as [l' ->].
      apply at_ply_end_longer. }
    rewrite Hend, andb_false_r.
    rewrite (IH (ends_digit_cons _ _ Hpre) (S i)).
    destruct (bool_decide (ds = [])); [reflexivity|].
    cbn [length]. f_equal. f_equal; lia.
Qed.

Lemma frame_num_search_spec (pre ds : list ascii) :
  ends_digit pre = false -> forallb is_digit ds = true ->
  frame_num_search (string_of_list_ascii (pre ++ ds ++ ply_suffix))
  = if bool_decide (ds = []) then None
    else Some (length pre, length pre + length ds).
Proof.
  intros Hpre Hds. unfold frame_num_search.
  rewrite list_ascii_of_string_of_list_ascii.
  apply (frame_num_search_from_spec pre ds Hpre Hds 0).
Qed.

Lemma frame_num_group1_spec (pre ds : list ascii) :
  ends_digit pre = false -> forallb is_digit ds = true ->
  frame_num_group1 (string_of_list_ascii (pre ++ ds ++ ply_suffix))
  = if bool_decide (ds = []) then None
    else Some (string_of_list_ascii ds).
Proof.
  intros Hpre Hds. unfold frame_num_group1.
  rewrite (frame_num_search_spec pre ds Hpre Hds).
  destruct (bool_decide (ds = [])); [reflexivity|].
  unfold str_slice. rewrite list_ascii_of_string_of_list_ascii.
  rewrite drop_app_length.
  replace (length pre + length ds - length pre) with (length ds) by lia.
  rewrite take_app_length. reflexivity.
Qed.

Lemma derive_uncompressed_pattern_spec (pre ds : list ascii) :
  ends_digit pre = false -> forallb is_digit ds = true ->
  derive_uncompressed_pattern (string_of_list_ascii (pre ++ ds ++ ply_suffix))
  = if bool_decide (ds = [])
    then string_of_list_ascii (pre ++ ply_suffix)
    else string_of_list_ascii pre +:+ "%0" +:+ str_of_nat (length ds)
         +:+ "d.ply".
Proof.
  intros Hpre Hds. unfold derive_uncompressed_pattern.
  rewrite (frame_num_search_spec pre ds Hpre Hds).
  destruct (bool_decide_reflect (ds = [])) as [->|_]; [reflexivity|].
  unfold str_slice, str_from. rewrite list_ascii_of_string_of_list_ascii.
  rewrite drop_0, Nat.sub_0_r, take_app_length.
  replace (length pre + length ds - length pre) with (length ds) by lia.
  rewrite (assoc_L (++) pre ds), <- length_app, drop_app_length.
  reflexivity.
Qed.

(** Every name is a part that does not end in a digit, then digits. *)
Lemma split_trailing_digits (cs : list ascii) :
  exists pre ds,
    cs = pre ++ ds /\ ends_digit pre = false /\ forallb is_digit ds = true.
Proof.
  exists (reverse (drop_while is_digit (reverse cs))),
         (reverse (take_while is_digit (reverse cs))).
  split; [|split].
  - rewrite <- reverse_app, take_drop_while, reverse_involutive. reflexivity.
  - unfold ends_digit. rewrite reverse_involutive.
    pose proof (drop_while_head is_digit (reverse cs)) as H.
    destruct (drop_while is_digit (reverse cs)); [reflexivity|exact H].
  - pose proof (take_while_all is_digit (reverse cs)) as H.
    rewrite forallb_forall in *. intros c Hc. apply H.
    apply list_elem_of_In. apply list_elem_of_In in Hc.
    apply elem_of_reverse. exact Hc.
Qed.

Lemma stem_ply (s : list ascii) :
  s <> [] -> stem (string_of_list_ascii (s ++ ply_suffix))
             = string_of_list_ascii s.
Proof.
  intros Hne. unfold stem. rewrite list_ascii_of_string_of_list_ascii.
  assert (Hfind : list_find (fun c : ascii => c = "."%char)
                     (reverse (s ++ ply_suffix))
                   = Some (3, "."%char)).
  { rewrite reverse_app.
    change (reverse ply_suffix) with (["y"; "l"; "p"; "."]%char).
    reflexivity. }
  rewrite Hfind.
  rewrite length_app.
  replace (length s + length ply_suffix - 1 - 3) with (length s)
    by (cbn; lia).
  rewrite take_app_length.
  destruct s as [|c s]; [done|]. reflexivity.
Qed.

Lemma forallb_reverse_true {A} (p : A -> bool) (l : list A) :
  forallb p l = true -> forallb p (reverse l) = true.
Proof.
  rewrite !forallb_forall. intros H x Hx. apply H.
  apply list_elem_of_In. apply list_elem_of_In in Hx.
  rewrite elem_of_reverse in Hx. exact Hx.
Qed.

Lemma take_while_id {A} (p : A -> bool) (l : list A) :
  forallb p l = true -> take_while p l = l.
Proof.
  intros H. pose proof (take_while_app_all p l [] H) as Ht.
  rewrite !app_nil_r in Ht. exact Ht.
Qed.

Lemma digit_not_newline (c : ascii) :
  is_digit c = true -> negb (bool_decide (c = newline)) = true.
Proof.
  intros Hc. destruct (bool_decide_reflect (c = newline)) as [->|_];
    [discriminate Hc|reflexivity].
Qed.

(** What the encoder's pattern [(.*?)(\d+)$] finds in [pre ++ ds], [ds]
    being the digits the text ends in, when the text has no newline. *)
Lemma search_trailing_digits_spec (pre ds : list ascii) :
  ends_digit pre = false -> forallb is_digit ds = true ->
  forallb (fun c => negb (bool_decide (c = newline))) pre = true ->
  search_trailing_digits (string_of_list_ascii (pre ++ ds))
  = if bool_decide (ds = []) then None
    else Some (string_of_list_ascii pre, string_of_list_ascii ds).
Proof.
  intros Hpre Hds Hnl. unfold search_trailing_digits.
  rewrite list_ascii_of_string_of_list_ascii, reverse_app.
  assert (Hall : forallb (fun c => negb (bool_decide (c = newline)))
                   (reverse ds ++ reverse pre) = true).
  { rewrite forallb_app. apply andb_true_intro. split.
    - apply forallb_reverse_true. rewrite forallb_forall in *.
      intros c Hc. apply digit_not_newline, Hds, Hc.
    - apply forallb_reverse_true, Hnl. }
  assert (Hbody : match reverse ds ++ reverse pre with
                  | c :: cs' =>
                    if bool_decide (c = newline) then cs'
                    else reverse ds ++ reverse pre
                  | [] => reverse ds ++ reverse pre
                  end = reverse ds ++ reverse pre).
  { destruct (reverse ds ++ reverse pre) as [|c cs']; [reflexivity|].
    cbn in Hall. apply andb_prop in Hall as [Hc _].
    destruct (bool_decide (c = newline)); [discriminate Hc|reflexivity]. }
  rewrite Hbody. clear Hbody Hall.
  assert (Hhead : take_while is_digit (reverse pre) = [] /\
                  drop_while is_digit (reverse pre) = reverse pre).
  { unfold ends_digit in Hpre. destruct (reverse pre) as [|c l]; [done|].
    cbn. rewrite Hpre. done. }
  destruct Hhead as [Ht Hd].
  rewrite take_while_app_all, drop_while_app_all
    by (apply forallb_reverse_true, Hds).
  rewrite Ht, Hd, app_nil_r.
  destruct (bool_decide_reflect (ds = [])) as [->|Hne]; [reflexivity|].
  destruct (reverse ds) as [|d l] eqn:Hr.
  { apply (f_equal reverse) in Hr. rewrite reverse_involutive in Hr. done. }
  rewrite (take_while_id _ (reverse pre)) by (apply forallb_reverse_true, Hnl).
  rewrite <- Hr, !reverse_involutive. reflexivity.
Qed.

Lemma ply_frame_name_split (name : string) :
  ply_frame_name name = true ->
  exists s,
    s <> [] /\
    name = string_of_list_ascii (s ++ ply_suffix) /\
    forallb (fun c => negb (bool_decide (c = newline))) s = true.
Proof.
  unfold ply_frame_name. intros [[Hsuf Hlen]%andb_prop Hnl]%andb_prop.
  apply bool_decide_eq_true in Hsuf. apply Nat.ltb_lt in Hlen.
  set (cs := list_ascii_of_string name) in *.
  exists (take (length cs - 4) cs). split; [|split].
  - intros Hnil. apply (f_equal length) in Hnil.
    rewrite length_take in Hnil. cbn in Hnil. lia.
  - rewrite <- Hsuf, take_drop. unfold cs.
    rewrite string_of_list_ascii_of_string. reflexivity.
  - rewrite <- (take_drop (length cs - 4) cs), forallb_app in Hnl.
    apply andb_prop in Hnl as [Hnl _]. exact Hnl.
Qed.

(** The frame number of a name, as the server and [main] read it and as the
    encoder reads it off the file the tiler wrote for the frame. *)
Lemma frame_name_facts (name : string) :
  ply_frame_name name = true ->
  exists pre ds,
    forallb is_digit ds = true /\
    tile_file_name name = name /\
    frame_num_group1 name
    = (if bool_decide (ds = []) then None
       else Some (string_of_list_ascii ds)) /\
    search_trailing_digits (stem (tile_file_name name))
    = (if bool_decide (ds = []) then None
       else Some (string_of_list_ascii pre, string_of_list_ascii ds)) /\
    derive_uncompressed_pattern name
    = (if bool_decide (ds = []) then name
       else string_of_list_ascii pre +:+ "%0" +:+ str_of_nat (length ds)
            +:+ "d.ply").
Proof.
  intros (s & Hne & -> & Hnl)%ply_frame_name_split.
  destruct (split_trailing_digits s) as (pre & ds & -> & Hpre & Hds).
  exists pre, ds. split; [exact Hds|].
  assert (Hname : tile_file_name
                    (string_of_list_ascii ((pre ++ ds) ++ ply_suffix))
                  = string_of_list_ascii ((pre ++ ds) ++ ply_suffix)).
  { unfold tile_file_name. rewrite (stem_ply _ Hne).
    rewrite (string_of_list_ascii_app (pre ++ ds) ply_suffix).
    reflexivity. }
  split; [exact Hname|]. rewrite Hname, (stem_ply _ Hne).
  rewrite <- (assoc_L (++) pre ds).
  split; [apply frame_num_group1_spec; assumption|].
  rewrite forallb_app in Hnl. apply andb_prop in Hnl as [Hnl _].
  split; [apply search_trailing_digits_spec; assumption|].
  rewrite derive_uncompressed_pattern_spec by assumption.
  destruct (bool_decide_reflect (ds = [])) as [->|_]; reflexivity.
Qed.

Lemma tile_file_names (frame_names : list string) :
  forallb ply_frame_name frame_names = true ->
  tile_file_name <$> frame_names = frame_names.
Proof.
  induction frame_names as [|name names IH]; [done|].
  cbn [forallb]. intros [Hname Hnames]%andb_prop.
  destruct (frame_name_facts name Hname) as (_ & _ & _ & Hn & _).
  rewrite fmap_cons, Hn, (IH Hnames). reflexivity.
Qed.

Lemma frame_digits_tile_file (name : string) :
  ply_frame_name name = true ->
  frame_digits (tile_file_name name) = frame_num_group1 name.
Proof.
  intros (pre & ds & _ & _ & -> & Hs & _)%frame_name_facts.
  unfold frame_digits. rewrite Hs.
  destruct (bool_decide (ds = [])); reflexivity.
Qed.

Lemma numbered_indices_tile_files (frame_names : list string) :
  forallb ply_frame_name frame_names = true ->
  numbered_indices (tile_file_name <$> frame_names)
  = omap extract_frame_number frame_names /\
  digit_widths (tile_file_name <$> frame_names)
  = omap (fun name => String.length <$> frame_num_group1 name) frame_names.
Proof.
  unfold numbered_indices, digit_widths, extract_frame_number.
  induction frame_names as [|name names IH]; [done|].
  cbn [forallb]. intros [Hname Hnames]%andb_prop.
  destruct (IH Hnames) as [IH1 IH2].
  cbn [fmap list_fmap omap list_omap].
  change (list_fmap string string tile_file_name names)
    with (tile_file_name <$> names).
  rewrite IH1, IH2, (frame_digits_tile_file name Hname). done.
Qed.

Lemma inspect_start_frame_fold (frame_names : list string) :
  forall start_frame,
    fold_left (fun start_frame name =>
                 match frame_num_group1 name with
                 | Some digits =>
                   let num := int_of_digits digits in
                   Some (match start_frame with
                         | None => num
                         | Some s => N.min s num
                         end)
                 | None => start_frame
                 end) frame_names start_frame
    = match start_frame, omap extract_frame_number frame_names with
      | Some s, nums => Some (fold_left N.min nums s)
      | None, [] => None
      | None, i0 :: is_ => Some (fold_left N.min is_ i0)
      end.
Proof.
  unfold extract_frame_number.
  induction frame_names as [|name names IH]; intros start_frame.
  - destruct start_frame; reflexivity.
  - cbn [fold_left omap list_omap]. rewrite IH.
    destruct (frame_num_group1 name) as [digits|];
      cbn [fmap option_fmap option_map]; [|reflexivity].
    destruct start_frame; reflexivity.
Qed.

Lemma fold_left_max_bounded (ws : list nat) (w0 : nat) :
  Forall (fun w => w <= w0) ws -> fold_left Nat.max ws w0 = w0.
Proof.
  induction 1 as [|w ws Hw _ IH]; [reflexivity|].
  cbn [fold_left]. rewrite Nat.max_l by exact Hw. exact IH.
Qed.

Lemma digit_widths_bounded (names : list string) (w0 : nat) :
  Forall (fun name => digit_count name <= w0) names ->
  Forall (fun w => w <= w0)
    (omap (fun name => String.length <$> frame_num_group1 name) names).
Proof.
  induction 1 as [|name names Hname _ IH]; [constructor|].
  cbn [omap list_omap]. unfold digit_count in Hname.
  destruct (frame_num_group1 name);
    cbn [fmap option_fmap option_map]; [constructor|]; assumption.
Qed.

(** X23.  The frame number in a frame name, as [main] and the server read
    it.  For a name [prefix ++ digits ++ ".ply"] whose prefix does not end in
    a digit: with at least one digit, the pattern is the prefix, then
    [%0<n>d.ply] for the number [n] of digits, and the frame number is the
    value of the digits; without a digit the name is its own pattern and
    there is no frame number.  Digits elsewhere in the name play no role. *)
Theorem derive_uncompressed_pattern_cases (prefix digits : string) :
  ends_in_digit prefix = false -> all_digits digits = true ->
  match digits with
  | EmptyString =>
    derive_uncompressed_pattern (prefix +:+ ".ply") = prefix +:+ ".ply" /\
    extract_frame_number (prefix +:+ ".ply") = None
  | _ =>
    derive_uncompressed_pattern (prefix +:+ digits +:+ ".ply")
    = prefix +:+ "%0" +:+ str_of_nat (String.length digits) +:+ "d.ply" /\
    extract_frame_number (prefix +:+ digits +:+ ".ply")
    = Some (int_of_digits digits)
  end.
Proof.
  unfold ends_in_digit, all_digits. intros Hpre Hds.
  pose proof (derive_uncompressed_pattern_spec _ _ Hpre Hds) as Hp.
  pose proof (frame_num_group1_spec _ _ Hpre Hds) as Hg.
  rewrite !string_of_list_ascii_app, !string_of_list_ascii_of_string in Hp, Hg.
  change (string_of_list_ascii ply_suffix) with ".ply"%string in Hp, Hg.
  unfold extract_frame_number. rewrite <- string_length_list in Hp.
  destruct digits as [|d digits].
  - cbn [list_ascii_of_string] in Hp, Hg.
    rewrite bool_decide_true in Hp, Hg by reflexivity.
    change (EmptyString +:+ ".ply")%string with ".ply"%string in Hp, Hg.
    rewrite Hp, Hg, string_of_list_ascii_app, string_of_list_ascii_of_string.
    done.
  - rewrite bool_decide_false in Hp, Hg by done.
    rewrite Hp, Hg. done.
Qed.

(** X24.  What the inspector shows is what the encoder will use.  For a
    folder of [*.ply] frames (names without newlines) whose first frame, in
    sorted order, carries a frame number, and none of whose frames has more
    digits than the first: the files the tiler makes of the frames carry the
    frames' names; [/api/inspect] answers with the number of frames, a start
    frame number and a pattern; the encoder, on a tile folder holding the
    tiler's files of these frames, infers the same pattern and the same start
    frame number; its frame count is the number of frames that carry a frame
    number. *)
Theorem inspect_agrees_with_encoder (folder tile_dir first : string)
  (rest : list string) :
  folder <> ""%string ->
  forallb ply_frame_name (first :: rest) = true ->
  is_Some (extract_frame_number first) ->
  Forall (fun name => digit_count name <= digit_count first) rest ->
  tile_file_name <$> first :: rest = first :: rest /\
  exists vox start pattern,
    inspect (Some folder) true (first :: rest)
    = InspectOk vox (length (first :: rest)) (Some start) pattern /\
    derive_frame_sequence tile_dir (tile_file_name <$> first :: rest)
    = Returned (pattern, start,
                length (omap extract_frame_number (first :: rest))).
Proof.
  intros Hfolder Hnames Hfirst Hwidth.
  split; [apply tile_file_names, Hnames|].
  pose proof Hnames as Hnames'. cbn [forallb] in Hnames'.
  apply andb_prop in Hnames' as [Hname _].
  destruct (frame_name_facts first Hname)
    as (pre & ds & Hds & _ & Hg & Hs & Hp).
  destruct (bool_decide_reflect (ds = [])) as [->|Hne].
  { unfold extract_frame_number in Hfirst. rewrite Hg in Hfirst.
    destruct Hfirst as [? [=]]. }
  destruct (numbered_indices_tile_files _ Hnames) as [Hidx Hw].
  assert (Hnum : omap extract_frame_number (first :: rest)
                 = int_of_digits (string_of_list_ascii ds)
                   :: omap extract_frame_number rest).
  { cbn [omap list_omap]. unfold extract_frame_number at 1.
    rewrite Hg. reflexivity. }
  exists (extract_metadata_vox first),
    (fold_left N.min (omap extract_frame_number rest)
       (int_of_digits (string_of_list_ascii ds))),
    (string_of_list_ascii pre +:+ "%0" +:+ str_of_nat (length ds)
     +:+ "d.ply").
  split.
  - unfold inspect. rewrite bool_decide_false by exact Hfolder.
    cbn [negb]. unfold inspect_start_frame.
    rewrite inspect_start_frame_fold, Hnum, Hp. reflexivity.
  - change (tile_file_name <$> first :: rest)
      with (tile_file_name first :: (tile_file_name <$> rest)) in *.
    unfold derive_frame_sequence. rewrite Hs.
    unfold scan_frames. rewrite scan_frames_fold. cbn [app].
    rewrite Hidx, Hw, Hnum.
    rewrite fold_left_max_bounded.
    + rewrite string_length_list, list_ascii_of_string_of_list_ascii.
      reflexivity.
    + cbn [omap list_omap]. rewrite Hg.
      cbn [fmap option_fmap option_map].
      assert (Hfirstw : digit_count first
                        = String.length (string_of_list_ascii ds)).
      { unfold digit_count. rewrite Hg. reflexivity. }
      rewrite <- Hfirstw. constructor; [lia|].
      apply digit_widths_bounded. exact Hwidth.
Qed.

End FrameNames.

Lemma derive_uncompressed_pattern_cases_witness :
  derive_uncompressed_pattern "longdress_vox10_1051.ply"
  = "longdress_vox10_%04d.ply"%string /\
  extract_frame_number "longdress_vox10_1051.ply" = Some 1051%N.
Proof.
  apply (derive_uncompressed_pattern_cases "longdress_vox10_" "1051");
    reflexivity.
Defined.

Lemma inspect_agrees_with_encoder_witness :
  tile_file_name <$> ["f0001.ply"; "f0002.ply"; "notes.ply"]%string
  = ["f0001.ply"; "f0002.ply"; "notes.ply"]%string /\
  exists vox start pattern,
    inspect (Some "frames"%string) true
      ["f0001.ply"; "f0002.ply"; "notes.ply"]%string
    = InspectOk vox 3 (Some start) pattern /\
    derive_frame_sequence "tiles/tile_0"
      (tile_file_name <$> ["f0001.ply"; "f0002.ply"; "notes.ply"]%string)
    = Returned (pattern, start, 2%nat).
Proof.
  apply (inspect_agrees_with_encoder "frames" "tiles/tile_0" "f0001.ply"
           ["f0002.ply"; "notes.ply"]%string).
  - discriminate.
  - reflexivity.
  - eexists. reflexivity.
  - repeat constructor.
Defined.

Section QpField.
Local Open Scope nat_scope.

Variable py_int : string -> option Z.
Variable int_error : string -> string.
Hypothesis py_int_decimal : forall n, py_int (str_of_nat n) = Some (Z.of_nat n).

Lemma split_on_cons (sep : ascii) (cs : list ascii) :
  exists h t, split_on sep cs = h :: t.
Proof.
  induction cs as [|c cs (h & t & IH)]; cbn; [eauto|].
  destruct (bool_decide (c = sep)); [eauto|]. rewrite IH. eauto.
Qed.

Lemma split_on_free (sep : ascii) (g r : list ascii) :
  forallb (fun c => negb (bool_decide (c = sep))) g = true ->
  split_on sep (g ++ r)
  = match split_on sep r with
    | h :: t => (g ++ h) :: t
    | [] => [g]
    end.
Proof.
  induction g as [|c g IH]; cbn [forallb app].
  - intros _. destruct (split_on_cons sep r) as (h & t & ->). reflexivity.
  - intros [Hc Hg]%andb_prop. cbn [split_on].
    destruct (bool_decide (c = sep)); [discriminate Hc|].
    rewrite (IH Hg). destruct (split_on_cons sep r) as (h & t & ->).
    reflexivity.
Qed.

Lemma split_on_free_sep (sep : ascii) (g r : list ascii) :
  forallb (fun c => negb (bool_decide (c = sep))) g = true ->
  split_on sep (g ++ sep :: r) = g :: split_on sep r.
Proof.
  intros Hg. rewrite (split_on_free sep g _ Hg). cbn [split_on].
  rewrite bool_decide_true by reflexivity. rewrite app_nil_r. reflexivity.
Qed.

Lemma split_on_free_all (sep : ascii) (g : list ascii) :
  forallb (fun c => negb (bool_decide (c = sep))) g = true ->
  split_on sep g = [g].
Proof.
  intros Hg. pose proof (split_on_free sep g [] Hg) as H.
  cbn [split_on] in H. rewrite !app_nil_r in H. exact H.
Qed.

Lemma strip_no_space (cs : list ascii) :
  forallb (fun c => negb (is_space c)) cs = true -> strip cs = cs.
Proof.
  intros H. unfold strip.
  assert (Hd : forall l, forallb (fun c => negb (is_space c)) l = true ->
                         drop_while is_space l = l).
  { intros [|c l]; [reflexivity|]. cbn. intros [Hc _]%andb_prop.
    destruct (is_space c); [discriminate Hc|reflexivity]. }
  rewrite (Hd cs H), (Hd (reverse cs)) by (apply forallb_reverse_true, H).
  apply reverse_involutive.
Qed.

Lemma uint_digits (d : Decimal.uint) :
  forallb is_digit (list_ascii_of_string (NilEmpty.string_of_uint d)) = true.
Proof. induction d; cbn; try rewrite IHd; reflexivity. Qed.

Lemma str_of_nat_digits (n : nat) :
  forallb is_digit (list_ascii_of_string (str_of_nat n)) = true.
Proof. apply uint_digits. Qed.

Lemma digit_plain (c : ascii) :
  is_digit c = true ->
  is_space c = false /\ c <> ","%char /\ c <> ":"%char /\ c <> " "%char.
Proof.
  intros Hc.
  destruct c as [[] [] [] [] [] [] [] []]; try discriminate Hc;
    (split; [reflexivity|]); (split; [discriminate|]);
    split; discriminate.
Qed.

Lemma forallb_impl {A} (p q : A -> bool) (l : list A) :
  (forall x, p x = true -> q x = true) ->
  forallb p l = true -> forallb q l = true.
Proof.
  intros Hpq. rewrite !forallb_forall. intros H x Hx. apply Hpq, H, Hx.
Qed.

Lemma digits_free (sep : ascii) (ds : list ascii) :
  is_digit sep = false ->
  forallb is_digit ds = true ->
  forallb (fun c => negb (bool_decide (c = sep))) ds = true.
Proof.
  intros Hsep. apply forallb_impl. intros c Hc.
  destruct (bool_decide_reflect (c = sep)) as [->|_]; [congruence|done].
Qed.

(** The text of a group: three runs of digits with colons between. *)
Lemma render_group (occ geo attr : nat) :
  render_piece (Group occ geo attr)
  = list_ascii_of_string (str_of_nat occ) ++ ":"%char
    :: list_ascii_of_string (str_of_nat geo) ++ ":"%char
    :: list_ascii_of_string (str_of_nat attr).
Proof.
  unfold render_piece. rewrite !list_ascii_of_string_app. reflexivity.
Qed.

Lemma render_group_chars (occ geo attr : nat) :
  forallb (fun c => is_digit c || bool_decide (c = ":"%char))
    (render_piece (Group occ geo attr)) = true.
Proof.
  rewrite render_group.
  repeat (rewrite forallb_app || cbn [forallb]).
  rewrite !(forallb_impl is_digit _ _ (fun c H => orb_true_intro _ _ (or_introl H))
              (str_of_nat_digits _)).
  reflexivity.
Qed.

Lemma group_char_plain (c : ascii) :
  is_digit c || bool_decide (c = ":"%char) = true ->
  is_space c = false /\ c <> ","%char /\ c <> " "%char.
Proof.
  intros [Hc|Hc]%orb_prop.
  - destruct (digit_plain c Hc) as (? & ? & _ & ?). done.
  - apply bool_decide_eq_true in Hc as ->. repeat split; discriminate.
Qed.

Lemma render_group_nonempty (occ geo attr : nat) :
  render_piece (Group occ geo attr) <> [].
Proof.
  rewrite render_group. intros H. apply app_eq_nil in H as [_ H].
  discriminate H.
Qed.

Lemma parse_qp_group_render (occ geo attr : nat) :
  parse_qp_group py_int int_error (render_piece (Group occ geo attr))
  = Returned (Z.of_nat occ, Z.of_nat geo, Z.of_nat attr).
Proof.
  unfold parse_qp_group. rewrite render_group.
  rewrite split_on_free_sep
    by (apply digits_free; [reflexivity|apply str_of_nat_digits]).
  rewrite split_on_free_sep
    by (apply digits_free; [reflexivity|apply str_of_nat_digits]).
  rewrite split_on_free_all
    by (apply digits_free; [reflexivity|apply str_of_nat_digits]).
  rewrite !string_of_list_ascii_of_string, !py_int_decimal. reflexivity.
Qed.

(** The text after the server's [replace]: blanks have become commas and the
    groups are untouched. *)
Lemma replace_render (pieces : list ui_piece) :
  replace_char " " "," (mjoin (render_piece <$> pieces))
  = mjoin ((fun p => match p with
                     | Sep _ => [","%char]
                     | g => render_piece g
                     end) <$> pieces).
Proof.
  unfold replace_char. induction pieces as [|p ps IH]; [reflexivity|].
  rewrite !fmap_cons. cbn [mjoin list_join]. rewrite fmap_app.
  f_equal; [|exact IH]. clear IH.
  destruct p as [occ geo attr|[]]; [|reflexivity..].
  pose proof (render_group_chars occ geo attr) as H.
  induction (render_piece (Group occ geo attr)) as [|c l IHl];
    [reflexivity|].
  cbn [forallb] in H. apply andb_prop in H as [Hc Hl].
  rewrite fmap_cons, (IHl Hl).
  destruct (group_char_plain c Hc) as (_ & _ & Hsp).
  rewrite bool_decide_false by exact Hsp. reflexivity.
Qed.

Lemma parse_qp_items_render (pieces : list ui_piece) :
  well_separated pieces = true ->
  forall pairs,
    parse_qp_items py_int int_error
      (split_on ","
         (mjoin ((fun p => match p with
                           | Sep _ => [","%char]
                           | g => render_piece g
                           end) <$> pieces))) pairs
    = Returned (pairs ++ groups_of pieces).
Proof.
  induction pieces as [|p ps IH]; intros Hws pairs.
  - cbn. rewrite app_nil_r. reflexivity.
  - rewrite fmap_cons. cbn [mjoin list_join].
    destruct p as [occ geo attr|comma].
    + assert (Hfree : forallb (fun c => negb (bool_decide (c = ","%char)))
                        (render_piece (Group occ geo attr)) = true).
      { eapply forallb_impl; [|apply render_group_chars].
        intros c Hc. destruct (group_char_plain c Hc) as (_ & Hcomma & _).
        rewrite bool_decide_false by exact Hcomma. reflexivity. }
      assert (Hstrip : strip (render_piece (Group occ geo attr))
                       = render_piece (Group occ geo attr)).
      { apply strip_no_space.
        eapply forallb_impl; [|apply render_group_chars].
        intros c Hc. destruct (group_char_plain c Hc) as (-> & _ & _).
        reflexivity. }
      assert (Hstep : forall items,
                 parse_qp_items py_int int_error
                   (render_piece (Group occ geo attr) :: items) pairs
                 = parse_qp_items py_int int_error items
                     (pairs ++ [(Z.of_nat occ, Z.of_nat geo, Z.of_nat attr)])).
      { intros items. cbn [parse_qp_items]. rewrite Hstrip.
        pose proof (render_group_nonempty occ geo attr) as Hne.
        destruct (render_piece (Group occ geo attr)) eqn:Hr; [done|].
        rewrite <- Hr, parse_qp_group_render. reflexivity. }
      cbn [groups_of].
      destruct ps as [|[occ' geo' attr'|comma] ps'].
      * cbn [fmap list_fmap mjoin list_join]. rewrite app_nil_r.
        rewrite (split_on_free_all _ _ Hfree), Hstep. reflexivity.
      * discriminate Hws.
      * rewrite fmap_cons. cbn [mjoin list_join app].
        rewrite (split_on_free_sep _ _ _ Hfree), Hstep.
        cbn [well_separated] in Hws.
        pose proof (IH Hws (pairs ++ [(Z.of_nat occ, Z.of_nat geo,
                                       Z.of_nat attr)])) as IH'.
        rewrite <- (assoc_L (++)) in IH'. exact IH'.
    + assert (Hws' : well_separated ps = true)
        by (destruct ps as [|[]]; exact Hws).
      exact (IH Hws' pairs).
Qed.

Lemma validate_qp_triplets_groups (pieces : list ui_piece) :
  validate_qp_triplets (groups_of pieces) = Returned tt.
Proof.
  induction pieces as [|[occ geo attr|comma] ps IH]; [reflexivity| |exact IH].
  cbn [groups_of validate_qp_triplets].
  replace (Z.of_nat occ <? 0)%Z with false by (symmetry; apply Z.ltb_ge; lia).
  replace (Z.of_nat geo <? 0)%Z with false by (symmetry; apply Z.ltb_ge; lia).
  replace (Z.of_nat attr <? 0)%Z with false
    by (symmetry; apply Z.ltb_ge; lia).
  exact IH.
Qed.

(** X25.  From the QP field of the UI to the QP list of the jobs.  The field
    holds groups [occ:geo:attr] of decimal numbers and separators, each a
    comma or a blank, with at least one separator between two groups (more
    separators, also before the first and after the last group, are
    allowed).  The server hands the text to [main] with the blanks turned
    into commas, and leaves the flag out when the field is empty.  [main]
    gets from it the groups, in the order typed, as triples of numbers, which
    pass its check, and the encoder takes these triples as they are; a field
    that holds separators only stops [main] with "qp_pairs cannot be
    empty". *)
Theorem ui_qp_groups_reach_main (pieces : list ui_piece)
  (cli : list string) :
  well_separated pieces = true ->
  add "--qp-pairs" (Some (qp_raw (Some (render pieces)))) cli
  = match pieces with
    | [] => cli
    | _ => cli ++ ["--qp-pairs"; qp_raw (Some (render pieces))]%string
    end /\
  main_qp_pairs py_int int_error (qp_raw (Some (render pieces)))
  = match groups_of pieces with
    | [] => Raised (RuntimeError "qp_pairs cannot be empty")
    | qps => Returned qps
    end /\
  match groups_of pieces with
  | [] => True
  | qps => normalize_qp_pairs (triple_entry <$> qps) = Returned qps
  end.
Proof.
  intros Hws.
  assert (Hraw : list_ascii_of_string (qp_raw (Some (render pieces)))
                 = mjoin ((fun p => match p with
                                    | Sep _ => [","%char]
                                    | g => render_piece g
                                    end) <$> pieces)).
  { unfold qp_raw, render. cbn [default from_option id].
    rewrite !list_ascii_of_string_of_list_ascii. apply replace_render. }
  split; [|split].
  - unfold add. destruct pieces as [|p ps]; [reflexivity|].
    rewrite bool_decide_false; [reflexivity|].
    intros Hempty. apply (f_equal list_ascii_of_string) in Hempty.
    rewrite Hraw in Hempty. rewrite fmap_cons in Hempty.
    cbn [mjoin list_join] in Hempty.
    apply app_eq_nil in Hempty as [Hempty _].
    destruct p as [occ geo attr|comma]; [|discriminate Hempty].
    exact (render_group_nonempty occ geo attr Hempty).
  - unfold main_qp_pairs, parse_qp_pairs.
    rewrite Hraw, (parse_qp_items_render pieces Hws []). cbn [app].
    destruct (groups_of pieces) as [|qp qps] eqn:Hg; [reflexivity|].
    unfold validate_qp_pairs. rewrite <- Hg, validate_qp_triplets_groups.
    reflexivity.
  - destruct (groups_of pieces) as [|qp qps] eqn:Hg; [exact I|].
    apply normalize_qp_pairs_triples. done.
Qed.

End QpField.

Lemma ui_qp_groups_reach_main_witness :
  add "--qp-pairs" (Some "24:32:43,,28:36:45,"%string) ["python"]%string
  = ["python"; "--qp-pairs"; "24:32:43,,28:36:45,"]%string /\
  main_qp_pairs (fun s => Z.of_nat <$> int_of_str s) (fun s => s)
    "24:32:43,,28:36:45,"
  = Returned [(24, 32, 43); (28, 36, 45)]%Z /\
  normalize_qp_pairs (triple_entry <$> [(24, 32, 43); (28, 36, 45)]%Z)
  = Returned [(24, 32, 43); (28, 36, 45)]%Z.
Proof.
  apply (ui_qp_groups_reach_main (fun s => Z.of_nat <$> int_of_str s)
           (fun s => s)
           (fun n => eq_ind_r (fun o => Z.of_nat <$> o = Some (Z.of_nat n))
                       eq_refl (int_of_str_of_nat n))
           [Group 24 32 43; Sep false; Sep false; Group 28 36 45; Sep true]
           ["python"%string]).
  reflexivity.
Defined.

Section BitstreamNames.
Local Open Scope nat_scope.

Lemma str_of_nat_inj (n m : nat) : str_of_nat n = str_of_nat m -> n = m.
Proof.
  intros H. pose proof (int_of_str_of_nat n) as Hn.
  rewrite H, int_of_str_of_nat in Hn. congruence.
Qed.

Lemma str_of_nat_head (n : nat) :
  exists d s, str_of_nat n = String d s /\ is_digit d = true.
Proof.
  pose proof (str_of_nat_digits n) as Hd.
  pose proof (str_of_nat_nonempty n) as Hne.
  destruct (str_of_nat n) as [|d s]; [done|].
  exists d, s. split; [reflexivity|].
  cbn in Hd. apply andb_prop in Hd as [Hd _]. exact Hd.
Qed.

Lemma py_str_int_inj (z1 z2 : Z) : py_str_int z1 = py_str_int z2 -> z1 = z2.
Proof.
  unfold py_str_int, str_of_Z_abs.
  destruct (Z.ltb_spec z1 0) as [H1|H1], (Z.ltb_spec z2 0) as [H2|H2];
    cbn [String.append]; intros H.
  - injection H as H. apply str_of_nat_inj in H. lia.
  - destruct (str_of_nat_head (Z.abs_nat z2)) as (d & s & Hs & Hd).
    rewrite Hs in H. injection H as <- _. discriminate Hd.
  - destruct (str_of_nat_head (Z.abs_nat z1)) as (d & s & Hs & Hd).
    rewrite Hs in H. injection H as -> _. discriminate Hd.
  - apply str_of_nat_inj in H. lia.
Qed.

Lemma py_str_int_chars (z : Z) :
  forallb num_char (list_ascii_of_string (py_str_int z)) = true.
Proof.
  unfold py_str_int, str_of_Z_abs. rewrite list_ascii_of_string_app.
  rewrite forallb_app. apply andb_true_intro. split.
  - destruct (z <? 0)%Z; reflexivity.
  - eapply forallb_impl; [|apply str_of_nat_digits].
    intros c Hc. unfold num_char. rewrite Hc. reflexivity.
Qed.

(** Two texts that start with a number and go on with something that is not
    part of a number: equal texts have equal numbers. *)
Lemma num_split (s1 s2 t1 t2 : list ascii) (c : ascii) :
  num_char c = false ->
  forallb num_char s1 = true -> forallb num_char s2 = true ->
  s1 ++ c :: t1 = s2 ++ c :: t2 -> s1 = s2 /\ t1 = t2.
Proof.
  intros Hc H1 H2 Heq.
  assert (Hs : s1 = s2).
  { apply (f_equal (take_while num_char)) in Heq.
    rewrite !take_while_app_all in Heq by assumption.
    cbn in Heq. rewrite Hc, !app_nil_r in Heq. exact Heq. }
  subst s2. apply app_inv_head in Heq. injection Heq as ->. done.
Qed.

Lemma rev_layout (T o A g B a C b : list ascii) :
  T ++ o ++ A ++ g ++ B ++ a ++ C ++ b
  = reverse (reverse b ++ reverse C ++ reverse a ++ reverse B ++ reverse g
             ++ reverse A ++ reverse o ++ reverse T).
Proof.
  rewrite !reverse_app, !reverse_involutive, <- !(assoc_L (++)).
  reflexivity.
Qed.

Lemma bitstream_name_list (tiles_name tile_name : string) (occ geo attr : Z) :
  list_ascii_of_string
    (bitstream_name tiles_name tile_name (occ, geo, attr))
  = list_ascii_of_string tiles_name ++ "_"%char ::
    reverse
      (list_ascii_of_string "nib."
       ++ reverse (list_ascii_of_string (py_str_int attr))
       ++ "r"%char :: list_ascii_of_string "tta_"
       ++ reverse (list_ascii_of_string (py_str_int geo))
       ++ "o"%char :: list_ascii_of_string "eg_"
       ++ reverse (list_ascii_of_string (py_str_int occ))
       ++ "c"%char :: list_ascii_of_string "co_"
       ++ reverse (list_ascii_of_string tile_name)).
Proof.
  unfold bitstream_name. rewrite !list_ascii_of_string_app.
  change (list_ascii_of_string "_") with ["_"%char].
  cbn [app]. f_equal. f_equal.
  apply (rev_layout (list_ascii_of_string tile_name)
           (list_ascii_of_string "_occ") _
           (list_ascii_of_string "_geo") _
           (list_ascii_of_string "_attr") _
           (list_ascii_of_string ".bin")).
Qed.

(** Two jobs of a run write to the same bitstream file only if they have
    the same tile directory name and the same QP triple. *)
Lemma bitstream_name_inj (tiles_name tile1 tile2 : string)
  (qp1 qp2 : QPConfig) :
  bitstream_name tiles_name tile1 qp1 = bitstream_name tiles_name tile2 qp2 ->
  tile1 = tile2 /\ qp1 = qp2.
Proof.
  destruct qp1 as [[occ1 geo1] attr1], qp2 as [[occ2 geo2] attr2].
  intros H. apply (f_equal list_ascii_of_string) in H.
  rewrite !bitstream_name_list in H.
  apply app_inv_head in H. injection H as H.
  apply (f_equal reverse) in H. rewrite !reverse_involutive in H.
  injection H as H.
  apply num_split in H as [Hattr H];
    [|reflexivity|apply forallb_reverse_true, py_str_int_chars..].
  injection H as H.
  apply num_split in H as [Hgeo H];
    [|reflexivity|apply forallb_reverse_true, py_str_int_chars..].
  injection H as H.
  apply num_split in H as [Hocc H];
    [|reflexivity|apply forallb_reverse_true, py_str_int_chars..].
  injection H as H.
  assert (Hrev : forall s1 s2 : string,
             reverse (list_ascii_of_string s1)
             = reverse (list_ascii_of_string s2) -> s1 = s2).
  { intros s1 s2 Hs. apply (f_equal reverse) in Hs.
    rewrite !reverse_involutive in Hs.
    apply (f_equal string_of_list_ascii) in Hs.
    rewrite !string_of_list_ascii_of_string in Hs. exact Hs. }
  apply Hrev in H, Hattr, Hgeo, Hocc.
  apply py_str_int_inj in Hattr, Hgeo, Hocc. subst. done.
Qed.

Lemma bitstream_names_NoDup (tiles_name : string)
  (tile_names : list string) (qps : list QPConfig) :
  NoDup tile_names -> NoDup qps ->
  NoDup (qp ← qps;
         (fun tile_name => bitstream_name tiles_name tile_name qp)
           <$> tile_names).
Proof.
  intros Htiles Hqps.
  induction Hqps as [|qp qps Hqp Hqps IH]; [constructor|].
  cbn [mbind list_bind]. apply NoDup_app. split; [|split; [|exact IH]].
  - apply NoDup_fmap_2; [|exact Htiles].
    intros t1 t2 Ht. apply bitstream_name_inj in Ht as [Ht _]. exact Ht.
  - intros name (t1 & -> & _)%list_elem_of_fmap Hin.
    apply list_elem_of_bind in Hin as (qp' & Hin & Hqp').
    apply list_elem_of_fmap in Hin as (t2 & Heq & _).
    apply bitstream_name_inj in Heq as [_ ->]. exact (Hqp Hqp').
Qed.

Lemma task_bitstream_names_from (tiles_name : string)
  (name_of : string -> string) (infos : list tile_info)
  (qps : list QPConfig) :
  forall k,
    task_bitstream_name tiles_name name_of
      <$> mjoin (imap (fun qp_idx qp =>
                         (fun info => (k + qp_idx, dir info, params info, qp))
                           <$> infos) qps)
    = qp ← qps;
      (fun tile_name => bitstream_name tiles_name tile_name qp)
        <$> ((fun info => name_of (dir info)) <$> infos).
Proof.
  induction qps as [|qp qps IH]; intros k; [reflexivity|].
  cbn [imap mjoin list_join mbind list_bind].
  rewrite fmap_app, <- !list_fmap_compose. f_equal.
  rewrite <- (IH (S k)). f_equal. f_equal. apply imap_ext. intros i x _. cbn.
  replace (k + S i) with (S (k + i)) by lia. reflexivity.
Qed.

(** X26.  The jobs of a run do not overwrite each other's bitstream: when
    the tile directories have different names and the QP list has no triple
    twice, the bitstream names of the jobs of the task list are all
    different.  (By [bitstream_name_inj] a name is used twice only for the
    same tile directory name and the same QP triple.) *)
Theorem jobs_write_distinct_bitstreams (tiles_name : string)
  (name_of : string -> string) (normalized_pairs : list QPConfig)
  (tile_infos : list tile_info) :
  NoDup ((fun info => name_of (dir info)) <$> tile_infos) ->
  NoDup normalized_pairs ->
  NoDup (task_bitstream_name tiles_name name_of
           <$> build_tasks normalized_pairs tile_infos).
Proof.
  intros Htiles Hqps.
  pose proof (task_bitstream_names_from tiles_name name_of tile_infos
                normalized_pairs 0) as Hnames.
  change (task_bitstream_name tiles_name name_of
            <$> build_tasks normalized_pairs tile_infos
          = qp ← normalized_pairs;
            (fun tile_name => bitstream_name tiles_name tile_name qp)
              <$> ((fun info => name_of (dir info)) <$> tile_infos))
    in Hnames.
  rewrite Hnames. apply bitstream_names_NoDup; assumption.
Qed.

End BitstreamNames.

Lemma jobs_write_distinct_bitstreams_witness :
  NoDup (task_bitstream_name "tiles" (fun tile_dir => tile_dir)
           <$> build_tasks [(24, 32, 43); (28, 36, 45)]%Z
                 [{| dir := "tile_0"; params := example_base_params |};
                  {| dir := "tile_1"; params := example_base_params |}]).
Proof.
  apply (jobs_write_distinct_bitstreams "tiles" (fun tile_dir => tile_dir)
           [(24, 32, 43); (28, 36, 45)]%Z
           [{| dir := "tile_0"; params := example_base_params |};
            {| dir := "tile_1"; params := example_base_params |}]);
    apply (bool_decide_unpack _); vm_compute; reflexivity.
Defined.

(** ** Worked examples: each theorem applied to a concrete input *)

Section Examples.
Local Open Scope N_scope.

Lemma parse_v3c_units_truncation_witness :
  frames (size_len_of x00) [x02; x08; xff]%byte [(1, [x02; x08; xff]%byte)] /\
  parse_v3c_units [x00; x02; x08; xff; x05; x01; x02; x03]%byte
  = ([(1, [x02; x08; xff]%byte)], Raised (ValueError "Truncated unit")).
Proof.
  assert (Hfr : frames (size_len_of x00) [x02; x08; xff]%byte
                  [(1, [x02; x08; xff]%byte)]).
  { apply (frames_cons 1 [x02]%byte x08 [xff]%byte [] []);
      [reflexivity|reflexivity|apply frames_nil]. }
  split; [exact Hfr|].
  apply (proj1 (parse_v3c_units_truncation x00 _ _ Hfr) [x05]%byte
           [x01; x02; x03]%byte); [reflexivity|vm_compute; reflexivity].
Defined.

Local Open Scope nat_scope.

Lemma combined_segment_layout_witness :
  combine_per_segment example_tracks
  = ((combine_per_segment example_tracks).1, Returned tt) /\
  exists k,
    k <= length (atlas example_tracks) /\
    Forall2 (written_for example_tracks) (seq 0 k)
      (writes (combine_per_segment example_tracks).1) /\
    NoDup ((writes (combine_per_segment example_tracks).1).*1) /\
    (Returned tt = Returned tt -> k = length (atlas example_tracks)).
Proof.
  assert (Hrun : combine_per_segment example_tracks
                 = ((combine_per_segment example_tracks).1, Returned tt))
    by (vm_compute; reflexivity).
  split; [exact Hrun|].
  apply (combined_segment_layout example_tracks _ (Returned tt) Hrun).
Defined.

Lemma combine_count_mismatch_witness :
  ~ (length (atlas mismatched_tracks) = length (occp mismatched_tracks) /\
     length (occp mismatched_tracks) = length (geom mismatched_tracks) /\
     length (geom mismatched_tracks) = length (attr mismatched_tracks)) /\
  combine_per_segment mismatched_tracks
  = ([], Raised (RuntimeError "Segment count mismatch across tracks")).
Proof.
  assert (Hne : ~ (length (atlas mismatched_tracks)
                   = length (occp mismatched_tracks) /\
                   length (occp mismatched_tracks)
                   = length (geom mismatched_tracks) /\
                   length (geom mismatched_tracks)
                   = length (attr mismatched_tracks)))
    by (simpl; lia).
  split; [exact Hne|].
  apply (combine_count_mismatch mismatched_tracks Hne).
Defined.

Lemma combine_selects_by_position_witness :
  exists tr,
    combine_per_segment example_tracks = (tr, Returned tt) /\
    Forall2 (written_for example_tracks)
      (seq 0 (length (atlas example_tracks))) (writes tr).
Proof.
  apply (combine_selects_by_position example_tracks);
    [reflexivity|reflexivity|reflexivity|].
  intros data Hin. simpl in Hin.
  repeat (apply elem_of_cons in Hin as [->|Hin]);
    [| | | |apply elem_of_nil in Hin; destruct Hin];
    (eexists; split; [vm_compute; reflexivity|simpl; lia]).
Defined.

Local Open Scope Z_scope.



Local Open Scope nat_scope.

Lemma job_list_is_tiles_times_qps_witness :
  exists infos tasks,
    encode_tiles_tasks "tiles" true false example_tile_dirs
      (triple_entry <$> [(24, 32, 43)%Z; (30, 38, 48)%Z]) ∅ None
    = Returned (Tasks tasks) /\
    Forall2 (info_of ∅ None) example_tile_dirs infos /\
    length tasks = 2 * 2 /\
    forall q t qp info,
      [(24, 32, 43)%Z; (30, 38, 48)%Z] !! q = Some qp ->
      infos !! t = Some info ->
      tasks !! (q * 2 + t) = Some (q, dir info, params info, qp).
Proof.
  apply (proj1 job_list_is_tiles_times_qps "tiles"%string example_tile_dirs
           [(24, 32, 43)%Z; (30, 38, 48)%Z] ∅ None);
    [discriminate|discriminate|].
  repeat constructor;
    (eexists _, _, _, _; split; [reflexivity|vm_compute; reflexivity]).
Defined.

Lemma job_parameters_precedence_witness :
  encode_tiles_tasks "tiles" true false example_tile_dirs
    [QpSeq [24; 32; 43]%Z] example_base_params None
  = Returned (Tasks example_tasks) /\
  exists tk files pattern start_frame frame_count,
    tk ∈ example_tasks /\
    (tk.1.1.2, files) ∈ example_tile_dirs /\
    derive_frame_sequence tk.1.1.2 files
    = Returned (pattern, start_frame, frame_count) /\
    job_parameters example_base_params None pattern start_frame frame_count
      tk.2 (params_with_qp tk).
Proof.
  assert (Hrun : encode_tiles_tasks "tiles" true false example_tile_dirs
                   [QpSeq [24; 32; 43]%Z] example_base_params None
                 = Returned (Tasks example_tasks))
    by (vm_compute; reflexivity).
  split; [exact Hrun|].
  assert (Hin : exists tk, tk ∈ example_tasks).
  { vm_compute. eexists. left. }
  destruct Hin as [tk Hin].
  destruct (job_parameters_precedence _ _ _ _ _ _ tk Hrun Hin)
    as (files & pattern & start & count & H).
  exists tk, files, pattern, start, count. split; [exact Hin|exact H].
Defined.

End Examples.
